(** * Synapse: the retrieval-augmented answering engine

    A shallow embedding of [backend/src/services/ragService.js] (class
    [RAGService]), of the helpers of [webSearchService.js] it calls and of
    the [deleteDocument] controller, with the properties the design
    document states about them.

    Conventions.
    - A JavaScript string is a [string]: one [ascii] per UTF-16 code unit,
      restricted to the code units below 256. Where the other code units
      matter, in the Answer Cache key, a string is also taken in full, as
      the list of its code units ([answerCacheKeyOf]).
    - A JavaScript number that the code uses as an integer (lengths,
      indices, the 32-bit hash) is a [Z]; a number that carries a score is
      a binary64 [float], with the IEEE operations of the kernel.
    - [async] functions are run sequentially; an awaited call that can
      reject is a computation of the monad [M], which threads the [World]
      and an exception. *)

From Stdlib Require Import ZArith Ascii String List Bool Lia.
From Stdlib Require Import Floats Uint63.
From stdpp Require Import base strings gmap pretty.

Set Warnings "-inexact-float".

(* ================================================================== *)
(** ** JavaScript strings *)
(* ================================================================== *)

Module JsString.

Definition charCode (c : ascii) : Z := Z.of_N (N_of_ascii c).

Definition len (s : string) : Z := Z.of_nat (String.length s).

(** [WhiteSpace] and [LineTerminator] of ECMAScript, below 256:
    TAB, LF, VT, FF, CR, SP and NBSP. What [trim] strips and [\s] matches. *)
Definition isWhiteSpace (c : ascii) : bool :=
  let n := charCode c in
  ((9 <=? n) && (n <=? 13) || (n =? 32) || (n =? 160))%Z.

(** [\w]: [A-Za-z0-9_]. *)
Definition isWordChar (c : ascii) : bool :=
  let n := charCode c in
  ((65 <=? n) && (n <=? 90) || (97 <=? n) && (n <=? 122)
   || (48 <=? n) && (n <=? 57) || (n =? 95))%Z.

(** [toLowerCase] on the code units below 256: the letters [A-Z] and
    U+00C0 to U+00DE, but the multiplication sign. On these it maps one
    code unit to one code unit; on others ([U+0130]) it can lengthen a
    text. *)
Definition lowerChar (c : ascii) : ascii :=
  let n := charCode c in
  if ((65 <=? n) && (n <=? 90)
      || (192 <=? n) && (n <=? 222) && negb (n =? 215))%Z
  then ascii_of_N (Z.to_N (n + 32)) else c.

Fixpoint toLowerCase (s : string) : string :=
  match s with
  | EmptyString => EmptyString
  | String c s' => String (lowerChar c) (toLowerCase s')
  end.

Fixpoint trimStart (s : string) : string :=
  match s with
  | EmptyString => EmptyString
  | String c s' => if isWhiteSpace c then trimStart s' else s
  end.

Fixpoint trimEnd (s : string) : string :=
  match s with
  | EmptyString => EmptyString
  | String c s' =>
      match trimEnd s' with
      | EmptyString => if isWhiteSpace c then EmptyString else String c EmptyString
      | t => String c t
      end
  end.

Definition trim (s : string) : string := trimEnd (trimStart s).

(** [s.slice(b, e)]: a negative index counts from the end. *)
Definition slice (s : string) (b e : Z) : string :=
  let n := len s in
  let from := if (b <? 0)%Z then Z.max (n + b) 0 else Z.min b n in
  let to := if (e <? 0)%Z then Z.max (n + e) 0 else Z.min e n in
  String.substring (Z.to_nat from) (Z.to_nat (to - from)) s.

(** [s.substring(0, n)]. *)
Definition substring0 (n : nat) (s : string) : string := String.substring 0 n s.

(** [s.includes(pat)]. *)
Fixpoint includes (s pat : string) : bool :=
  String.prefix pat s
  || match s with
     | EmptyString => false
     | String _ s' => includes s' pat
     end.

Fixpoint lastIndexOf_from (s pat : string) (i best : Z) : Z :=
  let best' := if String.prefix pat s then i else best in
  match s with
  | EmptyString => best'
  | String _ s' => lastIndexOf_from s' pat (i + 1) best'
  end.

(** [s.lastIndexOf(pat)]: the last position where [pat] starts, or -1. *)
Definition lastIndexOf (s pat : string) : Z := lastIndexOf_from s pat 0 (-1).

(** [s.split(sep)] for a one-character separator. *)
Fixpoint split (sep : ascii) (s : string) : list string :=
  match s with
  | EmptyString => [EmptyString]
  | String c s' =>
      if Ascii.eqb c sep then EmptyString :: split sep s'
      else match split sep s' with
           | w :: ws => String c w :: ws
           | [] => [String c EmptyString]
           end
  end.

Fixpoint join (sep : string) (l : list string) : string :=
  match l with
  | [] => EmptyString
  | [w] => w
  | w :: ws => w +:+ sep +:+ join sep ws
  end.

Fixpoint dropS (n : nat) (s : string) : string :=
  match n, s with
  | S n', String _ s' => dropS n' s'
  | _, _ => s
  end.

(** [s.replace(pat, rep)] with a string pattern: the first occurrence. *)
Fixpoint replaceFirst (pat rep s : string) : string :=
  if String.prefix pat s then rep +:+ dropS (String.length pat) s
  else match s with
       | EmptyString => EmptyString
       | String c s' => String c (replaceFirst pat rep s')
       end.

(** [s.replace(/[...]/g, rep)] for a character class given as a test. *)
Fixpoint replaceChars (cls : ascii -> bool) (rep : string) (s : string) : string :=
  match s with
  | EmptyString => EmptyString
  | String c s' =>
      (if cls c then rep else String c EmptyString) +:+ replaceChars cls rep s'
  end.

(** Redis glob patterns, the part the code uses: [*], [?] and literals. *)
Fixpoint glob (p : string) : string -> bool :=
  match p with
  | EmptyString => fun s => match s with EmptyString => true | _ => false end
  | String c p' =>
      if Ascii.eqb c "*" then
        fix star (s : string) : bool :=
          glob p' s || match s with
                       | EmptyString => false
                       | String _ s' => star s'
                       end
      else if Ascii.eqb c "?" then
        fun s => match s with EmptyString => false | String _ s' => glob p' s' end
      else
        fun s => match s with
                 | EmptyString => false
                 | String d s' => Ascii.eqb c d && glob p' s'
                 end
  end.

Definition isGlobMeta (c : ascii) : bool :=
  Ascii.eqb c "*" || Ascii.eqb c "?" || Ascii.eqb c "[" || Ascii.eqb c "\".

Fixpoint globFree (s : string) : bool :=
  match s with
  | EmptyString => true
  | String c s' => negb (isGlobMeta c) && globFree s'
  end.

Definition isEmpty (s : string) : bool :=
  match s with EmptyString => true | _ => false end.

(** Truthiness of a string: non-empty. *)
Definition truthy (s : string) : bool := negb (isEmpty s).

Definition quote : string := String (ascii_of_nat 34) EmptyString.

Fixpoint repeatS (c : ascii) (n : nat) : string :=
  match n with
  | O => EmptyString
  | S n' => String c (repeatS c n')
  end.

End JsString.

Import JsString.

(* ================================================================== *)
(** ** JavaScript numbers *)
(* ================================================================== *)

Module JsNumber.

(** An integer as a Number; exact below 2^53 in absolute value. *)
Definition ofZ (z : Z) : float :=
  if (z <? 0)%Z then PrimFloat.opp (PrimFloat.of_uint63 (Uint63.of_Z (- z)))
  else PrimFloat.of_uint63 (Uint63.of_Z z).

Definition ofNat (n : nat) : float := ofZ (Z.of_nat n).

(** [ToInt32]: wrap into [-2^31, 2^31). *)
Definition toInt32 (z : Z) : Z := ((z + 2 ^ 31) mod 2 ^ 32 - 2 ^ 31)%Z.

(** [x << n] on Numbers that hold integers. *)
Definition shl32 (x n : Z) : Z := toInt32 (Z.shiftl (toInt32 x) n).

(** [x & y]. *)
Definition and32 (x y : Z) : Z := toInt32 (Z.land (toInt32 x) (toInt32 y)).

(** [Math.max(a, b)]: NaN if either is NaN, and +0 above -0. *)
Definition Math_max (a b : float) : float :=
  if PrimFloat.is_nan a || PrimFloat.is_nan b then PrimFloat.nan
  else if PrimFloat.ltb a b then b
  else if PrimFloat.ltb b a then a
  else if PrimFloat.get_sign a then b else a.

(** [Math.round(x)]: the integer nearest to [x], a tie going up; computed
    on the exact value [(-1)^s * m * 2^e] of [x]. *)
Definition roundZ (s : bool) (m : positive) (e : Z) : Z :=
  let num := (if s then Z.neg m else Z.pos m) in
  let den := (2 ^ (- e))%Z in
  ((2 * num + den) / (2 * den))%Z.

Definition Math_round (x : float) : float :=
  match Prim2SF x with
  | S754_finite s m e =>
      if (0 <=? e)%Z then x
      else
        let n := roundZ s m e in
        if (n =? 0)%Z then (if s then PrimFloat.neg_zero else PrimFloat.zero)
        else ofZ n
  | _ => x
  end.

(** The decimal digits of [n] padded with zeros to [d] digits. *)
Fixpoint digits (d : nat) (n : Z) : string :=
  match d with
  | O => EmptyString
  | S d' => digits d' (n / 10) +:+ pretty (n mod 10)%Z
  end.

(** The least number [d] of fraction digits (from [d0], at most [fuel]
    more) such that the decimal nearest to [m * 2^e] with [d] fraction
    digits reads back as [x]. *)
Fixpoint shortest (fuel d : nat) (m : positive) (e : Z) (x : float) : Z * nat :=
  let p := (10 ^ Z.of_nat d)%Z in
  let n := (if (0 <=? e)%Z then Z.pos m * 2 ^ e * p
            else (2 * Z.pos m * p + 2 ^ (- e)) / (2 * 2 ^ (- e)))%Z in
  match fuel with
  | O => (n, d)
  | S fuel' =>
      if PrimFloat.eqb (PrimFloat.div (ofZ n) (ofZ p)) x then (n, d)
      else shortest fuel' (S d) m e x
  end.

(** [Number::toString] as [JSON.stringify] prints a number: [null] for
    NaN and the infinities, otherwise the shortest decimal that reads
    back as the number. Faithful where that decimal has no exponent and
    at most 15 significant digits, which covers the hundredths that an
    answer's scores are. *)
Definition JSON_number (x : float) : string :=
  match Prim2SF x with
  | S754_zero _ => "0"
  | S754_finite s m e =>
      let '(n, d) := shortest 17 0 m e (PrimFloat.abs x) in
      let p := (10 ^ Z.of_nat d)%Z in
      (if s then "-" else "") +:+ pretty (n / p)%Z
      +:+ (match d with O => "" | _ => "." +:+ digits d (n mod p) end)
  | _ => "null"
  end.

End JsNumber.

Import JsNumber.

(* ================================================================== *)
(** ** Embedder *)
(* ================================================================== *)

(** [simpleHash(str)]. *)
Fixpoint simpleHash_loop (str : string) (hash : Z) : Z :=
  match str with
  | EmptyString => hash
  | String c str' =>
      let char := charCode c in
      let hash1 := (shl32 hash 5 - hash + char)%Z in
      simpleHash_loop str' (and32 hash1 hash1)
  end.

Definition simpleHash (str : string) : Z :=
  if (String.length str =? 0)%nat then 0%Z
  else Z.abs (simpleHash_loop str 0).

Definition EMBEDDING_DIM : nat := 384.

Section Embedder.

(** [Math.sin] and [Math.cos]: ECMAScript leaves their values to the
    implementation, so they are parameters. *)
Variables Math_sin Math_cos : float -> float.

(** [generateEmbedding(text)]. The arguments [hash + i] and
    [hash * 2 + i] stay below 2^53, where Number arithmetic is exact. The
    [catch] branch (the zero vector) is not reachable on a string. *)
Definition generateEmbedding (text : string) : list float :=
  let hash := simpleHash text in
  map (fun i : nat =>
         (Math_sin (ofZ (hash + Z.of_nat i)) * 0.1
          + Math_cos (ofZ (hash * 2 + Z.of_nat i)) * 0.05)%float)
      (seq 0 EMBEDDING_DIM).

End Embedder.

(** [cosineSimilarity(vecA, vecB)]. *)
Definition dotProduct (vecA vecB : list float) : float :=
  fold_left (fun sum ab => (sum + fst ab * snd ab)%float) (combine vecA vecB) 0%float.

Definition sumSquares (vec : list float) : float :=
  fold_left (fun sum a => (sum + a * a)%float) vec 0%float.

Definition cosineSimilarity (vecA vecB : list float) : float :=
  if negb (length vecA =? length vecB)%nat || (length vecA =? 0)%nat then 0%float
  else
    let magnitudeA := PrimFloat.sqrt (sumSquares vecA) in
    let magnitudeB := PrimFloat.sqrt (sumSquares vecB) in
    if PrimFloat.eqb magnitudeA 0 || PrimFloat.eqb magnitudeB 0 then 0%float
    else (dotProduct vecA vecB / (magnitudeA * magnitudeB))%float.

(* ================================================================== *)
(** ** Chunker *)
(* ================================================================== *)

Record Chunk := { chunk_text : string; chunk_index : Z }.

(** One run of the [while] body of [chunkDocument]: the chunks and the
    index after it, and the next [start]. *)
Definition chunk_step (text : string) (chunkSize overlap : Z)
    (start index : Z) (chunks : list Chunk) : list Chunk * Z * Z :=
  let end_ := Z.min (start + chunkSize) (len text) in
  let chunk := trim (slice text start end_) in
  let chunk :=
    if (end_ <? len text)%Z then
      let sentenceEnd := lastIndexOf chunk ". " in
      let paragraphEnd := lastIndexOf chunk (String (ascii_of_nat 10) EmptyString) in
      let breakPoint := Z.max sentenceEnd paragraphEnd in
      if PrimFloat.ltb (ofZ chunkSize * 0.7)%float (ofZ breakPoint)
      then trim (slice chunk 0 (breakPoint + 1))
      else chunk
    else chunk in
  let '(chunks, index) :=
    if (0 <? len chunk)%Z
    then (chunks ++ [{| chunk_text := chunk; chunk_index := index |}], (index + 1)%Z)
    else (chunks, index) in
  (chunks, index, (start + len chunk - overlap)%Z).

(** The loop, on a fuel: [None] when the fuel runs out before the loop
    is left. *)
Fixpoint chunk_loop (fuel : nat) (text : string) (chunkSize overlap : Z)
    (start index : Z) (chunks : list Chunk) : option (list Chunk) :=
  match fuel with
  | O => None
  | S fuel' =>
      if (start <? len text)%Z then
        let '(chunks', index', start') :=
          chunk_step text chunkSize overlap start index chunks in
        if (len text <=? start')%Z then Some chunks'
        else chunk_loop fuel' text chunkSize overlap start' index' chunks'
      else Some chunks
  end.

(** [chunkDocument(text, chunkSize, overlap)]. *)
Definition chunkDocument_fuel (fuel : nat) (text : string) (chunkSize overlap : Z)
    : option (list Chunk) :=
  if (len text <=? chunkSize)%Z
  then Some [{| chunk_text := trim text; chunk_index := 0 |}]
  else chunk_loop fuel text chunkSize overlap 0 0 [].

Definition DEFAULT_CHUNK_SIZE : Z := 800.
Definition DEFAULT_OVERLAP : Z := 150.

(* ================================================================== *)
(** ** The world: cache store, document store, collaborators *)
(* ================================================================== *)

Inductive Status := processing | completed | failed.

(** A document of the store (the Mongoose model [Document]). *)
Record Document := {
  doc_id : string;
  filename : string;
  originalName : string;
  content : string;
  chunks : list Chunk;
  fileType : string;
  fileSize : Z;
  status : Status
}.

(** A Passage Cache entry: the hash that [generateAndCacheEmbeddings]
    writes. The field [embedding] holds the JSON text of the vector; the
    model keeps the vector that text denotes. *)
Record PassageHash := {
  ph_text : string;
  ph_embedding : list float;
  ph_docId : string;
  ph_filename : string
}.

Inductive RedisValue :=
| RString (s : string)
| RHash (h : PassageHash).

Record RedisEntry := { value : RedisValue; ttl : option Z }.

Record World := {
  redis : gmap string RedisEntry;
  documents : list Document;
  (** the number of calls made so far to the stores and collaborators *)
  clock : nat;
  (** the prompts sent to the generation collaborator, latest first *)
  prompts : list string;
  (** the queries sent to the web search collaborator, latest first *)
  searches : list string
}.

Definition set_redis (f : gmap string RedisEntry -> gmap string RedisEntry)
    (w : World) : World :=
  {| redis := f (redis w); documents := documents w; clock := clock w;
     prompts := prompts w; searches := searches w |}.

Definition set_documents (f : list Document -> list Document) (w : World) : World :=
  {| redis := redis w; documents := f (documents w); clock := clock w;
     prompts := prompts w; searches := searches w |}.

Definition set_clock (n : nat) (w : World) : World :=
  {| redis := redis w; documents := documents w; clock := n;
     prompts := prompts w; searches := searches w |}.

Definition add_prompt (p : string) (w : World) : World :=
  {| redis := redis w; documents := documents w; clock := clock w;
     prompts := p :: prompts w; searches := searches w |}.

Definition add_search (q : string) (w : World) : World :=
  {| redis := redis w; documents := documents w; clock := clock w;
     prompts := prompts w; searches := q :: searches w |}.

(** *** The monad of awaited calls *)

Inductive Result (A : Type) :=
| Ok (a : A)
| Throw (e : string).
Arguments Ok {A} a.
Arguments Throw {A} e.

Definition M (A : Type) : Type := World -> Result A * World.

Definition ret {A} (a : A) : M A := fun w => (Ok a, w).

Definition throw {A} (e : string) : M A := fun w => (Throw e, w).

Definition bind {A B} (m : M A) (k : A -> M B) : M B :=
  fun w => match m w with
           | (Ok a, w') => k a w'
           | (Throw e, w') => (Throw e, w')
           end.

(** [try { m } catch (e) { h e }]. *)
Definition try_catch {A} (m : M A) (h : string -> M A) : M A :=
  fun w => match m w with
           | (Ok a, w') => (Ok a, w')
           | (Throw e, w') => h e w'
           end.

Notation "'let*' x ':=' m 'in' k" := (bind m (fun x => k))
  (at level 10, x binder, m at level 100, k at level 200).

(** The world after one more call. *)
Definition ticked (w : World) : World := set_clock (S (clock w)) w.

Definition tick : M nat := fun w => (Ok (clock w), ticked w).

(** A [for ... of] loop that threads an accumulator. *)
Fixpoint forM {A St : Type} (l : list A) (body : A -> St -> M St) (acc : St) : M St :=
  match l with
  | [] => ret acc
  | x :: l' => let* acc' := body x acc in forM l' body acc'
  end.

(** Position and element, as [for (let i = 0; i < a.length; i++)] sees them. *)
Definition indexed {A} (l : list A) : list (nat * A) := combine (seq 0 (length l)) l.

(** Answers and what they cite. *)
Record Source := {
  src_filename : string;
  src_fileType : string;
  src_similarity : float
}.

Record WebRef := { ref_title : string; ref_source : string; ref_url : string }.

(** The response object of [generateAnswer]; the fields that only some
    of its literals carry are optional. *)
Record Answer := {
  answer : string;
  sources : list Source;
  webResults : list WebRef;
  webSearchEnabled : option bool;
  error : option bool
}.

(** What the web search returns, and what the search API sends. *)
Record WebResult := {
  wr_title : string;
  wr_link : string;
  wr_snippet : string;
  wr_source : string
}.

Record Organic := { org_title : string; org_link : string; org_snippet : string }.

(** A retrieved passage. *)
Record Candidate := {
  c_text : string;
  c_similarity : float;
  c_docId : string;
  c_filename : string;
  c_fileType : string
}.

(** *** [JSON.stringify] of an answer *)

Definition hexDigit (n : Z) : string :=
  String (ascii_of_N (Z.to_N (if (n <? 10)%Z then 48 + n else 87 + n))) EmptyString.

Definition JSON_escape_char (c : ascii) : string :=
  let n := charCode c in
  if (n =? 34)%Z then "\" +:+ quote
  else if (n =? 92)%Z then "\\"
  else if (n =? 8)%Z then "\b"
  else if (n =? 9)%Z then "\t"
  else if (n =? 10)%Z then "\n"
  else if (n =? 12)%Z then "\f"
  else if (n =? 13)%Z then "\r"
  else if (n <? 32)%Z then "\u00" +:+ hexDigit (n / 16) +:+ hexDigit (n mod 16)
  else String c EmptyString.

Fixpoint JSON_escape (s : string) : string :=
  match s with
  | EmptyString => EmptyString
  | String c s' => JSON_escape_char c +:+ JSON_escape s'
  end.

Definition JSON_string (s : string) : string := quote +:+ JSON_escape s +:+ quote.

Definition JSON_key (k : string) : string := quote +:+ k +:+ quote +:+ ":".

Definition JSON_bool (b : bool) : string := if b then "true" else "false".

Definition JSON_array (items : list string) : string := "[" +:+ join "," items +:+ "]".

Definition JSON_source (s : Source) : string :=
  "{" +:+ JSON_key "filename" +:+ JSON_string (src_filename s)
  +:+ "," +:+ JSON_key "fileType" +:+ JSON_string (src_fileType s)
  +:+ "," +:+ JSON_key "similarity" +:+ JSON_number (src_similarity s) +:+ "}".

Definition JSON_webRef (r : WebRef) : string :=
  "{" +:+ JSON_key "title" +:+ JSON_string (ref_title r)
  +:+ "," +:+ JSON_key "source" +:+ JSON_string (ref_source r)
  +:+ "," +:+ JSON_key "url" +:+ JSON_string (ref_url r) +:+ "}".

Definition JSON_optional (k : string) (v : option bool) : string :=
  match v with
  | Some b => "," +:+ JSON_key k +:+ JSON_bool b
  | None => ""
  end.

Definition JSON_stringify (a : Answer) : string :=
  "{" +:+ JSON_key "answer" +:+ JSON_string (answer a)
  +:+ "," +:+ JSON_key "sources" +:+ JSON_array (map JSON_source (sources a))
  +:+ "," +:+ JSON_key "webResults" +:+ JSON_array (map JSON_webRef (webResults a))
  +:+ JSON_optional "webSearchEnabled" (webSearchEnabled a)
  +:+ JSON_optional "error" (error a) +:+ "}".

(* ================================================================== *)
(** ** webSearchService.js: the pure helpers *)
(* ================================================================== *)

Definition longerThan (n : nat) (word : string) : bool := (n <? String.length word)%nat.

(** [[...new Set(l)]]: the first occurrence of each element, in order. *)
Fixpoint dedupFirst (seen : list string) (l : list string) : list string :=
  match l with
  | [] => []
  | x :: l' =>
      if existsb (String.eqb x) seen then dedupFirst seen l'
      else x :: dedupFirst (x :: seen) l'
  end.

Definition notWordNorSpace (c : ascii) : bool :=
  negb (isWordChar c || isWhiteSpace c).

(** [extractSearchTerms(documentContent, userQuery)]; its [catch] branch
    is not reachable on strings. *)
Definition extractSearchTerms (documentContent userQuery : string) : string :=
  let documentWords :=
    firstn 10 (List.filter (longerThan 3)
                 (split " " (replaceChars notWordNorSpace " " (toLowerCase documentContent)))) in
  let queryWords :=
    List.filter (longerThan 2)
      (split " " (replaceChars notWordNorSpace " " (toLowerCase userQuery))) in
  let allTerms := dedupFirst [] (queryWords ++ documentWords) in
  join " " (firstn 6 allTerms).

Definition webSearchKeywords : list string :=
  [ "search internet"; "search web"; "search online"; "google"; "find online";
    "web search"; "internet search"; "search for"; "look up online";
    "find more info"; "additional information"; "latest news"; "current info" ].

(** [isWebSearchRequest(query)]. *)
Definition isWebSearchRequest (query : string) : bool :=
  let queryLower := toLowerCase query in
  existsb (fun keyword => includes queryLower keyword) webSearchKeywords.

(** *** The regular expressions of the direct search *)

(** [pat] at the start of [s], letters compared without case: the rest
    of [s] after it. *)
Fixpoint stripPrefixCI (pat s : string) : option string :=
  match pat, s with
  | EmptyString, _ => Some s
  | String p pat', String c s' =>
      if Ascii.eqb p (lowerChar c) then stripPrefixCI pat' s' else None
  | String _ _, EmptyString => None
  end.

(** A match of [/search\s+(internet|web|online|for)/i] at the start of
    [s]: its length. *)
Definition matchSearchPhrase (s : string) : option nat :=
  match stripPrefixCI "search" s with
  | None => None
  | Some rest =>
      let rest' := trimStart rest in
      if (String.length rest' <? String.length rest)%nat then
        let spaces := (String.length rest - String.length rest')%nat in
        match
          find (fun alt => match stripPrefixCI alt rest' with Some _ => true | None => false end)
               ["internet"; "web"; "online"; "for"]
        with
        | Some alt => Some (6 + spaces + String.length alt)%nat
        | None => None
        end
      else None
  end.

(** [s.replace(/search\s+(internet|web|online|for)/gi, '')]; [skip]
    counts the characters of a match still to drop. *)
Fixpoint removeSearchPhrases (skip : nat) (s : string) : string :=
  match s with
  | EmptyString => EmptyString
  | String c s' =>
      match skip with
      | S k => removeSearchPhrases k s'
      | O =>
          match matchSearchPhrase s with
          | Some (S k) => removeSearchPhrases k s'
          | _ => String c (removeSearchPhrases 0 s')
          end
      end
  end.

Definition isSentenceMark (c : ascii) : bool :=
  Ascii.eqb c "?" || Ascii.eqb c "!" || Ascii.eqb c ".".

(** The query of a search with no passage: the question without
    [?], [!], [.] and without the search phrases, trimmed. *)
Definition directSearchTerms (question : string) : string :=
  trim (removeSearchPhrases 0 (replaceChars isSentenceMark "" question)).

(* ================================================================== *)
(** ** Cache keys *)
(* ================================================================== *)

(** [Buffer.from(s)] on a string of code units below 256: the UTF-8
    bytes of [s], one or two for each code unit. ([Buffer_from], further
    down, is the encoding of a string of any code units.) *)
Fixpoint utf8 (s : string) : list Z :=
  match s with
  | EmptyString => []
  | String c s' =>
      let n := charCode c in
      if (n <? 128)%Z then n :: utf8 s'
      else (192 + n / 64)%Z :: (128 + n mod 64)%Z :: utf8 s'
  end.

Definition b64char (n : Z) : ascii :=
  ascii_of_N (Z.to_N
    (if (n <? 26)%Z then 65 + n
     else if (n <? 52)%Z then 97 + (n - 26)
     else if (n <? 62)%Z then 48 + (n - 52)
     else if (n =? 62)%Z then 43 else 47)).

(** [buf.toString('base64')]. *)
Fixpoint base64 (bytes : list Z) : string :=
  match bytes with
  | [] => EmptyString
  | [a] =>
      String (b64char (a / 4)) (String (b64char (a mod 4 * 16)) "==")
  | [a; b] =>
      String (b64char (a / 4)) (String (b64char (a mod 4 * 16 + b / 16))
        (String (b64char (b mod 16 * 4)) "="))
  | a :: b :: c :: rest =>
      String (b64char (a / 4)) (String (b64char (a mod 4 * 16 + b / 16))
        (String (b64char (b mod 16 * 4 + c / 64)) (String (b64char (c mod 64))
           (base64 rest))))
  end.

(** The Answer Cache key of [generateAnswer]. *)
Definition answerCacheKey (roomId question : string) (webSearchEnabled : bool) : string :=
  "answer:" +:+ roomId +:+ ":" +:+ substring0 50 (base64 (utf8 question))
  +:+ ":ws" +:+ JSON_bool webSearchEnabled.

(** The Passage Cache key of chunk [i] of a document. *)
Definition chunkKey (documentId : string) (i : Z) : string :=
  "doc:" +:+ documentId +:+ ":chunk:" +:+ pretty i.

(* ================================================================== *)
(** ** The service *)
(* ================================================================== *)

Section Service.

(** The platform and the collaborators. The store and collaborator
    calls are numbered by the [clock]; what the [n]-th call meets is
    read from these oracles. *)

(** whether the cache store or the document store fails at a call *)
Variable fault : nat -> bool.
(** the generation collaborator: the text for a prompt, or a failure *)
Variable llm : nat -> string -> option string.
(** whether the search API key is configured *)
Variable apiKey : bool.
(** the search API: a failure, a reply without [organic], or results *)
Variable axios_post : nat -> string -> Z -> option (option (list Organic)).
(** [new URL(url).hostname], or a failure *)
Variable URL_hostname : string -> option string.
(** [JSON.parse] on a cached answer: a value, or a syntax error *)
Variable JsValue : Type.
Variable JSON_parse : string -> option JsValue.
Variables Math_sin Math_cos : float -> float.

(** *** The cache store (the Redis client) *)

Definition store_call {A} (what : string) (op : M A) : M A :=
  let* t := tick in
  if fault t then throw (what +:+ " failed") else op.

Definition WRONGTYPE : string :=
  "WRONGTYPE Operation against a key holding the wrong kind of value".

Definition redis_get (key : string) : M (option string) :=
  store_call "redis" (fun w =>
    match redis w !! key with
    | None => (Ok None, w)
    | Some {| value := RString s |} => (Ok (Some s), w)
    | Some {| value := RHash _ |} => (Throw WRONGTYPE, w)
    end).

Definition redis_setEx (key : string) (seconds : Z) (v : string) : M unit :=
  store_call "redis" (fun w =>
    (Ok tt, set_redis (insert key {| value := RString v; ttl := Some seconds |}) w)).

Definition redis_hGetAll (key : string) : M (option PassageHash) :=
  store_call "redis" (fun w =>
    match redis w !! key with
    | None => (Ok None, w)
    | Some {| value := RHash h |} => (Ok (Some h), w)
    | Some {| value := RString _ |} => (Throw WRONGTYPE, w)
    end).

Definition redis_hSet (key : string) (h : PassageHash) : M unit :=
  store_call "redis" (fun w =>
    match redis w !! key with
    | Some {| value := RString _ |} => (Throw WRONGTYPE, w)
    | Some {| value := RHash _; ttl := t |} =>
        (Ok tt, set_redis (insert key {| value := RHash h; ttl := t |}) w)
    | None =>
        (Ok tt, set_redis (insert key {| value := RHash h; ttl := None |}) w)
    end).

Definition redis_expire (key : string) (seconds : Z) : M unit :=
  store_call "redis" (fun w =>
    match redis w !! key with
    | Some e =>
        (Ok tt, set_redis (insert key {| value := value e; ttl := Some seconds |}) w)
    | None => (Ok tt, w)
    end).

Definition redis_keys (pattern : string) : M (list string) :=
  store_call "redis" (fun w =>
    (Ok (List.filter (glob pattern) (map fst (map_to_list (redis w)))), w)).

Definition del_keys (keys : list string) (m : gmap string RedisEntry)
    : gmap string RedisEntry :=
  foldr delete m keys.

Definition redis_del (keys : list string) : M unit :=
  store_call "redis" (fun w => (Ok tt, set_redis (del_keys keys) w)).

(** *** The document store *)

Definition isCompleted (d : Document) : bool :=
  match status d with completed => true | _ => false end.

(** [Document.find({ status: 'completed' }).lean()]. *)
Definition Document_find_completed : M (list Document) :=
  store_call "mongo" (fun w => (Ok (List.filter isCompleted (documents w)), w)).

(** [Document.countDocuments({ status: 'completed' })]. *)
Definition Document_count_completed : M Z :=
  store_call "mongo" (fun w =>
    (Ok (Z.of_nat (length (List.filter isCompleted (documents w)))), w)).

Definition Document_findById (id : string) : M (option Document) :=
  store_call "mongo" (fun w =>
    (Ok (find (fun d => String.eqb (doc_id d) id) (documents w)), w)).

Definition Document_findByIdAndDelete (id : string) : M unit :=
  store_call "mongo" (fun w =>
    (Ok tt, set_documents (List.filter (fun d => negb (String.eqb (doc_id d) id))) w)).

(** *** The generation collaborator *)

(** [this.model.generateContent(prompt)] and [result.response.text()]. *)
Definition model_generateContent (prompt : string) : M string :=
  let* t := tick in
  fun w =>
    match llm t prompt with
    | Some text => (Ok text, add_prompt prompt w)
    | None => (Throw "generation failed", add_prompt prompt w)
    end.

(** *** webSearchService.searchWeb *)

Definition extractDomain (url : string) : string :=
  match URL_hostname url with
  | Some domain => replaceFirst "www." "" domain
  | None => "Unknown Source"
  end.

Definition toWebResult (result : Organic) : WebResult :=
  {| wr_title := org_title result; wr_link := org_link result;
     wr_snippet := org_snippet result; wr_source := extractDomain (org_link result) |}.

Definition searchWeb (query : string) (numResults : Z) : M (list WebResult) :=
  if negb apiKey then
    throw "Web search is not configured. Please add SERPER_API_KEY to environment variables."
  else
    try_catch
      (let* t := tick in
       fun w =>
         match axios_post t query numResults with
         | None => (Throw "request failed", add_search query w)
         | Some None => (Ok [], add_search query w)
         | Some (Some organic) =>
             (Ok (map toWebResult (firstn (Z.to_nat numResults) organic)),
              add_search query w)
         end)
      (fun e => throw ("Web search failed: " +:+ e)).

(** *** Passage Cache writes *)

(** The body of [generateAndCacheEmbeddings] for one chunk. *)
Definition cacheChunk (documentId fname : string) (chunk : Chunk) : M unit :=
  try_catch
    (let embedding := generateEmbedding Math_sin Math_cos (chunk_text chunk) in
     let cacheKey := chunkKey documentId (chunk_index chunk) in
     let* _ := redis_hSet cacheKey
                 {| ph_text := chunk_text chunk; ph_embedding := embedding;
                    ph_docId := documentId; ph_filename := fname |} in
     redis_expire cacheKey 86400)
    (fun _ => ret tt).

(** [generateAndCacheEmbeddings(documentId, chunks, filename)]; the
    batches of five run one chunk after the other. *)
Definition generateAndCacheEmbeddings (documentId : string) (chunks : list Chunk)
    (fname : string) : M unit :=
  forM chunks (fun chunk _ => cacheChunk documentId fname chunk) tt.

(** *** Retriever *)

(** The lexical score of lines 262-274. *)
Definition lexicalSimilarity (query chunkText : string) : float :=
  let queryLower := toLowerCase query in
  let chunkTextLower := toLowerCase chunkText in
  if includes chunkTextLower queryLower then 0.9%float
  else
    let queryWords := List.filter (longerThan 2) (split " " queryLower) in
    let matchedWords := List.filter (fun word => includes chunkTextLower word) queryWords in
    (ofNat (length matchedWords) / ofNat (length queryWords) * 0.7)%float.

(** Whether the query names the PDF or a document in general. *)
Definition mentionsDocument (query : string) (doc : Document) : bool :=
  let queryLower := toLowerCase query in
  includes queryLower "pdf" || includes queryLower "document"
  || includes queryLower "file" || includes queryLower "summary"
  || includes queryLower (replaceFirst ".pdf" "" (toLowerCase (originalName doc))).

(** The score of the fallback path, with the leniency for PDFs. *)
Definition fallbackSimilarity (query : string) (doc : Document) (chunkText : string)
    : float :=
  let similarity := lexicalSimilarity query chunkText in
  if String.eqb (fileType doc) ".pdf" && mentionsDocument query doc
  then Math_max similarity 0.8
  else similarity.

Definition candidate (text : string) (similarity : float) (doc : Document) : Candidate :=
  {| c_text := text; c_similarity := similarity; c_docId := doc_id doc;
     c_filename := originalName doc; c_fileType := fileType doc |}.

(** The fallback of lines 259-297 on one chunk. *)
Definition fallbackChunk (query : string) (doc : Document) (chunk : Chunk)
    (similarities : list Candidate) : list Candidate :=
  if truthy (chunk_text chunk) then
    let similarity := fallbackSimilarity query doc (chunk_text chunk) in
    if PrimFloat.ltb 0.1 similarity
    then similarities ++ [candidate (chunk_text chunk) similarity doc]
    else similarities
  else similarities.

(** What the Passage Cache holds for a chunk, when it is usable:
    [chunkData.embedding && chunkData.text]. The JSON text of a vector
    is never empty, so the test on [embedding] is the presence of the
    hash. PDFs are never looked up. *)
Definition cachedPassage (doc : Document) (i : nat) : M (option PassageHash) :=
  if negb (String.eqb (fileType doc) ".pdf") then
    let* chunkData := redis_hGetAll (chunkKey (doc_id doc) (Z.of_nat i)) in
    match chunkData with
    | Some h => if truthy (ph_text h) then ret (Some h) else ret None
    | None => ret None
    end
  else ret None.

(** The body of the inner loop of [retrieveRelevantChunks], with its
    [try]/[catch]. *)
Definition searchChunk (query : string) (doc : Document) (ic : nat * Chunk)
    (similarities : list Candidate) : M (list Candidate) :=
  try_catch
    (let* hit := cachedPassage doc (fst ic) in
     match hit with
     | Some chunkData =>
         let queryEmbedding := generateEmbedding Math_sin Math_cos query in
         let similarity := cosineSimilarity queryEmbedding (ph_embedding chunkData) in
         ret (similarities ++ [candidate (ph_text chunkData) similarity doc])
     | None => ret (fallbackChunk query doc (snd ic) similarities)
     end)
    (fun _ => ret similarities).

Definition searchDocument (query : string) (doc : Document)
    (similarities : list Candidate) : M (list Candidate) :=
  forM (indexed (chunks doc)) (searchChunk query doc) similarities.

(** [array.sort((a, b) => b.similarity - a.similarity)]: a stable sort,
    [x] going before [y] when the comparator is negative on [(x, y)].
    This is the order that the language fixes when the comparator is
    consistent on the passages, which asks for differences of scores
    that are never [NaN]; otherwise the language leaves the order to
    the engine, and the definition is one stable insertion from the
    left. *)
Definition goesBefore (x y : Candidate) : bool :=
  PrimFloat.ltb (c_similarity y - c_similarity x)%float 0.

Fixpoint insertSorted (x : Candidate) (l : list Candidate) : list Candidate :=
  match l with
  | [] => [x]
  | y :: l' => if goesBefore x y then x :: l else y :: insertSorted x l'
  end.

Definition sortBySimilarity (l : list Candidate) : list Candidate :=
  fold_left (fun sorted x => insertSorted x sorted) l [].

(** [retrieveRelevantChunks(query, topK)]. *)
Definition retrieveRelevantChunks (query : string) (topK : nat) : M (list Candidate) :=
  try_catch
    (let* docs := Document_find_completed in
     match docs with
     | [] => ret []
     | _ =>
         let* similarities := forM docs (searchDocument query) [] in
         ret (firstn topK (sortBySimilarity similarities))
     end)
    (fun _ => ret []).

(** *** Answer Synthesizer *)

Definition nl : string := String (ascii_of_nat 10) EmptyString.

Definition separator : string := nl +:+ nl +:+ "---" +:+ nl +:+ nl.

Definition documentEntry (ic : nat * Candidate) : string :=
  let '(idx, chunk) := ic in
  let sourceInfo := "[Document " +:+ pretty (idx + 1)%nat +:+ ": " +:+ c_filename chunk +:+ "]" in
  let sourceInfo :=
    if String.eqb (c_fileType chunk) ".pdf" then sourceInfo +:+ " (PDF)" else sourceInfo in
  sourceInfo +:+ nl +:+ c_text chunk.

Definition documentContextOf (relevantChunks : list Candidate) : string :=
  match relevantChunks with
  | [] => ""
  | _ => join separator (map documentEntry (indexed relevantChunks))
  end.

Definition webEntry (ir : nat * WebResult) : string :=
  let '(idx, result) := ir in
  "[Web Result " +:+ pretty (idx + 1)%nat +:+ ": " +:+ wr_source result +:+ "]" +:+ nl
  +:+ "Title: " +:+ wr_title result +:+ nl
  +:+ "Content: " +:+ wr_snippet result +:+ nl
  +:+ "URL: " +:+ wr_link result.

Definition webContextOf (webSearchResults : list WebResult) : string :=
  join separator (map webEntry (indexed webSearchResults)).

Definition combinedPrompt (documentContext webContext question : string) : string :=
  "You are an AI assistant helping users understand their documents and find related information online. You have access to both their uploaded documents and current web search results.

DOCUMENT CONTEXT:
" +:+ documentContext +:+ "

WEB SEARCH RESULTS:
" +:+ webContext +:+ "

User Question: " +:+ question +:+ "

Instructions:
1. Start by analyzing the document content to understand the core topic
2. Then incorporate relevant information from the web search results
3. Provide a comprehensive answer that combines both sources
4. Clearly distinguish between information from the user's document vs. web sources
5. Include specific details and be helpful
6. Mention that web search was performed to supplement the document information

Answer:".

Definition webOnlyPrompt (webContext question : string) : string :=
  "You are an AI assistant answering a question using current web search results.

WEB SEARCH RESULTS:
" +:+ webContext +:+ "

User Question: " +:+ question +:+ "

Instructions:
1. Answer based on the web search results
2. Be informative and helpful
3. Cite sources when relevant

Answer:".

Definition documentOnlyPrompt (documentContext question : string) (webSearchEnabled : bool)
    : string :=
  "You are an AI assistant helping users understand their uploaded documents. Based on the provided context from their documents, answer the question clearly and helpfully.

DOCUMENT CONTEXT:
" +:+ documentContext +:+ "

User Question: " +:+ question +:+ "

Instructions:
1. Answer based on the provided document context
2. Be helpful and conversational
3. If the context mentions that PDF processing is simplified, acknowledge this
4. For PDF files, work with the available information effectively
5. " +:+ (if webSearchEnabled
          then "If the user asks about web search, explain that you can search the internet for additional information"
          else "Note that web search is currently disabled") +:+ "
6. Cite which documents you're referencing when relevant

Answer:".

(** The prompt of lines 430-496, by the sources at hand. *)
Definition promptFor (relevantChunks : list Candidate) (webSearchResults : list WebResult)
    (question : string) (webSearchEnabled : bool) : string :=
  let documentContext := documentContextOf relevantChunks in
  match webSearchResults, relevantChunks with
  | _ :: _, _ :: _ => combinedPrompt documentContext (webContextOf webSearchResults) question
  | _ :: _, [] => webOnlyPrompt (webContextOf webSearchResults) question
  | [], _ => documentOnlyPrompt documentContext question webSearchEnabled
  end.

(** [Math.round(x * 100) / 100]. *)
Definition round2 (x : float) : float := (Math_round (x * 100) / 100)%float.

Definition toSource (chunk : Candidate) : Source :=
  {| src_filename := c_filename chunk; src_fileType := c_fileType chunk;
     src_similarity := round2 (c_similarity chunk) |}.

Definition toWebRef (result : WebResult) : WebRef :=
  {| ref_title := wr_title result; ref_source := wr_source result;
     ref_url := wr_link result |}.

(** The response of lines 502-515. *)
Definition shapeResponse (text : string) (relevantChunks : list Candidate)
    (webSearchResults : list WebResult) (webSearchEnabled : bool) : Answer :=
  {| answer := text;
     sources := map toSource relevantChunks;
     webResults := map toWebRef webSearchResults;
     webSearchEnabled := Some webSearchEnabled;
     error := None |}.

Definition canned (text : string) : Answer :=
  {| answer := text; sources := []; webResults := [];
     webSearchEnabled := None; error := None |}.

(** The three answers of lines 409-427, when there is nothing to answer from. *)
Definition noContentResponse (webSearchEnabled isWebSearchRequested : bool) (totalDocs : Z)
    : Answer :=
  if negb webSearchEnabled && isWebSearchRequested then
    canned "Web search is currently disabled. I can only answer questions based on your uploaded documents. To enable web search, please toggle the 'Web Search' button in the chat header."
  else if (totalDocs =? 0)%Z then
    canned ("I don't have any uploaded documents to reference. Please upload some documents first (PDF, TXT, or DOCX files) so I can provide helpful answers"
            +:+ (if webSearchEnabled then " and perform relevant web searches" else "") +:+ ".")
  else
    canned ("I found " +:+ pretty totalDocs +:+ " uploaded document(s), but I couldn't find content directly relevant to your question. Try asking more specific questions about your documents"
            +:+ (if webSearchEnabled then ", or use web search for external information" else "") +:+ ".").

(** The answer of the [catch] branch of [generateAnswer]. *)
Definition apology : Answer :=
  {| answer := "I apologize, but I encountered an error while generating a response. Please try asking your question again, or rephrase it differently.";
     sources := []; webResults := [];
     webSearchEnabled := None; error := Some true |}.

(** What [generateAnswer] returns: the parsed cache entry, or a
    response object it built. *)
Inductive Reply :=
| Parsed (v : JsValue)
| Built (a : Answer).

(** The web search of lines 362-400; a failure leaves no result. *)
Definition webSearchFor (question : string) (relevantChunks : list Candidate)
    (isWebSearchRequested webSearchEnabled : bool) : M (list WebResult) :=
  if isWebSearchRequested && webSearchEnabled then
    match relevantChunks with
    | top :: _ =>
        try_catch
          (let searchTerms := extractSearchTerms (c_text top) question in
           searchWeb searchTerms 4)
          (fun _ => ret [])
    | [] =>
        try_catch
          (let searchTerms := directSearchTerms question in
           searchWeb searchTerms 4)
          (fun _ => ret [])
    end
  else ret [].

(** Lines 340-525: the pipeline after a cache miss. *)
Definition answerFresh (cacheKey question : string) (webSearchEnabled : bool) : M Answer :=
  let* relevantChunks := retrieveRelevantChunks question 3 in
  let isWebSearchRequested := isWebSearchRequest question in
  let* webSearchResults :=
    webSearchFor question relevantChunks isWebSearchRequested webSearchEnabled in
  let* response :=
    match relevantChunks, webSearchResults with
    | [], [] =>
        let* totalDocs := Document_count_completed in
        ret (noContentResponse webSearchEnabled isWebSearchRequested totalDocs)
    | _, _ =>
        let prompt := promptFor relevantChunks webSearchResults question webSearchEnabled in
        let* text := model_generateContent prompt in
        ret (shapeResponse text relevantChunks webSearchResults webSearchEnabled)
    end in
  let cacheTime := match webSearchResults with [] => 3600%Z | _ => 1800%Z end in
  let* _ := redis_setEx cacheKey cacheTime (JSON_stringify response) in
  ret response.

(** The [try] block of [generateAnswer]. *)
Definition generateAnswer_body (question roomId : string) (webSearchEnabled : bool)
    : M Reply :=
  let cacheKey := answerCacheKey roomId question webSearchEnabled in
  let* cachedAnswer := redis_get cacheKey in
  match cachedAnswer with
  | Some cached =>
      if truthy cached then
        match JSON_parse cached with
        | Some v => ret (Parsed v)
        | None => throw "SyntaxError"
        end
      else
        let* response := answerFresh cacheKey question webSearchEnabled in
        ret (Built response)
  | None =>
      let* response := answerFresh cacheKey question webSearchEnabled in
      ret (Built response)
  end.

(** What a cache hit on the text [cached] makes [generateAnswer]
    return: [JSON.parse(cached)], and the apology when it does not parse. *)
Definition replyFromCache (cached : string) : Reply :=
  match JSON_parse cached with
  | Some v => Parsed v
  | None => Built apology
  end.

(** [generateAnswer(question, roomId, webSearchEnabled)]. *)
Definition generateAnswer (question roomId : string) (webSearchEnabled : bool) : M Reply :=
  try_catch (generateAnswer_body question roomId webSearchEnabled)
            (fun _ => ret (Built apology)).

(** *** Cache invalidation *)

(** [cached && cached.includes(documentId)], for the keys of [answerKeys]. *)
Definition collectRelated (documentId : string) (key : string)
    (relatedAnswerKeys : list string) : M (list string) :=
  let* cached := redis_get key in
  match cached with
  | Some c =>
      if truthy c && includes c documentId
      then ret (relatedAnswerKeys ++ [key])
      else ret relatedAnswerKeys
  | None => ret relatedAnswerKeys
  end.

(** [deleteDocumentFromCache(documentId)]. *)
Definition deleteDocumentFromCache (documentId : string) : M unit :=
  try_catch
    (let* keys := redis_keys ("doc:" +:+ documentId +:+ ":*") in
     let* _ := match keys with [] => ret tt | _ => redis_del keys end in
     let* answerKeys := redis_keys "answer:*" in
     let* relatedAnswerKeys := forM answerKeys (collectRelated documentId) [] in
     match relatedAnswerKeys with
     | [] => ret tt
     | _ => redis_del relatedAnswerKeys
     end)
    (fun _ => ret tt).

(** The [deleteDocument] controller: the HTTP status it answers with.
    An exception goes to the error middleware. *)
Definition deleteDocument (id : string) : M Z :=
  let* document := Document_findById id in
  match document with
  | None => ret 404%Z
  | Some _ =>
      let* _ := Document_findByIdAndDelete id in
      let* _ := try_catch (deleteDocumentFromCache id) (fun _ => ret tt) in
      ret 200%Z
  end.

End Service.

Arguments Parsed {JsValue} v.
Arguments Built {JsValue} a.

(* ================================================================== *)
(** ** The design document's wording, for comparison with the code *)
(* ================================================================== *)

(** The polynomial hash [h = h * 31 + charCode], unbounded. *)
Fixpoint polyHash_from (str : string) (h : Z) : Z :=
  match str with
  | EmptyString => h
  | String c str' => polyHash_from str' (h * 31 + charCode c)
  end.

Definition polyHash (str : string) : Z := polyHash_from str 0.

(** The design document's hash: the polynomial hash wrapped to 32 bits. *)
Definition spec_hash (text : string) : Z := toInt32 (polyHash text).

(** The design document's embedding: the components on [spec_hash]. *)
Definition spec_embedding (Math_sin Math_cos : float -> float) (text : string)
    : list float :=
  let h := spec_hash text in
  map (fun i : nat =>
         (Math_sin (ofZ (h + Z.of_nat i)) * 0.1
          + Math_cos (ofZ (2 * h + Z.of_nat i)) * 0.05)%float)
      (seq 0 EMBEDDING_DIM).

(** The hash the code feeds to the components. *)
Definition code_hash (text : string) : Z := Z.abs (toInt32 (polyHash text)).




(** A number of hundredths. *)
Definition hundredth (y : float) : Prop := exists n : Z, y = (ofZ n / 100)%float.

(** A computation that leaves the entry [e] under the key [k], and
    whose result, when it returns one, satisfies [Q]. *)
Definition keeps (k : string) (e : RedisEntry) {A} (m : M A) (Q : A -> Prop) : Prop :=
  forall w : World,
    redis w !! k = Some e ->
    redis (snd (m w)) !! k = Some e /\ (forall a, fst (m w) = Ok a -> Q a).

(** A computation that adds no key to the cache store. *)
Definition shrinks {A} (m : M A) : Prop :=
  forall (w : World) (k : string), redis w !! k = None -> redis (snd (m w)) !! k = None.

(* ================================================================== *)
(** ** Concrete collaborators and worlds for the examples *)
(* ================================================================== *)

Module Demo.

Definition noFault : nat -> bool := fun _ => false.

(** A generation collaborator that always answers. *)
Definition llm_ok : nat -> string -> option string := fun _ _ => Some "The total is $450.".

(** A generation collaborator that fails until the fourth call of the
    run, and answers afterwards. *)
Definition llm_flaky : nat -> string -> option string :=
  fun t _ => if (t <? 4)%nat then None else Some "The total is $450.".

Definition noSearch : nat -> string -> Z -> option (option (list Organic)) :=
  fun _ _ _ => None.

Definition weather : Organic :=
  {| org_title := "Weather today"; org_link := "https://www.weather.example/today";
     org_snippet := "Sunny." |}.

(** A search API that returns the same result five times. *)
Definition searchRepeats : nat -> string -> Z -> option (option (list Organic)) :=
  fun _ _ _ => Some (Some [weather; weather; weather; weather; weather]).

(** [new URL(url).hostname] on the one link of the examples; any other
    text is taken not to be a URL. *)
Definition hostname : string -> option string :=
  fun url =>
    if String.eqb url "https://www.weather.example/today"
    then Some "www.weather.example" else None.

(** [JSON.parse] that keeps the text it is given. *)
Definition parse : string -> option string := Some.

Definition linear : float -> float := fun x => x.

Definition invoiceId : string := "64b7f0c2a1d3e4f5a6b7c8d9".

(** A short text document: one chunk. *)
Definition invoice : Document :=
  {| doc_id := invoiceId; filename := "1700000000-invoice.txt";
     originalName := "invoice.txt";
     content := "The invoice total is $450.";
     chunks := [ {| chunk_text := "The invoice total is $450."; chunk_index := 0 |} ];
     fileType := ".txt"; fileSize := 26; status := completed |}.

(** A text document of two chunks. *)
Definition handbook : Document :=
  {| doc_id := "64b7f0c2a1d3e4f5a6b7c8db"; filename := "1700000002-handbook.txt";
     originalName := "handbook.txt";
     content := "Invoices are paid within thirty days. Late invoices carry a fee.";
     chunks := [ {| chunk_text := "Invoices are paid within thirty days."; chunk_index := 0 |};
                 {| chunk_text := "Late invoices carry a fee."; chunk_index := 1 |} ];
     fileType := ".txt"; fileSize := 64; status := completed |}.

(** A PDF, kept as one chunk. *)
Definition report : Document :=
  {| doc_id := "64b7f0c2a1d3e4f5a6b7c8da"; filename := "1700000001-report.pdf";
     originalName := "report.pdf";
     content := "Quarterly figures.";
     chunks := [ {| chunk_text := "Quarterly figures."; chunk_index := 0 |} ];
     fileType := ".pdf"; fileSize := 18; status := completed |}.

Definition world_with (docs : list Document) : World :=
  {| redis := ∅; documents := docs; clock := 0; prompts := []; searches := [] |}.

Definition world0 : World := world_with [invoice].

Definition question : string := "What is the invoice total?".

Definition tab : string := String (ascii_of_nat 9) EmptyString.

(** A question in room1 with the web search disabled. *)
Definition ask (llm : nat -> string -> option string) (q : string) (w : World)
    : Result (@Reply string) * World :=
  generateAnswer noFault llm false noSearch hostname string parse linear linear
    q "room1" false w.

(** A question in room1 with the web search configured and enabled. *)
Definition askWeb (q : string) (w : World) : Result (@Reply string) * World :=
  generateAnswer noFault llm_ok true searchRepeats hostname string parse linear linear
    q "room1" true w.

(** The answer to [question] on [world0], with [llm_ok]. *)
Definition expected : Answer :=
  {| answer := "The total is $450.";
     sources := [ {| src_filename := "invoice.txt"; src_fileType := ".txt";
                     src_similarity := 0.35 |} ];
     webResults := [];
     webSearchEnabled := Some false;
     error := None |}.

(** The answer to "How are invoices paid?" on the handbook. *)
Definition expected_handbook : Answer :=
  {| answer := "The total is $450.";
     sources := [ {| src_filename := "handbook.txt"; src_fileType := ".txt";
                     src_similarity := 0.35 |};
                  {| src_filename := "handbook.txt"; src_fileType := ".txt";
                     src_similarity := 0.18 |} ];
     webResults := [];
     webSearchEnabled := Some false;
     error := None |}.

Definition weatherRef : WebRef :=
  {| ref_title := "Weather today"; ref_source := "weather.example";
     ref_url := "https://www.weather.example/today" |}.

(** Three questions that agree on their first 37 characters. The 38th
    is [t] (0x74), [p] (0x70) and [d] (0x64). *)
Definition aboutTaxes : string := "What did the auditors conclude about taxes?".
Definition aboutPensions : string := "What did the auditors conclude about pensions?".
Definition aboutDebts : string := "What did the auditors conclude about debts?".

(** A run: the invoice is cached passage by passage, the question is
    asked, and the document is deleted. *)
Definition w_cached : World :=
  snd (generateAndCacheEmbeddings noFault linear linear invoiceId (chunks invoice)
         "invoice.txt" world0).

Definition w_answered : World := snd (ask llm_ok question w_cached).

Definition w_deleted : World := snd (deleteDocument noFault invoiceId w_answered).

End Demo.

(* ================================================================== *)
(** ** Specifications of runs *)
(* ================================================================== *)

(** A run of [m] from a world that satisfies [P] ends, when it returns
    [a], in a world that satisfies [Q a], and when it throws, in a world
    that satisfies [E]. *)
Definition triple {A} (P : World -> Prop) (m : M A) (Q : A -> World -> Prop)
    (E : World -> Prop) : Prop :=
  forall w : World,
    P w -> match m w with
           | (Ok a, w') => Q a w'
           | (Throw _, w') => E w'
           end.

(** Only the clock has moved between [w] and [w']. *)
Definition sameStores (w w' : World) : Prop :=
  redis w' = redis w /\ documents w' = documents w
  /\ prompts w' = prompts w /\ searches w' = searches w.

(** The passage [c] names the document [d]. *)
Definition citesDocument (c : Candidate) (d : Document) : Prop :=
  c_docId c = doc_id d /\ c_filename c = originalName d /\ c_fileType c = fileType d.

(** The text [text] is the text of a chunk of the document [d], or the
    text of a Passage Cache entry of [store] under a key of [d]. *)
Definition passageOf (store : gmap string RedisEntry) (d : Document) (text : string)
    : Prop :=
  (exists chunk, In chunk (chunks d) /\ text = chunk_text chunk)
  \/ (exists i h t,
        store !! chunkKey (doc_id d) i = Some {| value := RHash h; ttl := t |}
        /\ text = ph_text h).

(** The passage [c] names a completed document of the world [w] and
    carries a passage of it. *)
Definition fromCompleted (w : World) (c : Candidate) : Prop :=
  exists d, In d (documents w) /\ status d = completed /\ citesDocument c d
            /\ passageOf (redis w) d (c_text c).

(** The query that [generateAnswer] sends to the web search: lines
    369-372 with a passage, lines 386-389 without. *)
Definition searchTermsFor (question : string) (relevantChunks : list Candidate) : string :=
  match relevantChunks with
  | top :: _ => extractSearchTerms (c_text top) question
  | [] => directSearchTerms question
  end.

(** The Answer Cache entry that [generateAnswer] writes for a response. *)
Definition answerEntry (response : Answer) : RedisEntry :=
  {| value := RString (JSON_stringify response);
     ttl := Some (match webResults response with [] => 3600%Z | _ => 1800%Z end) |}.

(** *** Document ids *)

Definition isLowerHex (c : ascii) : bool :=
  let n := charCode c in
  ((48 <=? n) && (n <=? 57) || (97 <=? n) && (n <=? 102))%Z.

(** The text of an [ObjectId], as a template literal prints
    [document._id]: 24 hexadecimal digits, in lower case. *)
Definition isObjectId (s : string) : bool :=
  (String.length s =? 24)%nat && forallb isLowerHex (list_ascii_of_string s).

Fixpoint colonFree (s : string) : bool :=
  match s with
  | EmptyString => true
  | String c s' => negb (Ascii.eqb c ":") && colonFree s'
  end.

(** Between [w] and [w'] cache entries were deleted at most: the cache
    of [w'] holds only entries that the cache of [w] holds, and the
    document store, the prompts and the searches are the same. *)
Definition onlyEvicted (w w' : World) : Prop :=
  redis w' ⊆ redis w /\ documents w' = documents w
  /\ prompts w' = prompts w /\ searches w' = searches w.

(** The document store, the prompts and the searches of [w'] are those
    of [w]. *)
Definition sameDocuments (w w' : World) : Prop :=
  documents w' = documents w /\ prompts w' = prompts w /\ searches w' = searches w.

(** A text without a space character. *)
Fixpoint spaceFree (s : string) : bool :=
  match s with
  | EmptyString => true
  | String c s' => negb (Ascii.eqb c " ") && spaceFree s'
  end.

(** The Passage Cache entry that [generateAndCacheEmbeddings] writes for
    a chunk: the hash of lines 174-179, to expire after 24 hours. *)
Definition passageEntry (Math_sin Math_cos : float -> float) (documentId fname : string)
    (chunk : Chunk) : RedisEntry :=
  {| value := RHash {| ph_text := chunk_text chunk;
                       ph_embedding := generateEmbedding Math_sin Math_cos (chunk_text chunk);
                       ph_docId := documentId; ph_filename := fname |};
     ttl := Some 86400%Z |}.

(* ================================================================== *)
(** ** Processing a document *)
(* ================================================================== *)

Definition set_status (s : Status) (d : Document) : Document :=
  {| doc_id := doc_id d; filename := filename d; originalName := originalName d;
     content := content d; chunks := chunks d; fileType := fileType d;
     fileSize := fileSize d; status := s |}.

(** The validation of the schema of [Document] (models/Document.js): the
    required texts are not empty, Mongoose's [required] refusing the
    empty string, and the file type is one of the enumeration. *)
Definition isValidDocument (d : Document) : bool :=
  truthy (filename d) && truthy (originalName d) && truthy (content d)
  && forallb (fun c => truthy (chunk_text c)) (chunks d)
  && existsb (String.eqb (fileType d)) [".pdf"; ".txt"; ".docx"].

Section Processing.

Variable fault : nat -> bool.
Variables Math_sin Math_cos : float -> float.
(** [new Document(...)] gives the document its [ObjectId]: the id given
    when [n] calls have been made. *)
Variable newObjectId : nat -> string.

(** [document.save()] on a new document: the validation, then the
    insertion, which the unique indexes on [_id] and on [filename]
    refuse for a value that a stored document has. *)
Definition Document_insert (d : Document) : M unit :=
  if negb (isValidDocument d) then throw "ValidationError"
  else
    store_call fault "mongo" (fun w =>
      if existsb (fun d' => String.eqb (doc_id d') (doc_id d)
                            || String.eqb (filename d') (filename d)) (documents w)
      then (Throw "E11000 duplicate key error", w)
      else (Ok tt, set_documents (fun l => l ++ [d]) w)).

(** [document.status = s; await document.save()] on a stored document. *)
Definition Document_saveStatus (id : string) (s : Status) : M unit :=
  store_call fault "mongo" (fun w =>
    if existsb (fun d => String.eqb (doc_id d) id) (documents w)
    then (Ok tt,
          set_documents
            (map (fun d => if String.eqb (doc_id d) id then set_status s d else d)) w)
    else (Throw "DocumentNotFoundError", w)).

(** What [processDocument] stores first: the document, still processing. *)
Definition newDocument (id fname oname text : string) (chunks : list Chunk)
    (ftype : string) (fsize : Z) : Document :=
  {| doc_id := id; filename := fname; originalName := oname; content := text;
     chunks := chunks; fileType := ftype; fileSize := fsize; status := processing |}.

(** [processDocument(filename, originalName, content, fileType, fileSize)].
    The chunking comes first and is not awaited: [None] when its loop is
    not left within the fuel, and then nothing else has happened. *)
Definition processDocument (fuel : nat) (fname oname text ftype : string) (fsize : Z)
    : option (M Document) :=
  let chunked :=
    if String.eqb ftype ".pdf" then Some [{| chunk_text := text; chunk_index := 0 |}]
    else chunkDocument_fuel fuel text DEFAULT_CHUNK_SIZE DEFAULT_OVERLAP in
  match chunked with
  | None => None
  | Some chunks =>
      Some (fun w =>
        let document := newDocument (newObjectId (clock w)) fname oname text chunks
                          ftype fsize in
        (let* _ := Document_insert document in
         let* _ :=
           if negb (String.eqb ftype ".pdf") then
             try_catch
               (generateAndCacheEmbeddings fault Math_sin Math_cos (doc_id document)
                  chunks oname)
               (fun _ => ret tt)
           else ret tt in
         let* _ := Document_saveStatus (doc_id document) completed in
         ret (set_status completed document)) w)
  end.

(** The [reprocessDocument] controller: the HTTP status it answers
    with, or [None] when the chunking does not return. An exception goes
    to the error middleware. *)
Definition reprocessDocument (fuel : nat) (id : string) : M (option Z) :=
  let* found := Document_findById fault id in
  match found with
  | None => ret (Some 404%Z)
  | Some document =>
      match status document with
      | processing => ret (Some 400%Z)
      | _ =>
          try_catch
            (let* _ := Document_saveStatus (doc_id document) processing in
             let* _ := deleteDocumentFromCache fault id in
             match
               processDocument fuel (filename document) (originalName document)
                 (content document) (fileType document) (fileSize document)
             with
             | None => ret None
             | Some process => let* updatedDocument := process in ret (Some 200%Z)
             end)
            (fun _ =>
               let* _ := Document_saveStatus (doc_id document) failed in
               ret (Some 500%Z))
      end
  end.

End Processing.

(* ================================================================== *)
(** ** utils/helpers.js *)
(* ================================================================== *)

(** The class [[a-z0-9.-]] of [sanitizeFilename], read without case. *)
Definition isFilenameChar (c : ascii) : bool :=
  let n := charCode c in
  ((97 <=? n) && (n <=? 122) || (65 <=? n) && (n <=? 90)
   || (48 <=? n) && (n <=? 57) || (n =? 46) || (n =? 45))%Z.

(** [sanitizeFilename(filename)]. *)
Definition sanitizeFilename (filename : string) : string :=
  toLowerCase (replaceChars (fun c => negb (isFilenameChar c)) "_" filename).

(** [s.replace(/[...]+/g, rep)] for a character class given as a test:
    each maximal run of characters of the class becomes [rep]; [inRun]
    tells that the character before was of the class. *)
Fixpoint replaceRuns (cls : ascii -> bool) (rep : string) (inRun : bool) (s : string)
    : string :=
  match s with
  | EmptyString => EmptyString
  | String c s' =>
      if cls c then
        if inRun then replaceRuns cls rep true s'
        else rep +:+ replaceRuns cls rep true s'
      else String c (replaceRuns cls rep false s')
  end.

Definition isLineFeed (c : ascii) : bool := Ascii.eqb c (ascii_of_nat 10).

(** [cleanText(text)]. *)
Definition cleanText (text : string) : string :=
  trim (replaceRuns isLineFeed (String (ascii_of_nat 10) EmptyString) false
          (replaceRuns isWhiteSpace " " false text)).

(** The state of a limiter made by [createRateLimiter]: the [Map] from
    an identifier to the times of its requests. *)
Abbreviation Requests := (gmap string (list Z)).

(** One call of the function that [createRateLimiter(windowMs,
    maxRequests)] returns, at the time [now]: whether the request is
    allowed, and the state after it. *)
Definition rateLimiter (windowMs maxRequests : Z) (now : Z) (identifier : string)
    (requests : Requests) : bool * Requests :=
  let windowStart := (now - windowMs)%Z in
  let requests :=
    match requests !! identifier with
    | None => <[identifier := []]> requests
    | Some _ => requests
    end in
  let userRequests := default [] (requests !! identifier) in
  let validRequests := List.filter (fun time => (windowStart <? time)%Z) userRequests in
  if (maxRequests <=? Z.of_nat (length validRequests))%Z then (false, requests)
  else (true, <[identifier := validRequests ++ [now]]> requests).

(** A run of a limiter over requests given with their times, from a
    state: the answers, in order, and the state at the end. *)
Fixpoint rateLimiter_run (windowMs maxRequests : Z) (calls : list (Z * string))
    (requests : Requests) : list bool * Requests :=
  match calls with
  | [] => ([], requests)
  | (now, identifier) :: calls' =>
      let '(allowed, requests') :=
        rateLimiter windowMs maxRequests now identifier requests in
      let '(answers, final) := rateLimiter_run windowMs maxRequests calls' requests' in
      (allowed :: answers, final)
  end.

(** [retryWithBackoff(fn, maxRetries, baseDelay)], for an integer
    [maxRetries]. The [k]-th call of [fn] gives [fn k]; the result is what the function returns
    ([None] for [undefined], when the loop ends without a call) or
    throws, with the delays slept, latest first. [todo] counts the
    iterations left and [i] is the loop variable. *)
Fixpoint retry_loop {A} (fn : nat -> Result A) (maxRetries baseDelay : Z)
    (todo i : nat) (delays : list Z) : Result (option A) * list Z :=
  match todo with
  | O => (Ok None, delays)
  | S todo' =>
      match fn i with
      | Ok a => (Ok (Some a), delays)
      | Throw e =>
          if (Z.of_nat i =? maxRetries - 1)%Z then (Throw e, delays)
          else retry_loop fn maxRetries baseDelay todo' (S i)
                 ((baseDelay * 2 ^ Z.of_nat i)%Z :: delays)
      end
  end.

Definition retryWithBackoff {A} (fn : nat -> Result A) (maxRetries baseDelay : Z)
    : Result (option A) * list Z :=
  retry_loop fn maxRetries baseDelay (Z.to_nat maxRetries) 0 [].

(** The number of requests of [identifier], among the requests of
    [history] given with their times and answers, that were allowed and
    made after [windowStart]. *)
Definition allowedSince (windowStart : Z) (identifier : string)
    (history : list (Z * string * bool)) : nat :=
  length (List.filter
            (fun '(time, id, allowed) =>
               allowed && String.eqb id identifier && (windowStart <? time)%Z)
            history).

(** What the state of a limiter knows of the requests made so far: for
    every identifier and every window that starts at [lo] or later, the
    times it holds in the window are as many as the allowed requests of
    the window. *)
Definition tracks (lo : Z) (history : list (Z * string * bool)) (requests : Requests)
    : Prop :=
  forall (identifier : string) (ws : Z),
    (lo <= ws)%Z ->
    length (List.filter (fun time => (ws <? time)%Z) (default [] (requests !! identifier)))
    = allowedSince ws identifier history.

(** Requests given in the order of their times. *)
Fixpoint inTimeOrder (calls : list (Z * string)) : bool :=
  match calls with
  | [] => true
  | (now, _) :: calls' =>
      match calls' with
      | [] => true
      | (next, _) :: _ => (now <=? next)%Z && inTimeOrder calls'
      end
  end.

(** The characters that [sanitizeFilename] lets through or puts in:
    [a-z], [0-9], the dot, the hyphen and the underscore. *)
Definition isSanitizedChar (c : ascii) : bool :=
  let n := charCode c in
  ((97 <=? n) && (n <=? 122) || (48 <=? n) && (n <=? 57)
   || (n =? 46) || (n =? 45) || (n =? 95))%Z.

(** A text whose only white space is single space characters: [prev]
    tells that the character before was a space. *)
Fixpoint singleSpaced (prev : bool) (s : string) : bool :=
  match s with
  | EmptyString => true
  | String c s' =>
      if isWhiteSpace c then Ascii.eqb c " " && negb prev && singleSpaced true s'
      else singleSpaced false s'
  end.

(** The characters of a text that are not white space, in order. *)
Definition inkOf (s : string) : list ascii :=
  List.filter (fun c => negb (isWhiteSpace c)) (list_ascii_of_string s).

(** The value of a character of the base64 alphabet; 64 for any other
    character, the padding [=] among them. *)
Definition b64value (c : ascii) : Z :=
  let n := charCode c in
  if ((65 <=? n) && (n <=? 90))%Z then (n - 65)%Z
  else if ((97 <=? n) && (n <=? 122))%Z then (n - 71)%Z
  else if ((48 <=? n) && (n <=? 57))%Z then (n + 4)%Z
  else if (n =? 43)%Z then 62%Z
  else if (n =? 47)%Z then 63%Z
  else 64%Z.

(* ================================================================== *)
(** ** The order of the retrieved passages *)
(* ================================================================== *)

(** The value of the comparator of line 307 on [(a, b)]. *)
Definition comparefn (a b : Candidate) : float :=
  (c_similarity b - c_similarity a)%float.

(** The relations [a >CF b] and [a =CF b] of ECMA-262 for this
    comparator: its value on [(a, b)] is above 0, is 0. The relation
    [a <CF b], its value is below 0, is [goesBefore a b]. *)
Definition goesAfter (a b : Candidate) : bool := PrimFloat.ltb 0 (comparefn a b).

Definition tiedWith (a b : Candidate) : bool := PrimFloat.eqb (comparefn a b) 0.

(** The comparator is a consistent comparison function for the passages
    of [l], in the words of ECMA-262 ([Array.prototype.sort]): its value
    on two passages of [l] is never [NaN], and for all [a], [b], [c] of
    [l], [a =CF a]; [a =CF b] gives [b =CF a]; and each of [=CF], [<CF]
    and [>CF] is transitive. Only then does the language fix the order
    that [sort] leaves; on other lists the order is left to the engine.
    A list with a score that is [NaN] is not consistent, and a list with
    two scores that are the same infinity is not. *)
Definition consistentComparator (l : list Candidate) : bool :=
  forallb (fun a =>
    tiedWith a a
    && forallb (fun b =>
         negb (PrimFloat.is_nan (comparefn a b))
         && implb (tiedWith a b) (tiedWith b a)
         && forallb (fun c =>
              implb (tiedWith a b && tiedWith b c) (tiedWith a c)
              && implb (goesBefore a b && goesBefore b c) (goesBefore a c)
              && implb (goesAfter a b && goesAfter b c) (goesAfter a c))
            l)
       l)
    l.

(* ================================================================== *)
(** ** The Answer Cache key on all strings of JavaScript *)
(* ================================================================== *)

(** A string in full is the list of its UTF-16 code units, each from 0
    to 65535. The code units of a [string] of this development: *)
Definition units (s : string) : list Z := map charCode (list_ascii_of_string s).

Definition isCodeUnit (u : Z) : bool := (0 <=? u)%Z && (u <? 65536)%Z.

Definition isLeadSurrogate (u : Z) : bool := (0xD800 <=? u)%Z && (u <=? 0xDBFF)%Z.

Definition isTrailSurrogate (u : Z) : bool := (0xDC00 <=? u)%Z && (u <=? 0xDFFF)%Z.

(** [str.isWellFormed()]: code units with no lone surrogate. *)
Fixpoint isWellFormed (str : list Z) : bool :=
  match str with
  | [] => true
  | u :: rest =>
      isCodeUnit u
      && if isLeadSurrogate u then
           match rest with
           | v :: rest' => isTrailSurrogate v && isWellFormed rest'
           | [] => false
           end
         else negb (isTrailSurrogate u) && isWellFormed rest
  end.

(** The code points that [Buffer.from(str)] encodes: a surrogate pair is
    one code point, and a lone surrogate is replaced by U+FFFD. *)
Fixpoint codePoints (str : list Z) : list Z :=
  match str with
  | [] => []
  | u :: rest =>
      if isLeadSurrogate u then
        match rest with
        | v :: rest' =>
            if isTrailSurrogate v
            then (0x10000 + (u - 0xD800) * 0x400 + (v - 0xDC00))%Z :: codePoints rest'
            else 0xFFFD%Z :: codePoints rest
        | [] => [0xFFFD%Z]
        end
      else if isTrailSurrogate u then 0xFFFD%Z :: codePoints rest
      else u :: codePoints rest
  end.

(** The UTF-8 bytes of a code point. *)
Definition utf8Bytes (cp : Z) : list Z :=
  if (cp <? 0x80)%Z then [cp]
  else if (cp <? 0x800)%Z then [0xC0 + cp / 64; 0x80 + cp mod 64]%Z
  else if (cp <? 0x10000)%Z
  then [0xE0 + cp / 4096; 0x80 + cp / 64 mod 64; 0x80 + cp mod 64]%Z
  else [0xF0 + cp / 262144; 0x80 + cp / 4096 mod 64; 0x80 + cp / 64 mod 64;
        0x80 + cp mod 64]%Z.

(** [Buffer.from(str)], on every string. *)
Definition Buffer_from (str : list Z) : list Z := flat_map utf8Bytes (codePoints str).

(** The key of line 333, as code units, for a room and a question of
    any code units. *)
Definition answerCacheKeyOf (roomId question : list Z) (webSearchEnabled : bool)
    : list Z :=
  units "answer:" ++ roomId ++ units ":"
  ++ units (substring0 50 (base64 (Buffer_from question)))
  ++ units ":ws" ++ units (JSON_bool webSearchEnabled).

(* ================================================================== *)
(** ** More concrete worlds for the examples *)
(* ================================================================== *)

Module Demo2.

Import Demo.

Definition handbookId : string := "64b7f0c2a1d3e4f5a6b7c8db".

(** The store with the invoice and the handbook, the passages of both
    cached. *)
Definition w_both : World :=
  snd (generateAndCacheEmbeddings noFault linear linear handbookId (chunks handbook)
         "handbook.txt"
         (snd (generateAndCacheEmbeddings noFault linear linear invoiceId (chunks invoice)
                 "invoice.txt" (world_with [invoice; handbook])))).

(** The second passage of the handbook, as cached. *)
Definition handbookPassage : PassageHash :=
  {| ph_text := "Late invoices carry a fee.";
     ph_embedding := generateEmbedding linear linear "Late invoices carry a fee.";
     ph_docId := handbookId; ph_filename := "handbook.txt" |}.

Definition reportId : string := "64b7f0c2a1d3e4f5a6b7c8da".

(** An id generator that gives one id. *)
Definition nextId (id : string) : nat -> string := fun _ => id.

(** The world after the question on the invoice, asked with no passage
    cached. *)
Definition w_answered0 : World := snd (ask llm_ok question world0).

(** A function that fails twice and then succeeds. *)
Definition flaky : nat -> Result string :=
  fun k => if (k <? 2)%nat then Throw "ECONNRESET" else Ok "done".

(** The answer to [question] when the passage of the invoice is
    cached: the score is the cosine of the embeddings. *)
Definition expected_cached : Answer :=
  {| answer := "The total is $450.";
     sources := [ {| src_filename := "invoice.txt"; src_fileType := ".txt";
                     src_similarity := 1 |} ];
     webResults := [];
     webSearchEnabled := Some false;
     error := None |}.

(** Requests to a limiter: four by [ann], one by [bob]. *)
Definition requestsOfAnn : list (Z * string) :=
  [ (0, "ann"); (100, "ann"); (200, "ann"); (300, "bob"); (1050, "ann") ]%Z.

(** Four passages with the scores 0.35, 0.9, 0.18 and 0.35. *)
Definition scored : list Candidate :=
  [ candidate "a" 0.35 invoice; candidate "b" 0.9 handbook; candidate "c" 0.18 report;
    candidate "d" 0.35 handbook ].

(** Three passages, the second with a score that is not a number. *)
Definition scoredNaN : list Candidate :=
  [ candidate "a" 0.5 invoice; candidate "b" PrimFloat.nan handbook;
    candidate "c" 1 report ].

End Demo2.

(* ================================================================== *)
(** ** Strings: lengths *)
(* ================================================================== *)

Lemma length_trimStart (s : string) : (String.length (trimStart s) <= String.length s)%nat.
Proof.
  induction s as [|c s IH]; simpl; [lia|].
  destruct (isWhiteSpace c); simpl; lia.
Qed.

Lemma length_trimEnd (s : string) : (String.length (trimEnd s) <= String.length s)%nat.
Proof.
  induction s as [|c s IH]; simpl; [lia|].
  destruct (trimEnd s) as [|d t]; simpl in *.
  - destruct (isWhiteSpace c); simpl; lia.
  - lia.
Qed.

Lemma len_trim (s : string) : (len (trim s) <= len s)%Z.
Proof.
  unfold len, trim.
  pose proof (length_trimEnd (trimStart s)). pose proof (length_trimStart s). lia.
Qed.

Lemma length_substring_le (n m : nat) (s : string) :
  (String.length (String.substring n m s) <= String.length s - n)%nat.
Proof.
  revert n m; induction s as [|c s IH]; intros n m.
  - destruct n, m; simpl; lia.
  - destruct n as [|n]; simpl.
    + destruct m as [|m]; simpl; [lia|]. specialize (IH 0%nat m). lia.
    + apply IH.
Qed.

Lemma len_slice (s : string) (b e : Z) :
  (b <= len s -> len (slice s b e) <= len s - b)%Z.
Proof.
  intros Hb. unfold slice.
  set (from := if (b <? 0)%Z then Z.max (len s + b) 0 else Z.min b (len s)).
  set (to := if (e <? 0)%Z then Z.max (len s + e) 0 else Z.min e (len s)).
  pose proof (length_substring_le (Z.to_nat from) (Z.to_nat (to - from)) s) as H.
  assert (b <= from /\ 0 <= from)%Z as [? ?].
  { subst from. destruct (Z.ltb_spec b 0); lia. }
  unfold len in *. lia.
Qed.

(** Lower-casing keeps the length of a text of code units below 256. *)
Lemma length_toLowerCase (s : string) : String.length (toLowerCase s) = String.length s.
Proof. induction s as [|c s IH]; [reflexivity|]. cbn. rewrite IH. reflexivity. Qed.

(* ================================================================== *)
(** ** Chunker *)
(* ================================================================== *)

(** The next [start] stays below the length of the text: the chunk is
    cut from [text] at [start], and [overlap] is taken off. *)
Lemma chunk_step_start (text : string) (chunkSize overlap start index : Z)
    (chunks : list Chunk) :
  (start < len text)%Z -> (0 < overlap)%Z ->
  (snd (chunk_step text chunkSize overlap start index chunks) < len text)%Z.
Proof.
  intros Hs Ho. unfold chunk_step.
  set (end_ := Z.min (start + chunkSize) (len text)).
  set (c0 := trim (slice text start end_)).
  assert (H0 : (len c0 <= len text - start)%Z).
  { subst c0. pose proof (len_trim (slice text start end_)).
    pose proof (len_slice text start end_). lia. }
  set (c1 := if (end_ <? len text)%Z then _ else c0).
  assert (H1 : (len c1 <= len text - start)%Z).
  { subst c1. destruct (end_ <? len text)%Z; [|exact H0].
    match goal with |- context [if ?b then _ else _] => destruct b end; [|exact H0].
    match goal with |- (len (trim (slice c0 0 ?e)) <= _)%Z =>
      pose proof (len_trim (slice c0 0 e)); pose proof (len_slice c0 0 e) end.
    unfold len in *. lia. }
  destruct (0 <? len c1)%Z; simpl; lia.
Qed.

Lemma chunk_loop_diverges (fuel : nat) (text : string) (chunkSize overlap : Z) :
  (0 < overlap)%Z ->
  forall start index chunks,
    (start < len text)%Z ->
    chunk_loop fuel text chunkSize overlap start index chunks = None.
Proof.
  intros Ho. induction fuel as [|fuel IH]; intros start index chunks Hs; [reflexivity|].
  simpl. destruct (Z.ltb_spec start (len text)); [|lia].
  pose proof (chunk_step_start text chunkSize overlap start index chunks Hs Ho) as Hn.
  destruct (chunk_step text chunkSize overlap start index chunks) as [[chunks' index'] start'].
  simpl in Hn. destruct (Z.leb_spec (len text) start'); [lia|].
  apply IH. exact H0.
Qed.

(** On a text longer than [chunkSize], with a positive [overlap], the
    loop of [chunkDocument] is never left, whatever the fuel. *)
Lemma chunkDocument_diverges (fuel : nat) (text : string) (chunkSize overlap : Z) :
  (0 <= chunkSize < len text)%Z -> (0 < overlap)%Z ->
  chunkDocument_fuel fuel text chunkSize overlap = None.
Proof.
  intros Hl Ho. unfold chunkDocument_fuel.
  destruct (Z.leb_spec (len text) chunkSize); [lia|].
  apply chunk_loop_diverges; [exact Ho|]. unfold len in *. lia.
Qed.

(** C2 (the code at the failing input). On a text of 801 characters,
    [chunkDocument(text, 800, 150)] does not return a chunk sequence: no
    number of iterations leaves the loop, because the next start,
    [start + chunk.length - overlap], never reaches the length of the
    text. *)
Theorem chunkDocument_801_never_returns :
  forall fuel : nat,
    chunkDocument_fuel fuel (repeatS "x" 801) DEFAULT_CHUNK_SIZE DEFAULT_OVERLAP = None.
Proof.
  intros fuel. apply chunkDocument_diverges.
  - vm_compute. split; [discriminate | reflexivity].
  - vm_compute. reflexivity.
Qed.

(** C7. A text no longer than [chunkSize] gives exactly one chunk, of
    index 0, whose text is the trimmed input. *)
Theorem chunkDocument_short (fuel : nat) (text : string) (chunkSize overlap : Z) :
  (len text <= chunkSize)%Z ->
  chunkDocument_fuel fuel text chunkSize overlap
  = Some [{| chunk_text := trim text; chunk_index := 0 |}].
Proof.
  intros H. unfold chunkDocument_fuel.
  destruct (Z.leb_spec (len text) chunkSize); [reflexivity|lia].
Qed.

Lemma chunkDocument_short_witness :
  (len "  The invoice total is $450. " <= DEFAULT_CHUNK_SIZE)%Z
  /\ chunkDocument_fuel 0 "  The invoice total is $450. " DEFAULT_CHUNK_SIZE DEFAULT_OVERLAP
     = Some [{| chunk_text := "The invoice total is $450."; chunk_index := 0 |}].
Proof.
  split.
  - vm_compute. discriminate.
  - apply (chunkDocument_short 0 "  The invoice total is $450. "
             DEFAULT_CHUNK_SIZE DEFAULT_OVERLAP).
    vm_compute. discriminate.
Defined.

(* ================================================================== *)
(** ** Embedder *)
(* ================================================================== *)

Lemma toInt32_shift (a k : Z) : toInt32 (a + k * 2 ^ 32) = toInt32 a.
Proof.
  unfold toInt32. replace (a + k * 2 ^ 32 + 2 ^ 31)%Z with (a + 2 ^ 31 + k * 2 ^ 32)%Z by ring.
  rewrite Z_mod_plus_full. reflexivity.
Qed.

Lemma toInt32_repr (a : Z) : exists k : Z, toInt32 a = (a + k * 2 ^ 32)%Z.
Proof.
  exists (- ((a + 2 ^ 31) / 2 ^ 32))%Z. unfold toInt32.
  pose proof (Z_div_mod_eq_full (a + 2 ^ 31) (2 ^ 32)) as H. lia.
Qed.

Lemma toInt32_idem (a : Z) : toInt32 (toInt32 a) = toInt32 a.
Proof.
  destruct (toInt32_repr a) as [k Hk].
  transitivity (toInt32 (a + k * 2 ^ 32)); [f_equal; exact Hk | apply toInt32_shift].
Qed.

Lemma and32_diag (a : Z) : and32 a a = toInt32 a.
Proof. unfold and32. rewrite Z.land_diag. apply toInt32_idem. Qed.

(** One round of the loop of [simpleHash] is [h * 31 + charCode],
    wrapped to 32 bits. *)
Lemma simpleHash_round (x c : Z) :
  and32 (shl32 (toInt32 x) 5 - toInt32 x + c) (shl32 (toInt32 x) 5 - toInt32 x + c)
  = toInt32 (x * 31 + c).
Proof.
  rewrite and32_diag. unfold shl32. rewrite toInt32_idem.
  rewrite Z.shiftl_mul_pow2 by lia.
  destruct (toInt32_repr x) as [k ->].
  destruct (toInt32_repr ((x + k * 2 ^ 32) * 2 ^ 5)) as [j ->].
  replace ((x + k * 2 ^ 32) * 2 ^ 5 + j * 2 ^ 32 - (x + k * 2 ^ 32) + c)%Z
    with (x * 31 + c + (31 * k + j) * 2 ^ 32)%Z by ring.
  apply toInt32_shift.
Qed.

Lemma simpleHash_loop_cons (c : ascii) (str : string) (hash : Z) :
  simpleHash_loop (String c str) hash
  = simpleHash_loop str
      (and32 (shl32 hash 5 - hash + charCode c) (shl32 hash 5 - hash + charCode c)).
Proof.
  unfold simpleHash_loop at 1. lazy beta iota zeta. fold simpleHash_loop.
  reflexivity.
Qed.

Lemma simpleHash_loop_poly (str : string) (x : Z) :
  simpleHash_loop str (toInt32 x) = toInt32 (polyHash_from str x).
Proof.
  revert x. induction str as [|c str IH]; intros x; [reflexivity|].
  rewrite simpleHash_loop_cons, simpleHash_round.
  change (polyHash_from (String c str) x) with (polyHash_from str (x * 31 + charCode c)).
  apply IH.
Qed.

(** [simpleHash] is the absolute value of the wrapped polynomial hash. *)
Lemma simpleHash_code_hash (text : string) : simpleHash text = code_hash text.
Proof.
  unfold simpleHash, code_hash, polyHash. destruct text as [|c text]; [reflexivity|].
  cbn [String.length Nat.eqb].
  change 0%Z with (toInt32 0) at 1. rewrite simpleHash_loop_poly. reflexivity.
Qed.

(** C8, as the code has it. [generateEmbedding] is a function of the
    text and of the platform's sine and cosine; it returns 384
    components, and component [i] is
    [sin(h + i) * 0.1 + cos(h * 2 + i) * 0.05], where [h] is the absolute
    value of the polynomial hash [h = h * 31 + charCode] wrapped to a
    signed 32-bit integer. *)
Theorem generateEmbedding_components (Math_sin Math_cos : float -> float) (text : string) :
  length (generateEmbedding Math_sin Math_cos text) = 384%nat
  /\ forall i : nat, (i < 384)%nat ->
       nth i (generateEmbedding Math_sin Math_cos text) 0%float
       = (Math_sin (ofZ (code_hash text + Z.of_nat i)) * 0.1
          + Math_cos (ofZ (code_hash text * 2 + Z.of_nat i)) * 0.05)%float.
Proof.
  unfold generateEmbedding. rewrite simpleHash_code_hash. split.
  - rewrite length_map, length_seq. reflexivity.
  - intros i Hi.
    set (f := fun i0 : nat =>
      (Math_sin (ofZ (code_hash text + Z.of_nat i0)) * 0.1
       + Math_cos (ofZ (code_hash text * 2 + Z.of_nat i0)) * 0.05)%float).
    rewrite (nth_indep (map f (seq 0 EMBEDDING_DIM)) 0%float (f 0%nat))
      by (rewrite length_map, length_seq; exact Hi).
    rewrite map_nth. rewrite seq_nth by exact Hi. reflexivity.
Qed.

(** C8 as stated fails: on the text "What is X?" the polynomial hash
    wraps to a negative number, signed ([-771824287]) and is above 2^31
    unsigned, while the code takes its absolute value; with the identity
    in place of sine and cosine the two vectors differ. *)
Lemma generateEmbedding_not_wrapped_hash :
  spec_hash "What is X?" = (-771824287)%Z
  /\ simpleHash "What is X?" = 771824287%Z
  /\ simpleHash "What is X?" <> (polyHash "What is X?" mod 2 ^ 32)%Z
  /\ generateEmbedding (fun x => x) (fun x => x) "What is X?"
     <> spec_embedding (fun x => x) (fun x => x) "What is X?".
Proof.
  split; [vm_compute; reflexivity|].
  split; [vm_compute; reflexivity|].
  split; [vm_compute; discriminate|].
  intros H.
  apply (f_equal (fun l => PrimFloat.ltb 0 (nth 0 l 0%float))) in H.
  vm_compute in H. discriminate H.
Qed.

(* ================================================================== *)
(** ** Cache keys *)
(* ================================================================== *)

Lemma base64_cons3 (a b c : Z) (rest : list Z) :
  base64 (a :: b :: c :: rest)
  = String (b64char (a / 4)) (String (b64char (a mod 4 * 16 + b / 16))
      (String (b64char (b mod 16 * 4 + c / 64)) (String (b64char (c mod 64))
         (base64 rest)))).
Proof. reflexivity. Qed.

(** The first two characters of the encoding of two bytes or more. *)
Lemma base64_head2 (a b : Z) (rest : list Z) :
  substring0 2 (base64 (a :: b :: rest))
  = String (b64char (a / 4)) (String (b64char (a mod 4 * 16 + b / 16)) EmptyString).
Proof. destruct rest; reflexivity. Qed.

Lemma substring0_4 (n : nat) (c1 c2 c3 c4 : ascii) (s : string) :
  substring0 (4 + n) (String c1 (String c2 (String c3 (String c4 s))))
  = String c1 (String c2 (String c3 (String c4 (substring0 n s)))).
Proof. reflexivity. Qed.

(** The first 50 characters of the base64 text are the first 37 bytes
    and the upper four bits of the 38th. *)
Lemma base64_prefix50 (b1 b2 : list Z) :
  firstn 37 b1 = firstn 37 b2 ->
  (38 <= length b1)%nat -> (38 <= length b2)%nat ->
  (nth 37 b1 0 / 16 = nth 37 b2 0 / 16)%Z ->
  substring0 50 (base64 b1) = substring0 50 (base64 b2).
Proof.
  intros Hp H1 H2 Hn.
  do 38 (destruct b1 as [|? b1]; [cbn [length] in H1; lia|]).
  do 38 (destruct b2 as [|? b2]; [cbn [length] in H2; lia|]).
  cbn [firstn] in Hp. cbn [nth] in Hn.
  injection Hp as -> -> -> -> -> -> -> -> -> -> -> -> -> -> -> -> -> -> ->
                  -> -> -> -> -> -> -> -> -> -> -> -> -> -> -> -> -> ->.
  change 50%nat
    with (4 + (4 + (4 + (4 + (4 + (4 + (4 + (4 + (4 + (4 + (4 + (4 + 2))))))))))))%nat.
  rewrite !base64_cons3, !substring0_4, !base64_head2, Hn. reflexivity.
Qed.

(* ================================================================== *)
(** ** The monad *)
(* ================================================================== *)

Lemma bind_Ok_inv {A B} (m : M A) (k : A -> M B) (w w' : World) (b : B) :
  bind m k w = (Ok b, w') ->
  exists a w1, m w = (Ok a, w1) /\ k a w1 = (Ok b, w').
Proof.
  unfold bind. destruct (m w) as [[a|e] w1]; intros H; [|discriminate].
  exists a, w1. split; [reflexivity|exact H].
Qed.

Lemma bind_Ok {A B} (m : M A) (k : A -> M B) (w w1 : World) (a : A) :
  m w = (Ok a, w1) -> bind m k w = k a w1.
Proof. intros H. unfold bind. rewrite H. reflexivity. Qed.

Lemma bind_Throw {A B} (m : M A) (k : A -> M B) (w w1 : World) (e : string) :
  m w = (Throw e, w1) -> bind m k w = (Throw e, w1).
Proof. intros H. unfold bind. rewrite H. reflexivity. Qed.

(** A [try] whose [catch] returns a value never throws. *)
Lemma try_catch_total {A} (m : M A) (a : A) (w : World) :
  exists r w', try_catch m (fun _ => ret a) w = (Ok r, w').
Proof.
  unfold try_catch, ret. destruct (m w) as [[r|e] w']; eauto.
Qed.

(** A loop whose body never throws never throws. *)
Lemma forM_total {A St} (body : A -> St -> M St) (l : list A) :
  (forall x acc w, exists r w', body x acc w = (Ok r, w')) ->
  forall acc w, exists r w', forM l body acc w = (Ok r, w').
Proof.
  intros Hb. induction l as [|x l IH]; intros acc w.
  - exists acc, w. reflexivity.
  - cbn [forM]. destruct (Hb x acc w) as (r & w1 & H1).
    rewrite (bind_Ok _ _ _ _ _ H1). apply IH.
Qed.

Create HintDb shrinks.

Section ServiceProperties.

Context (fault : nat -> bool) (llm : nat -> string -> option string) (apiKey : bool)
  (axios_post : nat -> string -> Z -> option (option (list Organic)))
  (URL_hostname : string -> option string)
  {JsValue : Type} (JSON_parse : string -> option JsValue)
  (Math_sin Math_cos : float -> float).

Local Abbreviation retrieve := (retrieveRelevantChunks fault Math_sin Math_cos).
Local Abbreviation searchFor := (webSearchFor apiKey axios_post URL_hostname).
Local Abbreviation fresh :=
  (answerFresh fault llm apiKey axios_post URL_hostname Math_sin Math_cos).
Local Abbreviation body :=
  (generateAnswer_body fault llm apiKey axios_post URL_hostname JsValue JSON_parse
     Math_sin Math_cos).
Local Abbreviation generate :=
  (generateAnswer fault llm apiKey axios_post URL_hostname JsValue JSON_parse
     Math_sin Math_cos).
Local Abbreviation fromCache := (replyFromCache JsValue JSON_parse).

Lemma store_call_eq {A} (what : string) (op : M A) (w : World) :
  store_call fault what op w
  = if fault (clock w) then (Throw (what +:+ " failed"), ticked w) else op (ticked w).
Proof.
  unfold store_call, bind, tick, ticked. destruct (fault (clock w)); reflexivity.
Qed.

(** *** The calls that cannot fail the caller *)

Lemma searchChunk_total (query : string) (doc : Document) (ic : nat * Chunk)
    (sims : list Candidate) (w : World) :
  exists r w', searchChunk fault Math_sin Math_cos query doc ic sims w = (Ok r, w').
Proof. apply try_catch_total. Qed.

(** A failure of the document store or of the cache store inside the
    retrieval leaves an answer: the retrieval returns a list. *)
Lemma retrieveRelevantChunks_total (query : string) (topK : nat) (w : World) :
  exists r w', retrieve query topK w = (Ok r, w').
Proof. apply try_catch_total. Qed.

(** A failure of the web search leaves an answer: no result. *)
Lemma webSearchFor_total (question : string) (chunks : list Candidate)
    (requested enabled : bool) (w : World) :
  exists r w', searchFor question chunks requested enabled w = (Ok r, w').
Proof.
  unfold webSearchFor. destruct (requested && enabled).
  - destruct chunks; apply try_catch_total.
  - exists [], w. reflexivity.
Qed.

(** A failure of the generation collaborator, when there is something
    to answer from, fails the [try] block. *)
Lemma answerFresh_generation_fails (key question : string) (enabled : bool)
    (w w1 w2 : World) (chunks : list Candidate) (results : list WebResult) :
  retrieve question 3 w = (Ok chunks, w1) ->
  searchFor question chunks (isWebSearchRequest question) enabled w1 = (Ok results, w2) ->
  chunks <> [] \/ results <> [] ->
  llm (clock w2) (promptFor chunks results question enabled) = None ->
  exists e w', fresh key question enabled w = (Throw e, w').
Proof.
  intros Hr Hs Hne Hllm. unfold answerFresh.
  rewrite (bind_Ok _ _ _ _ _ Hr), (bind_Ok _ _ _ _ _ Hs).
  assert (Hgen : model_generateContent llm (promptFor chunks results question enabled) w2
                 = (Throw "generation failed",
                    add_prompt (promptFor chunks results question enabled) (ticked w2))).
  { unfold model_generateContent, bind, tick. cbn. rewrite Hllm. reflexivity. }
  destruct chunks as [|c chunks], results as [|r results];
    try (destruct Hne; congruence);
    eexists _, _;
    (erewrite bind_Throw; [reflexivity|]);
    (erewrite bind_Throw; [reflexivity|]); exact Hgen.
Qed.

(** C4. [generateAnswer] never throws: whatever the stores, the web
    search and the generation collaborator do, it returns a reply; and
    when its [try] block fails, the reply is the apology, whose lists of
    sources and of web results are empty. *)
Theorem generateAnswer_never_throws (question roomId : string) (enabled : bool)
    (w : World) :
  exists reply w',
    generate question roomId enabled w = (Ok reply, w')
    /\ (forall e w1, body question roomId enabled w = (Throw e, w1) ->
          reply = Built apology /\ w' = w1)
    /\ (forall r w1, body question roomId enabled w = (Ok r, w1) ->
          reply = r /\ w' = w1)
    /\ sources apology = [] /\ webResults apology = []
    /\ error apology = Some true.
Proof.
  unfold generateAnswer, try_catch, ret.
  destruct (body question roomId enabled w) as [[r|e] w1].
  - exists r, w1. repeat split; intros; congruence.
  - exists (Built apology), w1. repeat split; intros; congruence.
Qed.

(** *** The Answer Cache *)

Lemma JSON_stringify_truthy (a : Answer) : truthy (JSON_stringify a) = true.
Proof. reflexivity. Qed.

Lemma redis_setEx_inv (key : string) (seconds : Z) (v : string) (w w' : World) (u : unit) :
  redis_setEx fault key seconds v w = (Ok u, w') ->
  w' = set_redis (insert key {| value := RString v; ttl := Some seconds |}) (ticked w).
Proof.
  unfold redis_setEx. rewrite store_call_eq.
  destruct (fault (clock w)); intros H; inversion H. reflexivity.
Qed.

(** An answer built after a cache miss carries no error flag, and its
    JSON text is what the Answer Cache holds under the key afterwards. *)
Lemma answerFresh_caches (key question : string) (enabled : bool) (w w' : World)
    (a : Answer) :
  fresh key question enabled w = (Ok a, w') ->
  error a = None
  /\ exists seconds,
       redis w' !! key = Some {| value := RString (JSON_stringify a); ttl := Some seconds |}.
Proof.
  unfold answerFresh. intros H.
  apply bind_Ok_inv in H as (chunks & w1 & _ & H).
  apply bind_Ok_inv in H as (results & w2 & _ & H).
  apply bind_Ok_inv in H as (response & w3 & Hresp & H).
  apply bind_Ok_inv in H as (u & w4 & Hset & H).
  unfold ret in H. inversion H; subst a w4. clear H. split.
  - destruct chunks as [|c chunks], results as [|r results];
      apply bind_Ok_inv in Hresp as (x & wx & _ & Hresp);
      unfold ret in Hresp; inversion Hresp; subst; try reflexivity.
    unfold noContentResponse.
    destruct (negb enabled && isWebSearchRequest question); [reflexivity|].
    destruct (x =? 0)%Z; reflexivity.
  - apply redis_setEx_inv in Hset. subst w'. eexists. cbn. apply lookup_insert_eq.
Qed.

(** A hit: the key holds a non-empty text and the cache store answers. *)
Lemma generateAnswer_hit (question roomId : string) (enabled : bool) (w : World)
    (cached : string) (t : option Z) :
  redis w !! answerCacheKey roomId question enabled
    = Some {| value := RString cached; ttl := t |} ->
  truthy cached = true ->
  fault (clock w) = false ->
  generate question roomId enabled w = (Ok (fromCache cached), ticked w).
Proof.
  intros Hk Ht Hf.
  unfold generateAnswer, try_catch, generateAnswer_body, bind, redis_get.
  rewrite store_call_eq, Hf. cbn [ticked set_clock redis]. rewrite Hk, Ht.
  unfold replyFromCache. destruct (JSON_parse cached); reflexivity.
Qed.

(** What a call that returned without the error flag leaves under its
    key: the text of the reply. *)
Lemma generateAnswer_leaves_entry (question roomId : string) (enabled : bool)
    (w w' : World) (reply : Reply JsValue) :
  generate question roomId enabled w = (Ok reply, w') ->
  match reply with Built a => error a = None | Parsed _ => True end ->
  exists cached t,
    redis w' !! answerCacheKey roomId question enabled
      = Some {| value := RString cached; ttl := t |}
    /\ truthy cached = true
    /\ fromCache cached = match reply with
                          | Built a => fromCache (JSON_stringify a)
                          | Parsed v => Parsed v
                          end
    /\ match reply with Built a => cached = JSON_stringify a | Parsed _ => True end.
Proof.
  intros H Hok. unfold generateAnswer, try_catch in H.
  destruct (body question roomId enabled w) as [[r|e] w1] eqn:Hb.
  2:{ unfold ret in H. inversion H; subst. discriminate Hok. }
  inversion H; subst r w1. clear H.
  unfold generateAnswer_body in Hb.
  apply bind_Ok_inv in Hb as (c & w1 & Hget & Hb).
  assert (Hfresh : forall w1,
    (let* response :=
       fresh (answerCacheKey roomId question enabled) question enabled in
     ret (Built response)) w1 = (Ok reply, w') ->
    exists cached t,
      redis w' !! answerCacheKey roomId question enabled
        = Some {| value := RString cached; ttl := t |}
      /\ truthy cached = true
      /\ fromCache cached = match reply with
                            | Built a => fromCache (JSON_stringify a)
                            | Parsed v => Parsed v
                            end
      /\ match reply with Built a => cached = JSON_stringify a | Parsed _ => True end).
  { intros w2 Hf. apply bind_Ok_inv in Hf as (a & w3 & Hf & Hr).
    unfold ret in Hr. inversion Hr; subst reply w3.
    apply answerFresh_caches in Hf as (_ & seconds & Hl).
    exists (JSON_stringify a), (Some seconds).
    split; [exact Hl | repeat split]. }
  unfold redis_get in Hget. rewrite store_call_eq in Hget.
  destruct (fault (clock w)); [discriminate|].
  cbn [ticked set_clock redis] in Hget.
  destruct (redis w !! answerCacheKey roomId question enabled) as [[[s|h] t]|] eqn:Hk;
    [| discriminate | ]; inversion Hget; subst c w1; clear Hget.
  - destruct (truthy s) eqn:Hs; [|apply (Hfresh _ Hb)].
    destruct (JSON_parse s) as [v|] eqn:Hp; [|discriminate].
    unfold ret in Hb. inversion Hb; subst reply w'.
    exists s, t. cbn [ticked set_clock redis].
    split; [exact Hk|]. split; [exact Hs|]. split; [|exact I].
    unfold replyFromCache. rewrite Hp. reflexivity.
  - apply (Hfresh _ Hb).
Qed.

(** C3, as the code has it. The key is a function of the room, the
    question and the flag. When a call returned without the error flag
    (it read or wrote the Answer Cache) and the cache store answers the
    next call, that call, on the same arguments, is a hit: it returns
    what the cache holds, parsed (for a built answer, the parse of its
    JSON text), and only the clock moves; no prompt is sent. *)
Theorem generateAnswer_repeat_hits (question roomId : string) (enabled : bool)
    (w w1 : World) (reply : Reply JsValue) :
  generate question roomId enabled w = (Ok reply, w1) ->
  match reply with Built a => error a = None | Parsed _ => True end ->
  fault (clock w1) = false ->
  generate question roomId enabled w1
  = (Ok (match reply with
         | Built a => fromCache (JSON_stringify a)
         | Parsed v => Parsed v
         end), ticked w1)
  /\ prompts (ticked w1) = prompts w1 /\ redis (ticked w1) = redis w1.
Proof.
  intros H Hok Hf.
  destruct (generateAnswer_leaves_entry _ _ _ _ _ _ H Hok) as (cached & t & Hk & Ht & Hr & _).
  rewrite (generateAnswer_hit _ _ _ _ _ _ Hk Ht Hf), Hr. repeat split.
Qed.

(** *** The shape of an answer *)

(** [round2] gives a number of hundredths, or a negative zero, on a
    score whose hundredfold is finite, not zero and below 2^52. *)
Lemma round2_hundredth (x : float) (s : bool) (m : positive) (e : Z) :
  Prim2SF (x * 100)%float = S754_finite s m e -> (e < 0)%Z ->
  hundredth (round2 x) \/ round2 x = (PrimFloat.neg_zero / 100)%float.
Proof.
  intros H He. unfold round2, Math_round. rewrite H.
  destruct (Z.leb_spec 0 e); [lia|].
  destruct (roundZ s m e =? 0)%Z.
  - destruct s; [right; reflexivity|left; exists 0%Z; reflexivity].
  - left. eexists. reflexivity.
Qed.

(** C5, as the code has it. An answer built after a cache miss carries
    one source per retrieved passage and one web reference per web
    result, in their order and with repetitions: the sources are the
    images of the passages, each with the score [Math.round(s * 100) / 100],
    and the web references the images of the web results. *)
Theorem answer_lists_follow_retrieval (key question : string) (enabled : bool)
    (w w' : World) (a : Answer) :
  fresh key question enabled w = (Ok a, w') ->
  exists chunks results w1 w2,
    retrieve question 3 w = (Ok chunks, w1)
    /\ searchFor question chunks (isWebSearchRequest question) enabled w1 = (Ok results, w2)
    /\ sources a = map toSource chunks
    /\ webResults a = map toWebRef results
    /\ map src_similarity (sources a) = map (fun c => round2 (c_similarity c)) chunks
    /\ map src_filename (sources a) = map c_filename chunks.
Proof.
  unfold answerFresh. intros H.
  apply bind_Ok_inv in H as (chunks & w1 & Hr & H).
  apply bind_Ok_inv in H as (results & w2 & Hs & H).
  apply bind_Ok_inv in H as (response & w3 & Hresp & H).
  apply bind_Ok_inv in H as (u & w4 & _ & H).
  unfold ret in H. inversion H; subst a w4. clear H.
  exists chunks, results, w1, w2. split; [exact Hr|]. split; [exact Hs|].
  assert (Hshape : sources response = map toSource chunks
                   /\ webResults response = map toWebRef results).
  { destruct chunks as [|c chunks], results as [|r results];
      apply bind_Ok_inv in Hresp as (x & wx & _ & Hresp);
      unfold ret in Hresp; inversion Hresp; subst; try (split; reflexivity).
    unfold noContentResponse.
    destruct (negb enabled && isWebSearchRequest question); [split; reflexivity|].
    destruct (x =? 0)%Z; split; reflexivity. }
  destruct Hshape as [Hsrc Hweb]. rewrite Hsrc, Hweb.
  repeat split; rewrite map_map; reflexivity.
Qed.

(** *** The Retriever, one chunk at a time *)

Lemma searchChunk_fallback (query : string) (doc : Document) (i : nat) (chunk : Chunk)
    (sims : list Candidate) (w w' : World) :
  cachedPassage fault doc i w = (Ok None, w') ->
  searchChunk fault Math_sin Math_cos query doc (i, chunk) sims w
  = (Ok (fallbackChunk query doc chunk sims), w').
Proof.
  intros H. unfold searchChunk, try_catch. cbn [fst snd].
  rewrite (bind_Ok _ _ _ _ _ H). reflexivity.
Qed.



Lemma Math_max_nan (x : float) : Math_max PrimFloat.nan x = PrimFloat.nan.
Proof. reflexivity. Qed.

(** C10, as the code has it. Lines 262-272 work on the lower-cased
    texts. On the fallback path, when the lower-cased query is not a
    substring of the lower-cased chunk text and has no word longer than
    2 characters between its spaces, the score is 0 / 0 * 0.7, which is
    NaN (also after the raise for PDFs); NaN is not above 0.1, so the
    chunk adds no candidate, and the step and the retrieval return
    without an error. *)
Theorem searchChunk_no_long_word (query : string) (doc : Document) (i : nat)
    (chunk : Chunk) (sims : list Candidate) (w w' : World) :
  cachedPassage fault doc i w = (Ok None, w') ->
  includes (toLowerCase (chunk_text chunk)) (toLowerCase query) = false ->
  List.filter (longerThan 2) (split " " (toLowerCase query)) = [] ->
  lexicalSimilarity query (chunk_text chunk) = (ofNat 0 / ofNat 0 * 0.7)%float
  /\ fallbackSimilarity query doc (chunk_text chunk) = PrimFloat.nan
  /\ PrimFloat.ltb 0.1 (fallbackSimilarity query doc (chunk_text chunk)) = false
  /\ searchChunk fault Math_sin Math_cos query doc (i, chunk) sims w = (Ok sims, w')
  /\ exists r w2, retrieve query 3 w = (Ok r, w2).
Proof.
  intros Hc Hi Hw.
  assert (Hl : lexicalSimilarity query (chunk_text chunk) = (ofNat 0 / ofNat 0 * 0.7)%float).
  { unfold lexicalSimilarity. rewrite Hi, Hw. reflexivity. }
  assert (Hf : fallbackSimilarity query doc (chunk_text chunk) = PrimFloat.nan).
  { unfold fallbackSimilarity. rewrite Hl.
    destruct (String.eqb (fileType doc) ".pdf" && mentionsDocument query doc); reflexivity. }
  split; [exact Hl|]. split; [exact Hf|]. split; [rewrite Hf; reflexivity|].
  split; [|apply retrieveRelevantChunks_total].
  rewrite (searchChunk_fallback _ _ _ _ _ _ _ Hc). unfold fallbackChunk.
  rewrite Hf. destruct (truthy (chunk_text chunk)); reflexivity.
Qed.

(** *** Cache invalidation *)

Lemma glob_star (s : string) : glob "*" s = true.
Proof.
  induction s as [|c s IH]; [reflexivity|].
  change (glob "*" (String c s)) with (glob "" (String c s) || glob "*" s).
  rewrite IH. apply orb_true_r.
Qed.

Lemma glob_literal (p q s : string) :
  globFree p = true -> glob q s = true -> glob (p +:+ q) (p +:+ s) = true.
Proof.
  intros Hp Hq. induction p as [|c p IH]; [exact Hq|].
  cbn [globFree] in Hp. apply andb_true_iff in Hp as [Hc Hp].
  unfold isGlobMeta in Hc. apply negb_true_iff in Hc.
  apply orb_false_iff in Hc as [Hc _]. apply orb_false_iff in Hc as [Hc _].
  apply orb_false_iff in Hc as [Hstar Hq'].
  change (glob (String c (p +:+ q)) (String c (p +:+ s)) = true).
  cbn [glob]. rewrite Hstar, Hq', Ascii.eqb_refl. cbn [andb].
  apply IH. exact Hp.
Qed.

(** The pattern of [deleteDocumentFromCache] matches every Passage Cache
    key of the document. *)
Lemma glob_chunkKey (documentId : string) (i : Z) :
  globFree documentId = true ->
  glob ("doc:" +:+ documentId +:+ ":*") (chunkKey documentId i) = true.
Proof.
  intros H. unfold chunkKey.
  apply (glob_literal "doc:" (documentId +:+ ":*") (documentId +:+ ":chunk:" +:+ pretty i));
    [reflexivity|].
  apply (glob_literal documentId ":*" (":chunk:" +:+ pretty i)); [exact H|].
  change (glob "*" ("chunk:" +:+ pretty i) = true). apply glob_star.
Qed.

Lemma del_keys_None (keys : list string) (m : gmap string RedisEntry) (k : string) :
  m !! k = None -> del_keys keys m !! k = None.
Proof.
  intros H. induction keys as [|x keys IH]; [exact H|].
  cbn [del_keys foldr]. rewrite lookup_delete. destruct (decide (x = k)); [reflexivity|exact IH].
Qed.

Lemma del_keys_In (keys : list string) (m : gmap string RedisEntry) (k : string) :
  In k keys -> del_keys keys m !! k = None.
Proof.
  induction keys as [|x keys IH]; intros H; [destruct H|].
  cbn [del_keys foldr]. rewrite lookup_delete. destruct (decide (x = k)); [reflexivity|].
  apply IH. destruct H; [contradiction|assumption].
Qed.

Lemma keys_matching (pattern : string) (m : gmap string RedisEntry) (k : string)
    (e : RedisEntry) :
  m !! k = Some e -> glob pattern k = true ->
  In k (List.filter (glob pattern) (map fst (map_to_list m))).
Proof.
  intros Hk Hg. apply filter_In. split; [|exact Hg].
  apply in_map_iff. exists (k, e). split; [reflexivity|].
  apply list_elem_of_In. apply elem_of_map_to_list. exact Hk.
Qed.

Lemma shrinks_ret {A} (a : A) : shrinks (ret a).
Proof. intros w k H. exact H. Qed.

Lemma shrinks_bind {A B} (m : M A) (f : A -> M B) :
  shrinks m -> (forall a, shrinks (f a)) -> shrinks (bind m f).
Proof.
  intros Hm Hf w k H. unfold bind. specialize (Hm w k H).
  destruct (m w) as [[a|e] w1]; cbn [snd] in *; [apply Hf; exact Hm|exact Hm].
Qed.

Lemma shrinks_try_catch {A} (m : M A) (h : string -> M A) :
  shrinks m -> (forall e, shrinks (h e)) -> shrinks (try_catch m h).
Proof.
  intros Hm Hh w k H. unfold try_catch. specialize (Hm w k H).
  destruct (m w) as [[a|e] w1]; cbn [snd] in *; [exact Hm|apply Hh; exact Hm].
Qed.

Lemma shrinks_store_call {A} (what : string) (op : M A) :
  shrinks op -> shrinks (store_call fault what op).
Proof.
  intros Hop w k H. rewrite store_call_eq.
  destruct (fault (clock w)); [exact H|]. apply Hop. exact H.
Qed.

Lemma shrinks_forM {A St} (body : A -> St -> M St) (l : list A) :
  (forall x acc, shrinks (body x acc)) -> forall acc, shrinks (forM l body acc).
Proof.
  intros Hb. induction l as [|x l IH]; intros acc; [apply shrinks_ret|].
  cbn [forM]. apply shrinks_bind; [apply Hb|exact IH].
Qed.

Lemma shrinks_redis_get (key : string) : shrinks (redis_get fault key).
Proof.
  apply shrinks_store_call. intros w k H.
  destruct (redis w !! key) as [[[s|h] t]|]; exact H.
Qed.

Lemma shrinks_redis_keys (pattern : string) : shrinks (redis_keys fault pattern).
Proof. apply shrinks_store_call. intros w k H. exact H. Qed.

Lemma shrinks_redis_del (keys : list string) : shrinks (redis_del fault keys).
Proof. apply shrinks_store_call. intros w k H. cbn. apply del_keys_None. exact H. Qed.

Lemma shrinks_collectRelated (documentId key : string) (acc : list string) :
  shrinks (collectRelated fault documentId key acc).
Proof.
  apply shrinks_bind; [apply shrinks_redis_get|].
  intros [c|]; [|apply shrinks_ret].
  destruct (truthy c && includes c documentId); apply shrinks_ret.
Qed.

#[local] Hint Resolve shrinks_ret shrinks_redis_get shrinks_redis_keys shrinks_redis_del
  shrinks_collectRelated : shrinks.

(** The Passage Cache half of C1: after [deleteDocumentFromCache], when
    the cache store answers its first two calls, no Passage Cache key
    of the document is left, whatever happens to the scan of the Answer
    Cache that follows. *)
Lemma deleteDocumentFromCache_evicts_passages (documentId : string) (i : Z) (w : World) :
  globFree documentId = true ->
  fault (clock w) = false -> fault (S (clock w)) = false ->
  redis (snd (deleteDocumentFromCache fault documentId w)) !! chunkKey documentId i = None.
Proof.
  intros Hg Hf0 Hf1.
  set (rest := fun _ : unit =>
    let* answerKeys := redis_keys fault "answer:*" in
    let* relatedAnswerKeys := forM answerKeys (collectRelated fault documentId) [] in
    match relatedAnswerKeys with
    | [] => ret tt
    | _ => redis_del fault relatedAnswerKeys
    end).
  assert (Hrest : shrinks (try_catch (rest tt) (fun _ => ret tt))).
  { apply shrinks_try_catch; [|auto with shrinks].
    apply shrinks_bind; [auto with shrinks|]. intros answerKeys.
    apply shrinks_bind; [apply shrinks_forM; auto with shrinks|].
    intros [|x l]; auto with shrinks. }
  set (keys := List.filter (glob ("doc:" +:+ documentId +:+ ":*"))
                 (map fst (map_to_list (redis w)))).
  assert (Hkeys : redis_keys fault ("doc:" +:+ documentId +:+ ":*") w = (Ok keys, ticked w)).
  { unfold redis_keys. rewrite store_call_eq, Hf0. reflexivity. }
  assert (Hdel : exists w2,
    (match keys with [] => ret tt | _ => redis_del fault keys end) (ticked w) = (Ok tt, w2)
    /\ redis w2 !! chunkKey documentId i = None).
  { destruct (redis w !! chunkKey documentId i) as [e|] eqn:Hk.
    - assert (Hin : In (chunkKey documentId i) keys).
      { apply (keys_matching _ (redis w) _ e Hk (glob_chunkKey documentId i Hg)). }
      destruct keys as [|x keys'] eqn:Hkeys'; [exfalso; exact Hin|].
      eexists. unfold redis_del. rewrite store_call_eq.
      cbn [ticked set_clock clock]. rewrite Hf1. split; [reflexivity|].
      exact (del_keys_In (x :: keys') (redis w) _ Hin).
    - destruct keys as [|x keys'] eqn:Hkeys'.
      + exists (ticked w). split; [reflexivity|exact Hk].
      + eexists. unfold redis_del. rewrite store_call_eq.
        cbn [ticked set_clock clock]. rewrite Hf1. split; [reflexivity|].
        exact (del_keys_None (x :: keys') (redis w) _ Hk). }
  destruct Hdel as (w2 & Hdel & H2).
  unfold deleteDocumentFromCache, try_catch.
  rewrite (bind_Ok _ _ _ _ _ Hkeys), (bind_Ok _ _ _ _ _ Hdel).
  exact (Hrest w2 _ H2).
Qed.

(** *** What the invalidation leaves in the Answer Cache *)

Lemma del_keys_notin (keys : list string) (m : gmap string RedisEntry) (k : string) :
  ~ In k keys -> del_keys keys m !! k = m !! k.
Proof.
  induction keys as [|x keys IH]; intros H; [reflexivity|].
  cbn [del_keys foldr]. rewrite lookup_delete_ne.
  - apply IH. intros Hin. apply H. right. exact Hin.
  - intros ->. apply H. left. reflexivity.
Qed.

Section Keeps.

Variables (k : string) (e : RedisEntry).

Lemma keeps_ret {A} (a : A) (Q : A -> Prop) : Q a -> keeps k e (ret a) Q.
Proof. intros Hq w H. split; [exact H|]. intros a' Ha. inversion Ha; subst. exact Hq. Qed.

Lemma keeps_weaken {A} (m : M A) (Q R : A -> Prop) :
  (forall a, Q a -> R a) -> keeps k e m Q -> keeps k e m R.
Proof.
  intros Hqr Hm w H. destruct (Hm w H) as [H1 H2]. split; [exact H1|].
  intros a Ha. apply Hqr, H2, Ha.
Qed.

Lemma keeps_bind {A B} (m : M A) (f : A -> M B) (Q : A -> Prop) (R : B -> Prop) :
  keeps k e m Q -> (forall a, Q a -> keeps k e (f a) R) -> keeps k e (bind m f) R.
Proof.
  intros Hm Hf w H. unfold bind. destruct (Hm w H) as [H1 H2].
  destruct (m w) as [[a|err] w1]; cbn [fst snd] in *.
  - apply (Hf a (H2 a eq_refl) w1 H1).
  - split; [exact H1|]. intros b Hb. discriminate Hb.
Qed.

Lemma keeps_try_catch {A} (m : M A) (h : string -> M A) (Q : A -> Prop) :
  keeps k e m Q -> (forall err, keeps k e (h err) Q) -> keeps k e (try_catch m h) Q.
Proof.
  intros Hm Hh w H. unfold try_catch. destruct (Hm w H) as [H1 H2].
  destruct (m w) as [[a|err] w1]; cbn [fst snd] in *.
  - split; [exact H1|]. intros a' Ha. inversion Ha; subst. apply H2. reflexivity.
  - apply (Hh err w1 H1).
Qed.

Lemma keeps_store_call {A} (what : string) (op : M A) (Q : A -> Prop) :
  keeps k e op Q -> keeps k e (store_call fault what op) Q.
Proof.
  intros Hop w H. rewrite store_call_eq. destruct (fault (clock w)).
  - split; [exact H|]. intros a Ha. discriminate Ha.
  - apply Hop. exact H.
Qed.

Lemma keeps_forM {A St} (body : A -> St -> M St) (P : St -> Prop) (l : list A) :
  (forall x acc, P acc -> keeps k e (body x acc) P) ->
  forall acc, P acc -> keeps k e (forM l body acc) P.
Proof.
  intros Hb. induction l as [|x l IH]; intros acc Hp.
  - apply keeps_ret. exact Hp.
  - cbn [forM]. apply (keeps_bind _ _ P); [apply Hb; exact Hp|]. intros acc' Hp'.
    apply IH. exact Hp'.
Qed.

Lemma keeps_redis_keys (pattern : string) :
  keeps k e (redis_keys fault pattern) (fun keys => In k keys -> glob pattern k = true).
Proof.
  apply keeps_store_call. intros w H. split; [exact H|].
  intros keys Hk. cbn in Hk. inversion Hk; subst. intros Hin.
  apply filter_In in Hin. apply Hin.
Qed.

Lemma keeps_redis_get (key : string) :
  keeps k e (redis_get fault key)
    (fun c => key = k -> match value e with RString s => c = Some s | RHash _ => False end).
Proof.
  apply keeps_store_call. intros w H. split.
  - destruct (redis w !! key) as [[[s|h] t]|]; exact H.
  - intros c Hc ->. rewrite H in Hc. destruct e as [[s|h] t]; cbn in *.
    + inversion Hc. reflexivity.
    + discriminate Hc.
Qed.

Lemma keeps_redis_del (keys : list string) :
  ~ In k keys -> keeps k e (redis_del fault keys) (fun _ => True).
Proof.
  intros Hn. apply keeps_store_call. intros w H. split; [|intros; exact I].
  cbn [snd]. change (del_keys keys (redis w) !! k = Some e).
  rewrite (del_keys_notin _ _ _ Hn). exact H.
Qed.

End Keeps.

(** The scan collects only keys whose text contains the document id. *)
Lemma keeps_collectRelated (documentId k key s : string) (t : option Z)
    (acc : list string) :
  includes s documentId = false ->
  ~ In k acc ->
  keeps k {| value := RString s; ttl := t |} (collectRelated fault documentId key acc)
    (fun acc' => ~ In k acc').
Proof.
  intros Hs Hn. unfold collectRelated.
  apply (keeps_bind _ _ _ _ _ _ (keeps_redis_get _ _ key)). intros c Hc.
  destruct c as [c|]; [|apply keeps_ret; exact Hn].
  destruct (truthy c && includes c documentId) eqn:Hb; apply keeps_ret; [|exact Hn].
  intros Hin. apply in_app_or in Hin as [Hin|[Hin|[]]]; [exact (Hn Hin)|].
  specialize (Hc Hin). cbn in Hc. inversion Hc; subst c.
  rewrite Hs, andb_false_r in Hb. discriminate Hb.
Qed.

(** The Answer Cache half of C1, as the code has it: an entry whose
    text does not contain the document id is still there after
    [deleteDocumentFromCache], whether or not it cites the document. *)
Lemma deleteDocumentFromCache_keeps_answer (documentId k s : string) (t : option Z)
    (w : World) :
  redis w !! k = Some {| value := RString s; ttl := t |} ->
  glob ("doc:" +:+ documentId +:+ ":*") k = false ->
  includes s documentId = false ->
  redis (snd (deleteDocumentFromCache fault documentId w)) !! k
  = Some {| value := RString s; ttl := t |}.
Proof.
  intros Hk Hg Hs.
  assert (H : keeps k {| value := RString s; ttl := t |}
                (deleteDocumentFromCache fault documentId) (fun _ => True)).
  { unfold deleteDocumentFromCache.
    apply keeps_try_catch; [|intros; apply keeps_ret; exact I].
    apply (keeps_bind _ _ _ _ _ _ (keeps_redis_keys _ _ _)). intros keys Hkeys.
    assert (Hn : ~ In k keys) by (intros Hin; rewrite (Hkeys Hin) in Hg; discriminate Hg).
    apply (keeps_bind _ _ _ _ (fun _ => True)).
    { destruct keys; [apply keeps_ret; exact I|apply keeps_redis_del; exact Hn]. }
    intros _ _.
    apply (keeps_bind _ _ _ _ _ _ (keeps_redis_keys _ _ _)). intros answerKeys _.
    apply (keeps_bind _ _ _ _ (fun acc => ~ In k acc)).
    { apply keeps_forM; [|intros []].
      intros key acc Hacc. apply keeps_collectRelated; assumption. }
    intros related Hr.
    destruct related; [apply keeps_ret; exact I|apply keeps_redis_del; exact Hr]. }
  apply (H w Hk).
Qed.

(** C9, as the code has it. Two questions whose UTF-8 texts are at
    least 38 bytes long and agree on the first 37 bytes and on the upper
    four bits of the 38th get the same Answer Cache key, in the same
    room and with the same flag; and the second is then answered from
    the entry that the first one wrote, when the cache store answers. *)
Theorem colliding_questions_share_answer (q1 q2 roomId : string) (enabled : bool) :
  firstn 37 (utf8 q1) = firstn 37 (utf8 q2) ->
  (38 <= length (utf8 q1))%nat -> (38 <= length (utf8 q2))%nat ->
  (nth 37 (utf8 q1) 0 / 16 = nth 37 (utf8 q2) 0 / 16)%Z ->
  answerCacheKey roomId q1 enabled = answerCacheKey roomId q2 enabled
  /\ forall (w w1 : World) (a : Answer),
       generate q1 roomId enabled w = (Ok (Built a), w1) ->
       error a = None ->
       fault (clock w1) = false ->
       generate q2 roomId enabled w1 = (Ok (fromCache (JSON_stringify a)), ticked w1).
Proof.
  intros Hp H1 H2 Hn.
  assert (Hkey : answerCacheKey roomId q1 enabled = answerCacheKey roomId q2 enabled).
  { unfold answerCacheKey. rewrite (base64_prefix50 _ _ Hp H1 H2 Hn). reflexivity. }
  split; [exact Hkey|].
  intros w w1 a Hg He Hf.
  destruct (generateAnswer_leaves_entry _ _ _ _ _ _ Hg He) as (cached & t & Hk & Ht & _ & Hc).
  subst cached. rewrite Hkey in Hk.
  apply (generateAnswer_hit _ _ _ _ _ _ Hk Ht Hf).
Qed.

End ServiceProperties.

(* ================================================================== *)
(** ** Worked runs *)
(* ================================================================== *)

Import Demo.

(** C1 (the code at the failing input). The invoice is cached, the
    question is asked and answered from it, and the document is deleted.
    Afterwards the document store is empty and the Passage Cache keys of
    the document miss; but the Answer Cache entry is still there, since
    its text names the file and not the document id that
    [deleteDocumentFromCache] looks for: the same question is answered
    from the cache, citing the deleted document, with no new prompt. *)
Theorem deleted_document_still_cited :
  redis w_answered !! chunkKey invoiceId 0 <> None
  /\ fst (deleteDocument noFault invoiceId w_answered) = Ok 200%Z
  /\ documents w_deleted = []
  /\ redis w_deleted !! chunkKey invoiceId 0 = None
  /\ exists cached,
       ask llm_ok question w_deleted = (Ok (Parsed cached), ticked w_deleted)
       /\ includes cached "invoice.txt" = true
       /\ includes cached invoiceId = false
       /\ prompts (ticked w_deleted) = prompts w_answered.
Proof.
  split; [vm_compute; discriminate|].
  split; [vm_compute; reflexivity|].
  split; [vm_compute; reflexivity|].
  split; [vm_compute; reflexivity|].
  eexists. split; [vm_compute; reflexivity|].
  split; [vm_compute; reflexivity|].
  split; vm_compute; reflexivity.
Qed.

Lemma generateAnswer_never_throws_witness :
  (exists e w1,
     generateAnswer_body noFault llm_flaky false noSearch hostname string parse
       linear linear question "room1" false world0 = (Throw e, w1))
  /\ fst (ask llm_flaky question world0) = Ok (Built apology)
  /\ sources apology = [] /\ webResults apology = [].
Proof.
  assert (Hb : generateAnswer_body noFault llm_flaky false noSearch hostname string parse
                 linear linear question "room1" false world0
               = (Throw "generation failed",
                  snd (generateAnswer_body noFault llm_flaky false noSearch hostname
                         string parse linear linear question "room1" false world0)))
    by (vm_compute; reflexivity).
  destruct (generateAnswer_never_throws noFault llm_flaky false noSearch hostname parse
              linear linear question "room1" false world0)
    as (reply & w' & Hg & Hthrow & _ & Hs & Hw & _).
  split; [eexists _, _; exact Hb|].
  destruct (Hthrow _ _ Hb) as [Hr _]. subst reply.
  split; [unfold ask; rewrite Hg; reflexivity|]. split; [exact Hs|exact Hw].
Defined.

Lemma generateEmbedding_components_witness :
  length (generateEmbedding linear linear "What is X?") = 384%nat
  /\ nth 2 (generateEmbedding linear linear "What is X?") 0%float
     = (linear (ofZ (771824287 + 2)) * 0.1 + linear (ofZ (771824287 * 2 + 2)) * 0.05)%float.
Proof.
  destruct (generateEmbedding_components linear linear "What is X?") as [Hl Hn].
  split; [exact Hl|].
  rewrite (Hn 2%nat ltac:(lia)). vm_compute. reflexivity.
Defined.


(** C3 as stated fails: when the generation collaborator fails during
    the first call, that call returns the apology and writes nothing to
    the Answer Cache; the second call, on the same arguments and with no
    mutation in between, is a miss: it builds its answer and sends a
    second prompt. *)
Lemma generateAnswer_repeat_after_failure :
  let '(r1, w1) := ask llm_flaky question world0 in
  let '(r2, w2) := ask llm_flaky question w1 in
  r1 = Ok (Built apology)
  /\ redis w1 !! answerCacheKey "room1" question false = None
  /\ documents w1 = documents world0
  /\ length (prompts w1) = 1%nat
  /\ r2 = Ok (Built expected)
  /\ length (prompts w2) = 2%nat.
Proof. vm_compute. repeat split. Qed.

Lemma generateAnswer_repeat_hits_witness :
  ask llm_ok question world0 = (Ok (Built expected), snd (ask llm_ok question world0))
  /\ error expected = None
  /\ ask llm_ok question (snd (ask llm_ok question world0))
     = (Ok (Parsed (JSON_stringify expected)), ticked (snd (ask llm_ok question world0)))
  /\ prompts (ticked (snd (ask llm_ok question world0)))
     = prompts (snd (ask llm_ok question world0)).
Proof.
  assert (H1 : ask llm_ok question world0
               = (Ok (Built expected), snd (ask llm_ok question world0)))
    by (vm_compute; reflexivity).
  split; [exact H1|]. split; [reflexivity|].
  destruct (generateAnswer_repeat_hits noFault llm_ok false noSearch hostname parse
              linear linear question "room1" false world0
              (snd (ask llm_ok question world0)) (Built expected) H1 eq_refl eq_refl)
    as (H2 & H3 & _).
  split; [exact H2|exact H3].
Defined.

(** C5 as stated fails. The two chunks of the handbook both match the
    question, and the answer lists the document twice; and the search
    API returns one result several times, and the answer lists that
    result four times. *)
Lemma answer_lists_repeat_entries :
  fst (ask llm_ok "How are invoices paid?" (world_with [handbook]))
  = Ok (Built expected_handbook)
  /\ map src_filename (sources expected_handbook) = ["handbook.txt"; "handbook.txt"]
  /\ ~ NoDup (map src_filename (sources expected_handbook))
  /\ (exists a,
        fst (askWeb "Please search for the current weather" (world_with [])) = Ok (Built a)
        /\ sources a = []
        /\ webResults a = [weatherRef; weatherRef; weatherRef; weatherRef]
        /\ ~ NoDup (webResults a)).
Proof.
  split; [vm_compute; reflexivity|]. split; [reflexivity|].
  split.
  { intros H. inversion H as [|x l Hin _]; subst. apply Hin. left. }
  eexists. split; [vm_compute; reflexivity|]. split; [reflexivity|].
  split; [reflexivity|].
  intros H. inversion H as [|x l Hin _]; subst. apply Hin. left.
Qed.

Lemma answer_lists_follow_retrieval_witness :
  let question := "How are invoices paid?" in
  let key := answerCacheKey "room1" question false in
  let run := answerFresh noFault llm_ok false noSearch hostname linear linear
               key question false (world_with [handbook]) in
  run = (Ok expected_handbook, snd run)
  /\ exists chunks results w1 w2,
       retrieveRelevantChunks noFault linear linear question 3 (world_with [handbook])
       = (Ok chunks, w1)
       /\ webSearchFor false noSearch hostname question chunks
            (isWebSearchRequest question) false w1 = (Ok results, w2)
       /\ sources expected_handbook = map toSource chunks
       /\ webResults expected_handbook = map toWebRef results
       /\ map src_similarity (sources expected_handbook)
          = map (fun c => round2 (c_similarity c)) chunks
       /\ map src_filename (sources expected_handbook) = map c_filename chunks.
Proof.
  cbv zeta.
  assert (H : answerFresh noFault llm_ok false noSearch hostname linear linear
                (answerCacheKey "room1" "How are invoices paid?" false)
                "How are invoices paid?" false (world_with [handbook])
              = (Ok expected_handbook,
                 snd (answerFresh noFault llm_ok false noSearch hostname linear linear
                        (answerCacheKey "room1" "How are invoices paid?" false)
                        "How are invoices paid?" false (world_with [handbook]))))
    by (vm_compute; reflexivity).
  split; [exact H|].
  exact (answer_lists_follow_retrieval noFault llm_ok false noSearch hostname
           linear linear _ _ _ _ _ _ H).
Defined.


(** C10 as stated fails: the substring test of line 268 is made on the
    lower-cased texts. The query [OK] is not a substring of the chunk
    text [it is ok] and has no word longer than 2 characters; its score
    is 0.9, not NaN, and the chunk is retrieved. *)
Lemma upper_case_query_scores_substring :
  let query := "OK" in
  let chunk := {| chunk_text := "it is ok"; chunk_index := 0 |} in
  let doc :=
    {| doc_id := "64b7f0c2a1d3e4f5a6b7c8dd"; filename := "1700000003-note.txt";
       originalName := "note.txt"; content := "it is ok"; chunks := [chunk];
       fileType := ".txt"; fileSize := 8; status := completed |} in
  includes (chunk_text chunk) query = false
  /\ List.filter (longerThan 2) (split " " query) = []
  /\ cachedPassage noFault doc 0 (world_with [doc]) = (Ok None, ticked (world_with [doc]))
  /\ lexicalSimilarity query (chunk_text chunk) = 0.9%float
  /\ fallbackSimilarity query doc (chunk_text chunk) = 0.9%float
  /\ searchChunk noFault linear linear query doc (0%nat, chunk) [] (world_with [doc])
     = (Ok [candidate "it is ok" 0.9 doc], ticked (world_with [doc]))
  /\ fst (retrieveRelevantChunks noFault linear linear query 3 (world_with [doc]))
     = Ok [candidate "it is ok" 0.9 doc].
Proof. vm_compute. repeat split. Qed.

Lemma searchChunk_no_long_word_witness :
  let query := "Is it OK" in
  let chunk := {| chunk_text := "The invoice total is $450."; chunk_index := 0 |} in
  cachedPassage noFault invoice 0 world0 = (Ok None, ticked world0)
  /\ lexicalSimilarity query (chunk_text chunk) = (ofNat 0 / ofNat 0 * 0.7)%float
  /\ fallbackSimilarity query invoice (chunk_text chunk) = PrimFloat.nan
  /\ PrimFloat.ltb 0.1 (fallbackSimilarity query invoice (chunk_text chunk)) = false
  /\ searchChunk noFault linear linear query invoice (0%nat, chunk) [] world0
     = (Ok [], ticked world0)
  /\ exists r w2, retrieveRelevantChunks noFault linear linear query 3 world0 = (Ok r, w2).
Proof.
  cbv zeta.
  assert (H : cachedPassage noFault invoice 0 world0 = (Ok None, ticked world0))
    by (vm_compute; reflexivity).
  split; [exact H|].
  apply (searchChunk_no_long_word noFault linear linear "Is it OK" invoice 0%nat
           {| chunk_text := "The invoice total is $450."; chunk_index := 0 |}
           [] world0 (ticked world0) H); vm_compute; reflexivity.
Defined.

(** C9 as stated fails on the bound: two questions that agree on their
    first 37 bytes get different keys when the upper four bits of the
    38th byte differ. *)
Lemma same_37_bytes_different_keys :
  firstn 37 (utf8 aboutTaxes) = firstn 37 (utf8 aboutDebts)
  /\ answerCacheKey "room1" aboutTaxes true <> answerCacheKey "room1" aboutDebts true.
Proof.
  split; [vm_compute; reflexivity|]. vm_compute. discriminate.
Qed.

Lemma colliding_questions_share_answer_witness :
  aboutTaxes <> aboutPensions
  /\ firstn 37 (utf8 aboutTaxes) = firstn 37 (utf8 aboutPensions)
  /\ (nth 37 (utf8 aboutTaxes) 0 / 16 = nth 37 (utf8 aboutPensions) 0 / 16)%Z
  /\ answerCacheKey "room1" aboutTaxes false = answerCacheKey "room1" aboutPensions false
  /\ exists (a : Answer) (w1 : World),
       ask llm_ok aboutTaxes world0 = (Ok (Built a), w1)
       /\ ask llm_ok aboutPensions w1 = (Ok (Parsed (JSON_stringify a)), ticked w1).
Proof.
  assert (Hp : firstn 37 (utf8 aboutTaxes) = firstn 37 (utf8 aboutPensions))
    by (vm_compute; reflexivity).
  assert (Hn : (nth 37 (utf8 aboutTaxes) 0 / 16 = nth 37 (utf8 aboutPensions) 0 / 16)%Z)
    by (vm_compute; reflexivity).
  assert (H1 : (38 <= length (utf8 aboutTaxes))%nat) by (vm_compute; lia).
  assert (H2 : (38 <= length (utf8 aboutPensions))%nat) by (vm_compute; lia).
  destruct (colliding_questions_share_answer noFault llm_ok false noSearch hostname parse
              linear linear aboutTaxes aboutPensions "room1" false Hp H1 H2 Hn)
    as [Hkey Hall].
  split; [vm_compute; discriminate|].
  split; [exact Hp|]. split; [exact Hn|]. split; [exact Hkey|].
  eexists _, _. split; [vm_compute; reflexivity|].
  apply (Hall world0); [vm_compute; reflexivity|reflexivity|reflexivity].
Defined.

(* ================================================================== *)
(** ** Rules for the specifications of runs *)
(* ================================================================== *)

Section Triples.

Context (fault : nat -> bool).

Lemma triple_ret {A} (P : World -> Prop) (a : A) (Q : A -> World -> Prop)
    (E : World -> Prop) :
  (forall w, P w -> Q a w) -> triple P (ret a) Q E.
Proof. intros H w Hp. apply H, Hp. Qed.

Lemma triple_throw {A} (P : World -> Prop) (e : string) (Q : A -> World -> Prop)
    (E : World -> Prop) :
  (forall w, P w -> E w) -> triple P (throw e) Q E.
Proof. intros H w Hp. apply H, Hp. Qed.

Lemma triple_bind {A B} (P : World -> Prop) (m : M A) (f : A -> M B)
    (R : A -> World -> Prop) (Q : B -> World -> Prop) (E : World -> Prop) :
  triple P m R E -> (forall a, triple (R a) (f a) Q E) -> triple P (bind m f) Q E.
Proof.
  intros Hm Hf w Hp. unfold bind. specialize (Hm w Hp).
  destruct (m w) as [[a|e] w1]; [apply (Hf a w1 Hm)|exact Hm].
Qed.

Lemma triple_try_catch {A} (P : World -> Prop) (m : M A) (h : string -> M A)
    (Q : A -> World -> Prop) (E' E : World -> Prop) :
  triple P m Q E' -> (forall e, triple E' (h e) Q E) -> triple P (try_catch m h) Q E.
Proof.
  intros Hm Hh w Hp. unfold try_catch. specialize (Hm w Hp).
  destruct (m w) as [[a|e] w1]; [exact Hm|apply (Hh e w1 Hm)].
Qed.

Lemma triple_conseq {A} (P P' : World -> Prop) (m : M A) (Q Q' : A -> World -> Prop)
    (E E' : World -> Prop) :
  triple P' m Q' E' ->
  (forall w, P w -> P' w) -> (forall a w, Q' a w -> Q a w) -> (forall w, E' w -> E w) ->
  triple P m Q E.
Proof.
  intros Hm Hp Hq He w H. specialize (Hm w (Hp w H)).
  destruct (m w) as [[a|e] w1]; [apply Hq|apply He]; exact Hm.
Qed.

(** A loop with the invariant [I] on the accumulator and the world. *)
Lemma triple_forM {A St} (I : St -> World -> Prop) (E : World -> Prop)
    (body : A -> St -> M St) (l : list A) :
  (forall x acc, In x l -> triple (I acc) (body x acc) I E) ->
  forall acc, triple (I acc) (forM l body acc) I E.
Proof.
  induction l as [|x l IH]; intros Hb acc.
  - apply triple_ret. auto.
  - cbn [forM]. apply (triple_bind _ _ _ I).
    + apply Hb. left. reflexivity.
    + intros acc'. apply IH. intros y acc0 Hy. apply Hb. right. exact Hy.
Qed.

(** A call to a store: the clock moves, and the call fails or runs. *)
Lemma triple_store_call {A} (P P' : World -> Prop) (what : string) (op : M A)
    (Q : A -> World -> Prop) (E : World -> Prop) :
  (forall w, P w -> P' (ticked w)) -> (forall w, P' w -> E w) ->
  triple P' op Q E -> triple P (store_call fault what op) Q E.
Proof.
  intros Ht He Hop w Hp. rewrite store_call_eq.
  destruct (fault (clock w)); [apply He, Ht, Hp|apply Hop, Ht, Hp].
Qed.

End Triples.

(* ================================================================== *)
(** ** The Retriever as a whole *)
(* ================================================================== *)

Lemma sameStores_refl (w : World) : sameStores w w.
Proof. repeat split. Qed.

Lemma sameStores_ticked (w0 w : World) : sameStores w0 w -> sameStores w0 (ticked w).
Proof. intros H. exact H. Qed.

Lemma Forall_insertSorted (P : Candidate -> Prop) (x : Candidate) (l : list Candidate) :
  P x -> Forall P l -> Forall P (insertSorted x l).
Proof.
  intros Hx Hl. induction Hl as [|y l Hy Hl IH]; cbn [insertSorted].
  - constructor; [exact Hx|constructor].
  - destruct (goesBefore x y).
    + constructor; [exact Hx|]. constructor; assumption.
    + constructor; assumption.
Qed.

Lemma Forall_sortBySimilarity (P : Candidate -> Prop) (l : list Candidate) :
  Forall P l -> Forall P (sortBySimilarity l).
Proof.
  unfold sortBySimilarity.
  assert (H : forall sorted, Forall P sorted -> Forall P l ->
                Forall P (fold_left (fun sorted x => insertSorted x sorted) l sorted)).
  { induction l as [|x l IH]; intros sorted Hs Hl; [exact Hs|].
    cbn [fold_left]. inversion Hl; subst. apply IH; [|assumption].
    apply Forall_insertSorted; assumption. }
  apply H. constructor.
Qed.

Lemma length_insertSorted (x : Candidate) (l : list Candidate) :
  length (insertSorted x l) = S (length l).
Proof.
  induction l as [|y l IH]; [reflexivity|]. cbn [insertSorted].
  destruct (goesBefore x y); cbn [length]; [reflexivity|]. rewrite IH. reflexivity.
Qed.

Lemma length_sortBySimilarity (l : list Candidate) :
  length (sortBySimilarity l) = length l.
Proof.
  unfold sortBySimilarity.
  assert (H : forall sorted,
            length (fold_left (fun sorted x => insertSorted x sorted) l sorted)
            = (length sorted + length l)%nat).
  { induction l as [|x l IH]; intros sorted; cbn [fold_left length]; [lia|].
    rewrite IH, length_insertSorted. lia. }
  rewrite H. reflexivity.
Qed.

Section RetrieverProperties.

Context (fault : nat -> bool) (Math_sin Math_cos : float -> float).

Local Abbreviation retrieve := (retrieveRelevantChunks fault Math_sin Math_cos).

Lemma triple_redis_hGetAll (w0 : World) (key : string) :
  triple (sameStores w0) (redis_hGetAll fault key)
    (fun r w => sameStores w0 w
                /\ forall h, r = Some h ->
                     exists t, redis w0 !! key = Some {| value := RHash h; ttl := t |})
    (sameStores w0).
Proof.
  apply (triple_store_call fault _ (sameStores w0)); [auto using sameStores_ticked|auto|].
  intros w H. pose proof H as (Hr & _). rewrite <- Hr.
  destruct (redis w !! key) as [[[s|h] t]|]; [exact H| |];
    (split; [exact H|]); intros h' Hh; inversion Hh; subst. exists t. reflexivity.
Qed.

Lemma triple_cachedPassage (w0 : World) (doc : Document) (i : nat) :
  triple (sameStores w0) (cachedPassage fault doc i)
    (fun r w => sameStores w0 w
                /\ forall h, r = Some h ->
                     exists t, redis w0 !! chunkKey (doc_id doc) (Z.of_nat i)
                               = Some {| value := RHash h; ttl := t |})
    (sameStores w0).
Proof.
  unfold cachedPassage. destruct (negb (String.eqb (fileType doc) ".pdf")).
  - apply (triple_bind _ _ _ _ _ _ (triple_redis_hGetAll w0 _)).
    intros [h|]; [destruct (truthy (ph_text h))|]; apply triple_ret;
      intros w [Hw Hh]; (split; [exact Hw|]); try exact Hh; discriminate.
  - apply triple_ret. intros w Hw. split; [exact Hw|discriminate].
Qed.

(** One chunk: the stores are left as they are, and what is added to
    the candidates names the document searched and carries the text of
    the chunk or of its Passage Cache entry. *)
Lemma triple_searchChunk (w0 : World) (P : Candidate -> Prop) (query : string)
    (doc : Document) (ic : nat * Chunk) (sims : list Candidate) :
  (forall text similarity,
     text = chunk_text (snd ic)
     \/ (exists h t, redis w0 !! chunkKey (doc_id doc) (Z.of_nat (fst ic))
                     = Some {| value := RHash h; ttl := t |} /\ text = ph_text h) ->
     P (candidate text similarity doc)) ->
  triple (fun w => sameStores w0 w /\ Forall P sims)
    (searchChunk fault Math_sin Math_cos query doc ic sims)
    (fun sims' w => sameStores w0 w /\ Forall P sims')
    (fun _ => False).
Proof.
  intros Hdoc. unfold searchChunk.
  apply (triple_try_catch _ _ _ _ (fun w => sameStores w0 w /\ Forall P sims)).
  - apply (triple_bind _ _ _
             (fun r w => (sameStores w0 w /\ Forall P sims)
                         /\ forall h, r = Some h ->
                              exists t, redis w0 !! chunkKey (doc_id doc) (Z.of_nat (fst ic))
                                        = Some {| value := RHash h; ttl := t |})).
    + intros w [Hw Hs]. pose proof (triple_cachedPassage w0 doc (fst ic) w Hw) as H.
      destruct (cachedPassage fault doc (fst ic) w) as [[a|e] w1].
      * destruct H as [H1 H2]. split; [split; assumption|exact H2].
      * split; assumption.
    + intros [h|]; apply triple_ret; intros w [[Hw Hs] Hh]; (split; [exact Hw|]).
      * apply Forall_app. split; [exact Hs|]. constructor; [|constructor].
        apply Hdoc. right. destruct (Hh h eq_refl) as [t Ht]. exists h, t.
        split; [exact Ht|reflexivity].
      * unfold fallbackChunk. destruct (truthy (chunk_text (snd ic))); [|exact Hs].
        destruct (PrimFloat.ltb 0.1 _); [|exact Hs].
        apply Forall_app. split; [exact Hs|]. constructor; [|constructor].
        apply Hdoc. left. reflexivity.
  - intros e. apply triple_ret. auto.
Qed.

Lemma In_indexed {A} (l : list A) (ix : nat * A) : In ix (indexed l) -> In (snd ix) l.
Proof. destruct ix as [i x]. unfold indexed. apply in_combine_r. Qed.

Lemma triple_searchDocument (w0 : World) (P : Candidate -> Prop) (query : string)
    (doc : Document) (sims : list Candidate) :
  (forall text similarity,
     passageOf (redis w0) doc text -> P (candidate text similarity doc)) ->
  triple (fun w => sameStores w0 w /\ Forall P sims)
    (searchDocument fault Math_sin Math_cos query doc sims)
    (fun sims' w => sameStores w0 w /\ Forall P sims')
    (fun _ => False).
Proof.
  intros Hdoc. unfold searchDocument.
  apply (triple_forM (fun acc w => sameStores w0 w /\ Forall P acc)).
  intros ic acc Hin. apply triple_searchChunk. intros text similarity Ht.
  apply Hdoc. destruct Ht as [->|(h & t & Hk & ->)].
  - left. exists (snd ic). split; [apply In_indexed, Hin|reflexivity].
  - right. exists (Z.of_nat (fst ic)), h, t. split; [exact Hk|reflexivity].
Qed.

Lemma fromCompleted_candidate (w : World) (doc : Document)
    (text : string) (similarity : float) :
  In doc (List.filter isCompleted (documents w)) ->
  passageOf (redis w) doc text ->
  fromCompleted w (candidate text similarity doc).
Proof.
  intros Hin Hp. apply filter_In in Hin as [Hin Hc]. exists doc.
  split; [exact Hin|]. split; [|split; [repeat split|exact Hp]].
  unfold isCompleted in Hc. destruct (status doc); try discriminate Hc. reflexivity.
Qed.

(** The specification of [retrieveRelevantChunks]: it returns, it
    leaves the stores as they are, and each of the at most [topK]
    passages names a completed document of the store. *)
Lemma triple_retrieveRelevantChunks (w0 : World) (query : string) (topK : nat) :
  triple (sameStores w0) (retrieve query topK)
    (fun chunks w => sameStores w0 w /\ (length chunks <= topK)%nat
                     /\ Forall (fromCompleted w0) chunks)
    (fun _ => False).
Proof.
  unfold retrieveRelevantChunks.
  apply (triple_try_catch _ _ _ _ (sameStores w0)).
  2:{ intros e. apply triple_ret. intros w Hw.
      split; [exact Hw|]. split; [cbn; lia|constructor]. }
  apply (triple_bind _ _ _
           (fun docs w => sameStores w0 w /\ docs = List.filter isCompleted (documents w0))).
  { apply (triple_store_call fault _ (sameStores w0)); [auto using sameStores_ticked|auto|].
    intros w Hw. split; [exact Hw|]. destruct Hw as (_ & Hd & _). rewrite Hd. reflexivity. }
  intros docs.
  assert (Hloop : triple
            (fun w => sameStores w0 w /\ docs = List.filter isCompleted (documents w0))
            (let* similarities := forM docs (searchDocument fault Math_sin Math_cos query) [] in
             ret (firstn topK (sortBySimilarity similarities)))
            (fun chunks w => sameStores w0 w /\ (length chunks <= topK)%nat
                             /\ Forall (fromCompleted w0) chunks)
            (sameStores w0)).
  { apply (triple_bind _ _ _
             (fun sims w => sameStores w0 w /\ Forall (fromCompleted w0) sims)).
    - intros w [Hw Hdocs].
      assert (H : triple
                (fun w => sameStores w0 w /\ Forall (fromCompleted w0) [])
                (forM docs (searchDocument fault Math_sin Math_cos query) [])
                (fun sims w => sameStores w0 w /\ Forall (fromCompleted w0) sims)
                (fun _ => False)).
      { apply (triple_forM
                 (fun acc w => sameStores w0 w /\ Forall (fromCompleted w0) acc)).
        intros doc acc Hin. apply triple_searchDocument. intros text similarity.
        apply fromCompleted_candidate. rewrite <- Hdocs. exact Hin. }
      specialize (H w (conj Hw (List.Forall_nil _))).
      destruct (forM docs _ [] w) as [[sims|e] w1]; [exact H|destruct H].
    - intros sims. apply triple_ret. intros w [Hw Hs]. split; [exact Hw|]. split.
      + rewrite length_firstn. lia.
      + apply Forall_take, Forall_sortBySimilarity, Hs. }
  destruct docs as [|doc docs'].
  - apply triple_ret. intros w [Hw _]. split; [exact Hw|]. split; [cbn; lia|constructor].
  - exact Hloop.
Qed.

(** X1. The retrieval only reads: whatever the stores do, a call to
    [retrieveRelevantChunks] leaves the cache store, the document store,
    the prompts sent and the searches made as they were. *)
Theorem retrieveRelevantChunks_reads_only (query : string) (topK : nat) (w : World) :
  let w' := snd (retrieve query topK w) in
  redis w' = redis w /\ documents w' = documents w
  /\ prompts w' = prompts w /\ searches w' = searches w.
Proof.
  cbv zeta.
  pose proof (triple_retrieveRelevantChunks w query topK w (sameStores_refl w)) as H.
  destruct (retrieve query topK w) as [[chunks|e] w']; [|destruct H].
  destruct H as [H _]. exact H.
Qed.

(** X2. What the retrieval returns: whatever the stores do,
    [retrieveRelevantChunks] returns a list of at most [topK] passages,
    and each of them carries the id, the name and the type of a
    completed document of the store, and the text of one of its chunks
    or of one of its Passage Cache entries. *)
Theorem retrieveRelevantChunks_from_completed (query : string) (topK : nat) (w : World) :
  exists chunks w',
    retrieve query topK w = (Ok chunks, w')
    /\ (length chunks <= topK)%nat
    /\ Forall (fun c =>
                 exists d, In d (documents w) /\ status d = completed
                           /\ (c_docId c = doc_id d /\ c_filename c = originalName d
                               /\ c_fileType c = fileType d)
                           /\ passageOf (redis w) d (c_text c)) chunks.
Proof.
  pose proof (triple_retrieveRelevantChunks w query topK w (sameStores_refl w)) as H.
  destruct (retrieve query topK w) as [[chunks|e] w']; [|destruct H].
  destruct H as (_ & Hl & Hf). exists chunks, w'.
  split; [reflexivity|]. split; [exact Hl|exact Hf].
Qed.

End RetrieverProperties.

(* ================================================================== *)
(** ** The Answer Synthesizer as a whole *)
(* ================================================================== *)

Section SynthesizerProperties.

Context (fault : nat -> bool) (llm : nat -> string -> option string) (apiKey : bool)
  (axios_post : nat -> string -> Z -> option (option (list Organic)))
  (URL_hostname : string -> option string)
  {JsValue : Type} (JSON_parse : string -> option JsValue)
  (Math_sin Math_cos : float -> float).

Local Abbreviation retrieve := (retrieveRelevantChunks fault Math_sin Math_cos).
Local Abbreviation searchFor := (webSearchFor apiKey axios_post URL_hostname).
Local Abbreviation fresh :=
  (answerFresh fault llm apiKey axios_post URL_hostname Math_sin Math_cos).
Local Abbreviation body :=
  (generateAnswer_body fault llm apiKey axios_post URL_hostname JsValue JSON_parse
     Math_sin Math_cos).
Local Abbreviation generate :=
  (generateAnswer fault llm apiKey axios_post URL_hostname JsValue JSON_parse
     Math_sin Math_cos).

(** What [searchWeb] does with four results asked for. *)
Lemma searchWeb_spec (query : string) (w : World) :
  if apiKey then
    exists r, searchWeb apiKey axios_post URL_hostname query 4 w
              = (r, add_search query (ticked w))
              /\ match r with Ok results => (length results <= 4)%nat | Throw _ => True end
  else
    exists e, searchWeb apiKey axios_post URL_hostname query 4 w = (Throw e, w).
Proof.
  unfold searchWeb. destruct apiKey; cbn [negb].
  - unfold try_catch, bind, tick, throw.
    destruct (axios_post (clock w) query 4) as [[organic|]|];
      eexists; (split; [reflexivity|]); cbn; try lia.
    rewrite length_map, length_firstn. lia.
  - eexists. reflexivity.
Qed.

(** The web search of [generateAnswer]: it returns at most four
    results, and it calls the search API, once, exactly when the search is
    requested, enabled and configured. *)
Lemma webSearchFor_spec (question : string) (chunks : list Candidate)
    (requested enabled : bool) (w : World) :
  exists results,
    searchFor question chunks requested enabled w
    = (Ok results,
       if requested && enabled && apiKey
       then add_search (searchTermsFor question chunks) (ticked w) else w)
    /\ (length results <= 4)%nat
    /\ (requested && enabled && apiKey = false -> results = []).
Proof.
  unfold webSearchFor. destruct (requested && enabled); cbn [andb].
  2:{ exists []. split; [reflexivity|]. split; [cbn; lia|reflexivity]. }
  assert (H : forall query,
    exists results,
      try_catch (searchWeb apiKey axios_post URL_hostname query 4) (fun _ => ret []) w
      = (Ok results, if apiKey then add_search query (ticked w) else w)
      /\ (length results <= 4)%nat /\ (apiKey = false -> results = [])).
  { intros query. pose proof (searchWeb_spec query w) as Hs. unfold try_catch.
    destruct apiKey.
    - destruct Hs as (r & -> & Hl). destruct r as [results|e].
      + exists results. split; [reflexivity|]. split; [exact Hl|discriminate].
      + exists []. split; [reflexivity|]. split; [cbn; lia|discriminate].
    - destruct Hs as (e & ->). exists []. split; [reflexivity|]. split; [cbn; lia|reflexivity]. }
  destruct chunks as [|top chunks]; apply H.
Qed.

Lemma redis_setEx_eq (key : string) (seconds : Z) (v : string) (w : World) :
  redis_setEx fault key seconds v w
  = if fault (clock w) then (Throw "redis failed", ticked w)
    else (Ok tt, set_redis (insert key {| value := RString v; ttl := Some seconds |})
                   (ticked w)).
Proof. unfold redis_setEx. rewrite store_call_eq. reflexivity. Qed.

Lemma model_generateContent_eq (prompt : string) (w : World) :
  model_generateContent llm prompt w
  = (match llm (clock w) prompt with
     | Some text => Ok text
     | None => Throw "generation failed"
     end, add_prompt prompt (ticked w)).
Proof.
  unfold model_generateContent, bind, tick. destruct (llm (clock w) prompt); reflexivity.
Qed.

Lemma Document_count_completed_eq (w : World) :
  Document_count_completed fault w
  = if fault (clock w) then (Throw "mongo failed", ticked w)
    else (Ok (Z.of_nat (length (List.filter isCompleted (documents w)))), ticked w).
Proof. unfold Document_count_completed. rewrite store_call_eq. reflexivity. Qed.

(** The number that [Document.countDocuments] returns. *)
Local Abbreviation completedCount w :=
  (Z.of_nat (length (List.filter isCompleted (documents w)))).

(** The outcome of the pipeline after a cache miss, in terms of the
    passages retrieved and the web results found. *)
Lemma answerFresh_outcome (key question : string) (enabled : bool) (w : World) :
  exists chunks results,
    ((length chunks <= 3)%nat /\ Forall (fromCompleted w) chunks)
    /\ ((length results <= 4)%nat
        /\ (isWebSearchRequest question && enabled && apiKey = false -> results = []))
    /\ match fresh key question enabled w with
       | (Ok a, w') =>
           documents w' = documents w
           /\ redis w' = <[key := answerEntry a]> (redis w)
           /\ searches w'
              = (if isWebSearchRequest question && enabled && apiKey
                 then [searchTermsFor question chunks] else []) ++ searches w
           /\ ((chunks = [] /\ results = [] /\ prompts w' = prompts w
                /\ a = noContentResponse enabled (isWebSearchRequest question)
                         (completedCount w))
               \/ ((chunks <> [] \/ results <> [])
                   /\ prompts w' = promptFor chunks results question enabled :: prompts w
                   /\ exists t text,
                        llm t (promptFor chunks results question enabled) = Some text
                        /\ a = shapeResponse text chunks results enabled))
       | (Throw _, w') =>
           documents w' = documents w
           /\ redis w' = redis w
           /\ searches w'
              = (if isWebSearchRequest question && enabled && apiKey
                 then [searchTermsFor question chunks] else []) ++ searches w
           /\ (prompts w' = prompts w
               \/ prompts w' = promptFor chunks results question enabled :: prompts w)
       end.
Proof.
  pose proof (triple_retrieveRelevantChunks fault Math_sin Math_cos w question 3 w
                (sameStores_refl w)) as Hr.
  destruct (retrieve question 3 w) as [[chunks|e0] w1] eqn:Hretrieve; [|destruct Hr].
  destruct Hr as ((Hr1 & Hd1 & Hp1 & Hs1) & Hlen & Hfrom).
  destruct (webSearchFor_spec question chunks (isWebSearchRequest question) enabled w1)
    as (results & Hsearch & Hlen4 & Hnone).
  exists chunks, results. split; [split; assumption|]. split; [split; assumption|].
  set (w2 := if isWebSearchRequest question && enabled && apiKey
             then add_search (searchTermsFor question chunks) (ticked w1) else w1) in *.
  assert (H2 : redis w2 = redis w /\ documents w2 = documents w /\ prompts w2 = prompts w
               /\ searches w2
                  = (if isWebSearchRequest question && enabled && apiKey
                     then [searchTermsFor question chunks] else []) ++ searches w).
  { subst w2. destruct (isWebSearchRequest question && enabled && apiKey); cbn;
      rewrite ?Hs1; repeat split; assumption. }
  destruct H2 as (Hr2 & Hd2 & Hp2 & Hs2).
  unfold answerFresh.
  rewrite (bind_Ok _ _ _ _ _ Hretrieve), (bind_Ok _ _ _ _ _ Hsearch).
  assert (Hgen : forall prompt : string,
    match
      (let* response :=
         (let* text := model_generateContent llm prompt in
          ret (shapeResponse text chunks results enabled)) in
       let* _ := redis_setEx fault key
                   (match results with [] => 3600%Z | _ => 1800%Z end)
                   (JSON_stringify response) in
       ret response) w2
    with
    | (Ok a, w') =>
        documents w' = documents w
        /\ redis w' = <[key := answerEntry a]> (redis w)
        /\ searches w'
           = (if isWebSearchRequest question && enabled && apiKey
              then [searchTermsFor question chunks] else []) ++ searches w
        /\ prompts w' = prompt :: prompts w
        /\ exists t text, llm t prompt = Some text
                          /\ a = shapeResponse text chunks results enabled
    | (Throw _, w') =>
        documents w' = documents w
        /\ redis w' = redis w
        /\ searches w'
           = (if isWebSearchRequest question && enabled && apiKey
              then [searchTermsFor question chunks] else []) ++ searches w
        /\ (prompts w' = prompts w \/ prompts w' = prompt :: prompts w)
    end).
  { intros prompt. unfold bind. rewrite model_generateContent_eq.
    destruct (llm (clock w2) prompt) as [text|] eqn:Hllm.
    - unfold ret. rewrite redis_setEx_eq.
      cbn [clock add_prompt ticked set_clock].
      destruct (fault (S (clock w2))); cbn [set_redis redis documents prompts searches
                                             add_prompt ticked set_clock].
      + rewrite Hd2, Hr2, Hs2, Hp2. repeat split. right. reflexivity.
      + rewrite Hd2, Hr2, Hs2, Hp2. split; [reflexivity|]. split.
        * unfold answerEntry, shapeResponse. cbn [webResults].
          destruct results; reflexivity.
        * split; [reflexivity|]. split; [reflexivity|].
          exists (clock w2), text. split; [exact Hllm|reflexivity].
    - cbn [set_redis redis documents prompts searches add_prompt ticked set_clock].
      rewrite Hd2, Hr2, Hs2, Hp2. repeat split. right. reflexivity. }
  destruct chunks as [|c chunks'] eqn:Hchunks, results as [|r results'] eqn:Hresults.
  - (* nothing to answer from *)
    unfold bind. rewrite Document_count_completed_eq.
    destruct (fault (clock w2)).
    + cbn [ticked set_clock redis documents prompts searches].
      rewrite Hd2, Hr2, Hs2, Hp2. repeat split. left. reflexivity.
    + unfold ret. rewrite redis_setEx_eq.
      cbn [clock ticked set_clock documents].
      destruct (fault (S (clock w2)));
        cbn [set_redis redis documents prompts searches ticked set_clock].
      * rewrite Hd2, Hr2, Hs2, Hp2. repeat split. left. reflexivity.
      * rewrite Hd2, Hr2, Hs2, Hp2. split; [reflexivity|]. split.
        { unfold answerEntry, noContentResponse.
          destruct (negb enabled && isWebSearchRequest question); [reflexivity|].
          destruct (_ =? 0)%Z; reflexivity. }
        split; [reflexivity|]. left. repeat split.
  - specialize (Hgen (promptFor [] (r :: results') question enabled)).
    lazy beta iota zeta in Hgen. lazy beta iota zeta.
    match type of Hgen with match ?t with _ => _ end => destruct t as [[a|e1] w'] end;
      destruct Hgen as (H1 & H2 & H3 & H4).
    + destruct H4 as [H4 H5]. repeat (split; [assumption|]).
      right. split; [right; discriminate|]. split; assumption.
    + repeat (split; [assumption|]). exact H4.
  - specialize (Hgen (promptFor (c :: chunks') [] question enabled)).
    lazy beta iota zeta in Hgen. lazy beta iota zeta.
    match type of Hgen with match ?t with _ => _ end => destruct t as [[a|e1] w'] end;
      destruct Hgen as (H1 & H2 & H3 & H4).
    + destruct H4 as [H4 H5]. repeat (split; [assumption|]).
      right. split; [left; discriminate|]. split; assumption.
    + repeat (split; [assumption|]). exact H4.
  - specialize (Hgen (promptFor (c :: chunks') (r :: results') question enabled)).
    lazy beta iota zeta in Hgen. lazy beta iota zeta.
    match type of Hgen with match ?t with _ => _ end => destruct t as [[a|e1] w'] end;
      destruct Hgen as (H1 & H2 & H3 & H4).
    + destruct H4 as [H4 H5]. repeat (split; [assumption|]).
      right. split; [left; discriminate|]. split; assumption.
    + repeat (split; [assumption|]). exact H4.
Qed.

(** [generateAnswer], case by case: the cache store fails; the key holds
    a text, which parses or not; the key holds a hash; or the answer is
    built afresh. *)
Lemma generateAnswer_eq (question roomId : string) (enabled : bool) (w : World) :
  generate question roomId enabled w
  = let key := answerCacheKey roomId question enabled in
    let afresh :=
      match fresh key question enabled (ticked w) with
      | (Ok a, w') => (Ok (Built a), w')
      | (Throw _, w') => (Ok (Built apology), w')
      end in
    if fault (clock w) then (Ok (Built apology), ticked w)
    else match redis w !! key with
         | Some {| value := RString cached |} =>
             if truthy cached then
               match JSON_parse cached with
               | Some v => (Ok (Parsed v), ticked w)
               | None => (Ok (Built apology), ticked w)
               end
             else afresh
         | Some {| value := RHash _ |} => (Ok (Built apology), ticked w)
         | None => afresh
         end.
Proof.
  cbv zeta. unfold generateAnswer, try_catch, generateAnswer_body, bind, redis_get.
  rewrite store_call_eq. destruct (fault (clock w)); [reflexivity|].
  cbn [ticked set_clock redis].
  destruct (redis w !! answerCacheKey roomId question enabled) as [[[cached|h] t]|].
  - destruct (truthy cached).
    + destruct (JSON_parse cached); reflexivity.
    + destruct (fresh _ question enabled _) as [[a|e] w']; reflexivity.
  - reflexivity.
  - destruct (fresh _ question enabled _) as [[a|e] w']; reflexivity.
Qed.

(** What the calls that build no answer afresh leave: the world, one
    call later. *)
Lemma footprint_ticked (key : string) (w : World) :
  documents (ticked w) = documents w
  /\ (forall k, k <> key -> redis (ticked w) !! k = redis w !! k)
  /\ (exists ps, prompts (ticked w) = ps ++ prompts w /\ (length ps <= 1)%nat)
  /\ (exists ss, searches (ticked w) = ss ++ searches w /\ (length ss <= 1)%nat).
Proof.
  split; [reflexivity|]. split; [intros; reflexivity|].
  split; exists []; (split; [reflexivity|cbn; lia]).
Qed.

(** X3. The footprint of [generateAnswer]: whatever the stores and the
    collaborators do, a call leaves the document store as it was, leaves
    every cache key other than its own Answer Cache key as it was, sends
    at most one prompt to the generation collaborator and at most one
    query to the search API. *)
Theorem generateAnswer_footprint (question roomId : string) (enabled : bool) (w : World) :
  let w' := snd (generate question roomId enabled w) in
  documents w' = documents w
  /\ (forall k, k <> answerCacheKey roomId question enabled ->
        redis w' !! k = redis w !! k)
  /\ (exists ps, prompts w' = ps ++ prompts w /\ (length ps <= 1)%nat)
  /\ (exists ss, searches w' = ss ++ searches w /\ (length ss <= 1)%nat).
Proof.
  cbv zeta. rewrite generateAnswer_eq. cbv zeta.
  set (key := answerCacheKey roomId question enabled).
  assert (Hfresh :
    let w' := snd (match fresh key question enabled (ticked w) with
                   | (Ok a, w') => (Ok (@Built JsValue a), w')
                   | (Throw _, w') => (Ok (Built apology), w')
                   end) in
    documents w' = documents w
    /\ (forall k, k <> key -> redis w' !! k = redis w !! k)
    /\ (exists ps, prompts w' = ps ++ prompts w /\ (length ps <= 1)%nat)
    /\ (exists ss, searches w' = ss ++ searches w /\ (length ss <= 1)%nat)).
  { cbv zeta.
    destruct (answerFresh_outcome key question enabled (ticked w))
      as (chunks & results & _ & _ & H).
    assert (Hss : forall w', searches w'
                  = (if isWebSearchRequest question && enabled && apiKey
                     then [searchTermsFor question chunks] else []) ++ searches (ticked w) ->
                  exists ss, searches w' = ss ++ searches w /\ (length ss <= 1)%nat).
    { intros w' ->. eexists. split; [reflexivity|].
      destruct (isWebSearchRequest question && enabled && apiKey); cbn; lia. }
    destruct (fresh key question enabled (ticked w)) as [[a|e] w']; cbn [snd].
    - destruct H as (Hd & Hr & Hs & Hp). split; [exact Hd|]. split.
      + intros k Hk. rewrite Hr. cbn [ticked set_clock redis].
        apply lookup_insert_ne. congruence.
      + split; [|apply Hss, Hs].
        destruct Hp as [(_ & _ & Hp & _)|(_ & Hp & _)]; rewrite Hp.
        * exists []. split; [reflexivity|cbn; lia].
        * exists [promptFor chunks results question enabled].
          split; [reflexivity|cbn; lia].
    - destruct H as (Hd & Hr & Hs & Hp). split; [exact Hd|]. split.
      + intros k _. rewrite Hr. reflexivity.
      + split; [|apply Hss, Hs]. destruct Hp as [Hp|Hp]; rewrite Hp.
        * exists []. split; [reflexivity|cbn; lia].
        * exists [promptFor chunks results question enabled].
          split; [reflexivity|cbn; lia]. }
  destruct (fault (clock w)); [apply footprint_ticked|].
  destruct (redis w !! key) as [[[cached|h] t]|]; [| apply footprint_ticked | exact Hfresh].
  destruct (truthy cached); [|exact Hfresh].
  destruct (JSON_parse cached); apply footprint_ticked.
Qed.

(** An answer that [generateAnswer] built is the apology, with the
    cache and the documents left as they were, or the answer of the
    pipeline run after the cache read. *)
Lemma generateAnswer_built (question roomId : string) (enabled : bool) (w w' : World)
    (a : Answer) :
  generate question roomId enabled w = (Ok (Built a), w') ->
  (a = apology /\ redis w' = redis w /\ searches w' = searches w
   \/ a = apology
      /\ exists e, fresh (answerCacheKey roomId question enabled) question enabled (ticked w)
                   = (Throw e, w'))
  \/ fresh (answerCacheKey roomId question enabled) question enabled (ticked w) = (Ok a, w').
Proof.
  rewrite generateAnswer_eq. cbv zeta.
  set (key := answerCacheKey roomId question enabled).
  assert (Hfresh :
    match fresh key question enabled (ticked w) with
    | (Ok a, w') => (Ok (@Built JsValue a), w')
    | (Throw _, w') => (Ok (Built apology), w')
    end = (Ok (Built a), w') ->
    (a = apology /\ redis w' = redis w /\ searches w' = searches w
     \/ a = apology /\ exists e, fresh key question enabled (ticked w) = (Throw e, w'))
    \/ fresh key question enabled (ticked w) = (Ok a, w')).
  { destruct (fresh key question enabled (ticked w)) as [[a0|e] w0];
      intros H; inversion H; subst.
    - right. reflexivity.
    - left. right. split; [reflexivity|]. exists e. reflexivity. }
  assert (Hticked : (Ok (@Built JsValue apology), ticked w) = (Ok (Built a), w') ->
    (a = apology /\ redis w' = redis w /\ searches w' = searches w
     \/ a = apology /\ exists e, fresh key question enabled (ticked w) = (Throw e, w'))
    \/ fresh key question enabled (ticked w) = (Ok a, w')).
  { intros H. inversion H; subst. left. left. repeat split. }
  destruct (fault (clock w)); [exact Hticked|].
  destruct (redis w !! key) as [[[cached|h] t]|]; [| exact Hticked | exact Hfresh].
  destruct (truthy cached); [|exact Hfresh].
  destruct (JSON_parse cached); [discriminate|exact Hticked].
Qed.

(** X4. The Answer Cache entry of a built answer: when [generateAnswer]
    returns an answer it built, without the error flag, its own key
    holds the JSON text of that answer, to expire after 3600 seconds, or
    after 1800 seconds when the answer has web results. *)
Theorem generateAnswer_caches_built (question roomId : string) (enabled : bool)
    (w w' : World) (a : Answer) :
  generate question roomId enabled w = (Ok (Built a), w') ->
  error a = None ->
  redis w' !! answerCacheKey roomId question enabled
  = Some {| value := RString (JSON_stringify a);
            ttl := Some (match webResults a with [] => 3600%Z | _ => 1800%Z end) |}.
Proof.
  intros H He. apply generateAnswer_built in H as [[(-> & _)|(-> & _)]|H];
    [discriminate He|discriminate He|].
  pose proof (answerFresh_outcome (answerCacheKey roomId question enabled) question enabled
                (ticked w)) as (chunks & results & _ & _ & Hout).
  rewrite H in Hout. destruct Hout as (_ & Hr & _). rewrite Hr.
  apply lookup_insert_eq.
Qed.

(** X5. The apology is not cached: when [generateAnswer] returns an
    answer with the error flag, that answer is the apology, with no
    source and no web result, and the cache store holds what it held
    before the call. *)
Theorem generateAnswer_error_not_cached (question roomId : string) (enabled : bool)
    (w w' : World) (a : Answer) :
  generate question roomId enabled w = (Ok (Built a), w') ->
  error a <> None ->
  a = apology /\ sources a = [] /\ webResults a = [] /\ redis w' = redis w.
Proof.
  intros H He. apply generateAnswer_built in H as [[(-> & Hr & _)|(-> & e & H)]|H].
  - repeat split. exact Hr.
  - repeat split.
    pose proof (answerFresh_outcome (answerCacheKey roomId question enabled) question enabled
                  (ticked w)) as (chunks & results & _ & _ & Hout).
    rewrite H in Hout. destruct Hout as (_ & Hr & _). exact Hr.
  - apply (answerFresh_caches fault llm apiKey axios_post URL_hostname Math_sin Math_cos)
      in H as [H _]. contradiction.
Qed.

Lemma fromCompleted_toSource (w : World) (c : Candidate) :
  fromCompleted w c ->
  exists d, In d (documents w) /\ status d = completed
            /\ src_filename (toSource c) = originalName d
            /\ src_fileType (toSource c) = fileType d.
Proof.
  intros (d & Hin & Hs & (_ & Hf & Ht) & _). exists d. repeat split; assumption.
Qed.

Lemma Forall_toSource (w : World) (chunks : list Candidate) :
  Forall (fromCompleted w) chunks ->
  Forall (fun s => exists d, In d (documents w) /\ status d = completed
                             /\ src_filename s = originalName d
                             /\ src_fileType s = fileType d) (map toSource chunks).
Proof.
  intros H. induction H as [|c chunks' Hc _ IH]; cbn [map]; constructor;
    [apply fromCompleted_toSource; exact Hc|exact IH].
Qed.

(** X6. What a built answer cites: at most three sources and at most
    four web results, and each source carries the name and the type of
    a completed document that the store held when the call was made. *)
Theorem generateAnswer_citations (question roomId : string) (enabled : bool)
    (w w' : World) (a : Answer) :
  generate question roomId enabled w = (Ok (Built a), w') ->
  (length (sources a) <= 3)%nat
  /\ (length (webResults a) <= 4)%nat
  /\ Forall (fun s => exists d, In d (documents w) /\ status d = completed
                                /\ src_filename s = originalName d
                                /\ src_fileType s = fileType d) (sources a).
Proof.
  intros H. apply generateAnswer_built in H as [[(-> & _)|(-> & _)]|H];
    [cbn; split; [lia|split; [lia|constructor]] ..|].
  pose proof (answerFresh_outcome (answerCacheKey roomId question enabled) question enabled
                (ticked w)) as (chunks & results & (Hl3 & Hfrom) & (Hl4 & _) & Hout).
  rewrite H in Hout. destruct Hout as (_ & _ & _ & [(_ & _ & _ & ->)|(_ & _ & t & text & _ & ->)]).
  - unfold noContentResponse.
    destruct (negb enabled && isWebSearchRequest question);
      [|destruct (_ =? 0)%Z]; cbn; (split; [lia|split; [lia|constructor]]).
  - cbn [shapeResponse sources webResults]. rewrite !length_map.
    split; [exact Hl3|]. split; [exact Hl4|].
    apply Forall_toSource. exact Hfrom.
Qed.

(** X7. The gate of the web search: unless the question asks for a web
    search, the search is enabled for the call and the API key is
    configured, [generateAnswer] sends no query to the search API, and
    an answer it builds has no web result. *)
Theorem generateAnswer_search_gate (question roomId : string) (enabled : bool) (w : World) :
  isWebSearchRequest question && enabled && apiKey = false ->
  searches (snd (generate question roomId enabled w)) = searches w
  /\ forall a, fst (generate question roomId enabled w) = Ok (Built a) -> webResults a = [].
Proof.
  intros Hgate.
  destruct (generate question roomId enabled w) as [r w'] eqn:H. cbn [fst snd].
  assert (Hs : searches w' = searches w).
  { pose proof (generateAnswer_eq question roomId enabled w) as Heq. rewrite H in Heq.
    cbv zeta in Heq.
    assert (Hfresh : forall x : Result (Reply JsValue) * World,
      x = match fresh (answerCacheKey roomId question enabled) question enabled (ticked w) with
          | (Ok a, w') => (Ok (Built a), w')
          | (Throw _, w') => (Ok (Built apology), w')
          end -> searches (snd x) = searches w).
    { intros x ->.
      pose proof (answerFresh_outcome (answerCacheKey roomId question enabled) question
                    enabled (ticked w)) as (chunks & results & _ & _ & Hout).
      rewrite Hgate in Hout.
      destruct (fresh _ question enabled (ticked w)) as [[a0|e] w0];
        destruct Hout as (_ & _ & Hs & _); exact Hs. }
    destruct (fault (clock w)); [inversion Heq; reflexivity|].
    destruct (redis w !! answerCacheKey roomId question enabled) as [[[cached|h] t]|];
      [| inversion Heq; reflexivity | apply (Hfresh _ Heq)].
    destruct (truthy cached); [|apply (Hfresh _ Heq)].
    destruct (JSON_parse cached); inversion Heq; reflexivity. }
  split; [exact Hs|]. intros a ->.
  apply generateAnswer_built in H as [[(-> & _)|(-> & _)]|H]; [reflexivity..|].
  pose proof (answerFresh_outcome (answerCacheKey roomId question enabled) question enabled
                (ticked w)) as (chunks & results & _ & (_ & Hnone) & Hout).
  rewrite H in Hout. specialize (Hnone Hgate). subst results.
  destruct Hout as (_ & _ & _ & [(_ & _ & _ & ->)|(_ & _ & t & text & _ & ->)]).
  - unfold noContentResponse.
    destruct (negb enabled && isWebSearchRequest question);
      [|destruct (_ =? 0)%Z]; reflexivity.
  - reflexivity.
Qed.

(** X8. Canned or generated: an answer that [generateAnswer] built,
    without the error flag, either has no source and no web result, and
    then it is one of the three canned texts and no prompt was sent; or
    it has a source or a web result, and then one prompt was sent and
    the answer is the text the generation collaborator returned for it. *)
Theorem generateAnswer_canned_or_generated (question roomId : string) (enabled : bool)
    (w w' : World) (a : Answer) :
  generate question roomId enabled w = (Ok (Built a), w') ->
  error a = None ->
  (sources a = [] /\ webResults a = [] /\ prompts w' = prompts w
   /\ a = noContentResponse enabled (isWebSearchRequest question) (completedCount w))
  \/ ((sources a <> [] \/ webResults a <> [])
      /\ exists prompt t, prompts w' = prompt :: prompts w
                          /\ llm t prompt = Some (answer a)).
Proof.
  intros H He. apply generateAnswer_built in H as [[(-> & _)|(-> & _)]|H];
    [discriminate He|discriminate He|].
  pose proof (answerFresh_outcome (answerCacheKey roomId question enabled) question enabled
                (ticked w)) as (chunks & results & _ & _ & Hout).
  rewrite H in Hout.
  destruct Hout as (_ & _ & _ & [(_ & _ & Hp & ->)|(Hne & Hp & t & text & Hllm & ->)]).
  - left. cbn [ticked set_clock documents prompts] in *.
    split; [|split; [|split; [exact Hp|reflexivity]]];
      unfold noContentResponse;
      (destruct (negb enabled && isWebSearchRequest question);
        [|destruct (_ =? 0)%Z]; reflexivity).
  - right. split.
    + cbn [shapeResponse sources webResults].
      destruct Hne as [Hc|Hr]; [left|right];
        [destruct chunks|destruct results]; try congruence; discriminate.
    + exists (promptFor chunks results question enabled), t.
      split; [exact Hp|exact Hllm].
Qed.

End SynthesizerProperties.

(* ================================================================== *)
(** ** Cache invalidation and the deletion of a document *)
(* ================================================================== *)

Lemma isLowerHex_plain (c : ascii) :
  isLowerHex c = true -> isGlobMeta c = false /\ Ascii.eqb c ":" = false.
Proof.
  destruct c as [[] [] [] [] [] [] [] []]; vm_compute; intros H;
    try discriminate H; split; reflexivity.
Qed.

Lemma forallb_isLowerHex_plain (s : string) :
  forallb isLowerHex (list_ascii_of_string s) = true ->
  globFree s = true /\ colonFree s = true.
Proof.
  induction s as [|c s IH]; [split; reflexivity|].
  cbn [list_ascii_of_string forallb globFree colonFree]. intros H.
  apply andb_true_iff in H as [Hc Hs]. destruct (isLowerHex_plain c Hc) as [-> ->].
  destruct (IH Hs) as [-> ->]. split; reflexivity.
Qed.

(** An [ObjectId] has no character that a glob pattern reads as a
    wildcard, and no colon. *)
Lemma isObjectId_plain (s : string) :
  isObjectId s = true -> globFree s = true /\ colonFree s = true.
Proof.
  unfold isObjectId. intros H. apply andb_true_iff in H as [_ H].
  apply forallb_isLowerHex_plain, H.
Qed.

(** A match of a pattern that starts with literal characters starts
    with these characters. *)
Lemma glob_literal_inv (p q s : string) :
  globFree p = true -> glob (p +:+ q) s = true ->
  exists s', s = p +:+ s' /\ glob q s' = true.
Proof.
  revert s. induction p as [|c p IH]; intros s Hp Hg.
  - exists s. split; [reflexivity|exact Hg].
  - cbn [globFree] in Hp. apply andb_true_iff in Hp as [Hc Hp].
    unfold isGlobMeta in Hc. apply negb_true_iff in Hc.
    apply orb_false_iff in Hc as [Hc _]. apply orb_false_iff in Hc as [Hc _].
    apply orb_false_iff in Hc as [Hstar Hq].
    change (glob (String c (p +:+ q)) s = true) in Hg. cbn [glob] in Hg.
    rewrite Hstar, Hq in Hg. destruct s as [|d s]; [discriminate Hg|].
    apply andb_true_iff in Hg as [Hcd Hg]. apply Ascii.eqb_eq in Hcd. subst d.
    destruct (IH s Hp Hg) as (s' & -> & Hs'). exists s'. split; [reflexivity|exact Hs'].
Qed.

(** Two texts without a colon that are followed by a colon in the same
    text are the same. *)
Lemma colonFree_prefix_eq (a b x y : string) :
  colonFree a = true -> colonFree b = true ->
  a +:+ ":" +:+ x = b +:+ ":" +:+ y -> a = b.
Proof.
  revert b. induction a as [|c a IH]; intros b Ha Hb H.
  - destruct b as [|d b]; [reflexivity|].
    cbn in H. inversion H; subst d. cbn in Hb. discriminate Hb.
  - destruct b as [|d b].
    + cbn in H. inversion H; subst c. cbn in Ha. discriminate Ha.
    + cbn [colonFree] in Ha, Hb.
      apply andb_true_iff in Ha as [_ Ha]. apply andb_true_iff in Hb as [_ Hb].
      change (String c (a +:+ ":" +:+ x) = String d (b +:+ ":" +:+ y)) in H.
      inversion H; subst d. f_equal. apply (IH b Ha Hb). assumption.
Qed.

(** The pattern of a document matches no Passage Cache key of another
    document. *)
Lemma glob_other_chunkKey (documentId otherId : string) (i : Z) :
  globFree documentId = true -> colonFree documentId = true ->
  colonFree otherId = true -> documentId <> otherId ->
  glob ("doc:" +:+ documentId +:+ ":*") (chunkKey otherId i) = false.
Proof.
  intros Hg Hc Hc' Hne.
  destruct (glob ("doc:" +:+ documentId +:+ ":*") (chunkKey otherId i)) eqn:H;
    [|reflexivity].
  exfalso. apply Hne.
  apply (glob_literal_inv "doc:" (documentId +:+ ":*")) in H as (s1 & H1 & H); [|reflexivity].
  apply (glob_literal_inv documentId ":*") in H as (s2 & -> & H); [|exact Hg].
  unfold chunkKey in H1.
  change ("doc:" +:+ otherId +:+ ":chunk:" +:+ pretty i)
    with (String "d" (String "o" (String "c" (String ":" (otherId +:+ ":chunk:" +:+ pretty i)))))
    in H1.
  change ("doc:" +:+ documentId +:+ s2)
    with (String "d" (String "o" (String "c" (String ":" (documentId +:+ s2))))) in H1.
  inversion H1 as [H2]. destruct s2 as [|c s2]; [discriminate H|].
  change (glob ":*" (String c s2)) with (Ascii.eqb ":" c && glob "*" s2) in H.
  apply andb_true_iff in H as [Hcolon _]. apply Ascii.eqb_eq in Hcolon. subst c.
  symmetry. apply (colonFree_prefix_eq otherId documentId ("chunk:" +:+ pretty i) s2 Hc' Hc).
  exact H2.
Qed.

Lemma del_keys_subseteq (keys : list string) (m : gmap string RedisEntry) :
  del_keys keys m ⊆ m.
Proof.
  induction keys as [|x keys IH]; [reflexivity|].
  cbn [del_keys foldr]. etransitivity; [apply delete_subseteq|exact IH].
Qed.

Section InvalidationProperties.

Context (fault : nat -> bool) (Math_sin Math_cos : float -> float).

Lemma onlyEvicted_refl (w : World) : onlyEvicted w w.
Proof. split; [reflexivity|repeat split]. Qed.

Lemma triple_onlyEvicted_store_call {A} (w0 : World) (what : string) (op : M A) :
  triple (onlyEvicted w0) op (fun _ => onlyEvicted w0) (onlyEvicted w0) ->
  triple (onlyEvicted w0) (store_call fault what op)
    (fun _ => onlyEvicted w0) (onlyEvicted w0).
Proof. apply triple_store_call; auto. Qed.

Lemma triple_onlyEvicted_keys (w0 : World) (pattern : string) :
  triple (onlyEvicted w0) (redis_keys fault pattern)
    (fun _ => onlyEvicted w0) (onlyEvicted w0).
Proof. apply triple_onlyEvicted_store_call. intros w H. exact H. Qed.

Lemma triple_onlyEvicted_get (w0 : World) (key : string) :
  triple (onlyEvicted w0) (redis_get fault key)
    (fun _ => onlyEvicted w0) (onlyEvicted w0).
Proof.
  apply triple_onlyEvicted_store_call. intros w H.
  destruct (redis w !! key) as [[[s|h] t]|]; exact H.
Qed.

Lemma triple_onlyEvicted_del (w0 : World) (keys : list string) :
  triple (onlyEvicted w0) (redis_del fault keys)
    (fun _ => onlyEvicted w0) (onlyEvicted w0).
Proof.
  apply triple_onlyEvicted_store_call. intros w (Hr & Hrest).
  split; [|exact Hrest]. cbn [set_redis redis].
  etransitivity; [apply del_keys_subseteq|exact Hr].
Qed.

Lemma triple_onlyEvicted_collectRelated (w0 : World) (documentId key : string)
    (acc : list string) :
  triple (onlyEvicted w0) (collectRelated fault documentId key acc)
    (fun _ => onlyEvicted w0) (onlyEvicted w0).
Proof.
  unfold collectRelated.
  apply (triple_bind _ _ _ _ _ _ (triple_onlyEvicted_get w0 key)).
  intros [c|]; [destruct (truthy c && includes c documentId)|]; apply triple_ret; auto.
Qed.

Lemma triple_onlyEvicted_deleteDocumentFromCache (w0 : World) (documentId : string) :
  triple (onlyEvicted w0) (deleteDocumentFromCache fault documentId)
    (fun _ => onlyEvicted w0) (fun _ => False).
Proof.
  unfold deleteDocumentFromCache.
  apply (triple_try_catch _ _ _ _ (onlyEvicted w0)); [|intros e; apply triple_ret; auto].
  apply (triple_bind _ _ _ _ _ _ (triple_onlyEvicted_keys w0 _)). intros keys.
  apply (triple_bind _ _ _ (fun _ => onlyEvicted w0)).
  { destruct keys; [apply triple_ret; auto|apply triple_onlyEvicted_del]. }
  intros _.
  apply (triple_bind _ _ _ _ _ _ (triple_onlyEvicted_keys w0 _)). intros answerKeys.
  apply (triple_bind _ _ _ (fun _ => onlyEvicted w0)).
  { apply (triple_forM (fun _ => onlyEvicted w0)). intros key acc _.
    apply triple_onlyEvicted_collectRelated. }
  intros related. destruct related; [apply triple_ret; auto|apply triple_onlyEvicted_del].
Qed.

(** X9. [deleteDocumentFromCache] never fails and only evicts:
    whatever the cache store does, the call returns, every entry the
    cache holds afterwards is an entry it held before, unchanged, and
    the document store, the prompts and the searches are as they
    were. *)
Theorem deleteDocumentFromCache_only_evicts (documentId : string) (w : World) :
  exists w',
    deleteDocumentFromCache fault documentId w = (Ok tt, w')
    /\ (forall k e, redis w' !! k = Some e -> redis w !! k = Some e)
    /\ documents w' = documents w
    /\ prompts w' = prompts w /\ searches w' = searches w.
Proof.
  pose proof (triple_onlyEvicted_deleteDocumentFromCache w documentId w (onlyEvicted_refl w))
    as H.
  destruct (deleteDocumentFromCache fault documentId w) as [[[]|e] w']; [|destruct H].
  destruct H as (Hr & Hrest). exists w'. split; [reflexivity|]. split; [|exact Hrest].
  intros k e Hk. apply (lookup_weaken _ _ _ _ Hk Hr).
Qed.

(** X10. The eviction of passages: when the cache store answers the
    first two calls of [deleteDocumentFromCache] (the key scan and the
    deletion), no key that the pattern [doc:<id>:*] matches is left,
    whatever happens to the scan of the Answer Cache; for a document id
    without wildcard characters these keys include every Passage Cache
    key of the document. *)
Theorem deleteDocumentFromCache_evicts (documentId : string) (w : World) :
  fault (clock w) = false -> fault (S (clock w)) = false ->
  (forall k, glob ("doc:" +:+ documentId +:+ ":*") k = true ->
     redis (snd (deleteDocumentFromCache fault documentId w)) !! k = None)
  /\ (globFree documentId = true ->
      forall i, redis (snd (deleteDocumentFromCache fault documentId w))
                  !! chunkKey documentId i = None).
Proof.
  intros Hf0 Hf1.
  assert (Hall : forall k, glob ("doc:" +:+ documentId +:+ ":*") k = true ->
            redis (snd (deleteDocumentFromCache fault documentId w)) !! k = None).
  { intros k Hg.
    set (rest := fun _ : unit =>
      let* answerKeys := redis_keys fault "answer:*" in
      let* relatedAnswerKeys := forM answerKeys (collectRelated fault documentId) [] in
      match relatedAnswerKeys with
      | [] => ret tt
      | _ => redis_del fault relatedAnswerKeys
      end).
    assert (Hrest : shrinks (try_catch (rest tt) (fun _ => ret tt))).
    { apply shrinks_try_catch; [|intros; apply shrinks_ret].
      apply shrinks_bind; [apply shrinks_redis_keys|]. intros answerKeys.
      apply shrinks_bind; [apply shrinks_forM; intros; apply shrinks_collectRelated|].
      intros [|x l]; [apply shrinks_ret|apply shrinks_redis_del]. }
    set (keys := List.filter (glob ("doc:" +:+ documentId +:+ ":*"))
                   (map fst (map_to_list (redis w)))).
    assert (Hkeys : redis_keys fault ("doc:" +:+ documentId +:+ ":*") w = (Ok keys, ticked w)).
    { unfold redis_keys. rewrite store_call_eq, Hf0. reflexivity. }
    assert (Hdel : exists w2,
      (match keys with [] => ret tt | _ => redis_del fault keys end) (ticked w) = (Ok tt, w2)
      /\ redis w2 !! k = None).
    { destruct (redis w !! k) as [e|] eqn:Hk.
      - assert (Hin : In k keys) by apply (keys_matching _ (redis w) _ e Hk Hg).
        destruct keys as [|x keys'] eqn:Hkeys'; [exfalso; exact Hin|].
        eexists. unfold redis_del. rewrite store_call_eq.
        cbn [ticked set_clock clock]. rewrite Hf1. split; [reflexivity|].
        exact (del_keys_In (x :: keys') (redis w) _ Hin).
      - destruct keys as [|x keys'] eqn:Hkeys'.
        + exists (ticked w). split; [reflexivity|exact Hk].
        + eexists. unfold redis_del. rewrite store_call_eq.
          cbn [ticked set_clock clock]. rewrite Hf1. split; [reflexivity|].
          exact (del_keys_None (x :: keys') (redis w) _ Hk). }
    destruct Hdel as (w2 & Hdel & H2).
    unfold deleteDocumentFromCache, try_catch.
    rewrite (bind_Ok _ _ _ _ _ Hkeys), (bind_Ok _ _ _ _ _ Hdel).
    exact (Hrest w2 _ H2). }
  split; [exact Hall|]. intros Hg i. apply Hall, glob_chunkKey, Hg.
Qed.

(** The scan of the Answer Cache collects no key whose entry is a hash,
    or a text that does not contain the document id. *)
Lemma keeps_collectRelated_entry (documentId k key : string) (e : RedisEntry)
    (acc : list string) :
  match value e with RString s => includes s documentId = false | RHash _ => True end ->
  ~ In k acc ->
  keeps k e (collectRelated fault documentId key acc) (fun acc' => ~ In k acc').
Proof.
  intros Hs Hn. unfold collectRelated.
  apply (keeps_bind _ _ _ _ _ _ (keeps_redis_get fault _ _ key)). intros c Hc.
  destruct c as [c|]; [|apply keeps_ret; exact Hn].
  destruct (truthy c && includes c documentId) eqn:Hb; apply keeps_ret; [|exact Hn].
  intros Hin. apply in_app_or in Hin as [Hin|[Hin|[]]]; [exact (Hn Hin)|].
  specialize (Hc Hin). destruct (value e) as [s|h]; [|exact Hc].
  inversion Hc; subst c. rewrite Hs, andb_false_r in Hb. discriminate Hb.
Qed.

(** An entry that the pattern of the document does not match, and that
    is a hash or a text without the document id, is kept. *)
Lemma keeps_deleteDocumentFromCache (documentId k : string) (e : RedisEntry) :
  glob ("doc:" +:+ documentId +:+ ":*") k = false ->
  match value e with RString s => includes s documentId = false | RHash _ => True end ->
  keeps k e (deleteDocumentFromCache fault documentId) (fun _ => True).
Proof.
  intros Hg Hs. unfold deleteDocumentFromCache.
  apply keeps_try_catch; [|intros; apply keeps_ret; exact I].
  apply (keeps_bind _ _ _ _ _ _ (keeps_redis_keys fault _ _ _)). intros keys Hkeys.
  assert (Hn : ~ In k keys) by (intros Hin; rewrite (Hkeys Hin) in Hg; discriminate Hg).
  apply (keeps_bind _ _ _ _ (fun _ => True)).
  { destruct keys; [apply keeps_ret; exact I|apply keeps_redis_del; exact Hn]. }
  intros _ _.
  apply (keeps_bind _ _ _ _ _ _ (keeps_redis_keys fault _ _ _)). intros answerKeys _.
  apply (keeps_bind _ _ _ _ (fun acc => ~ In k acc)).
  { apply keeps_forM; [|intros []].
    intros key acc Hacc. apply keeps_collectRelated_entry; assumption. }
  intros related Hr.
  destruct related; [apply keeps_ret; exact I|apply keeps_redis_del; exact Hr].
Qed.

(** X11. What the invalidation spares: an entry under a key that the
    pattern [doc:<id>:*] does not match is still there, unchanged, after
    [deleteDocumentFromCache], whatever the cache store does, when it is
    a hash or a text that does not contain the document id. *)
Theorem deleteDocumentFromCache_spares (documentId k : string) (e : RedisEntry)
    (w : World) :
  redis w !! k = Some e ->
  glob ("doc:" +:+ documentId +:+ ":*") k = false ->
  match value e with RString s => includes s documentId = false | RHash _ => True end ->
  redis (snd (deleteDocumentFromCache fault documentId w)) !! k = Some e.
Proof.
  intros Hk Hg Hs. apply (keeps_deleteDocumentFromCache documentId k e Hg Hs w Hk).
Qed.

(** X12. The passages of other documents: deleting the cache entries of
    one document leaves every Passage Cache entry of another document in
    place, whatever the cache store does; the ids are [ObjectId] texts. *)
Theorem deleteDocumentFromCache_other_documents (documentId otherId : string) (i : Z)
    (h : PassageHash) (t : option Z) (w : World) :
  isObjectId documentId = true -> isObjectId otherId = true ->
  documentId <> otherId ->
  redis w !! chunkKey otherId i = Some {| value := RHash h; ttl := t |} ->
  redis (snd (deleteDocumentFromCache fault documentId w)) !! chunkKey otherId i
  = Some {| value := RHash h; ttl := t |}.
Proof.
  intros Hid Hother Hne Hk.
  destruct (isObjectId_plain _ Hid) as [Hg Hc].
  destruct (isObjectId_plain _ Hother) as [_ Hc'].
  apply (keeps_deleteDocumentFromCache documentId (chunkKey otherId i)
           {| value := RHash h; ttl := t |}
           (glob_other_chunkKey documentId otherId i Hg Hc Hc' Hne) I w Hk).
Qed.

Lemma Document_findById_eq (id : string) (w : World) :
  Document_findById fault id w
  = if fault (clock w) then (Throw "mongo failed", ticked w)
    else (Ok (find (fun d => String.eqb (doc_id d) id) (documents w)), ticked w).
Proof. unfold Document_findById. rewrite store_call_eq. reflexivity. Qed.

Lemma Document_findByIdAndDelete_eq (id : string) (w : World) :
  Document_findByIdAndDelete fault id w
  = if fault (clock w) then (Throw "mongo failed", ticked w)
    else (Ok tt, set_documents (List.filter (fun d => negb (String.eqb (doc_id d) id)))
                   (ticked w)).
Proof. unfold Document_findByIdAndDelete. rewrite store_call_eq. reflexivity. Qed.

(** The run of the [deleteDocument] controller when the document store
    answers and holds the document. *)
Lemma deleteDocument_found (id : string) (w : World) (d : Document) :
  fault (clock w) = false -> fault (S (clock w)) = false ->
  find (fun d => String.eqb (doc_id d) id) (documents w) = Some d ->
  exists w',
    deleteDocument fault id w = (Ok 200%Z, w')
    /\ documents w'
       = List.filter (fun d => negb (String.eqb (doc_id d) id)) (documents w)
    /\ redis w' ⊆ redis w
    /\ prompts w' = prompts w /\ searches w' = searches w.
Proof.
  intros Hf0 Hf1 Hfind. unfold deleteDocument, bind.
  rewrite Document_findById_eq, Hf0, Hfind, Document_findByIdAndDelete_eq.
  cbn [ticked set_clock clock]. rewrite Hf1.
  set (w1 := set_documents _ _).
  pose proof (triple_onlyEvicted_deleteDocumentFromCache w1 id w1 (onlyEvicted_refl w1)) as H.
  unfold try_catch at 1.
  destruct (deleteDocumentFromCache fault id w1) as [[[]|e] w']; [|destruct H].
  destruct H as (Hr & Hd & Hp & Hs). exists w'. unfold ret.
  split; [reflexivity|]. split; [rewrite Hd; reflexivity|].
  split; [exact Hr|]. split; [rewrite Hp|rewrite Hs]; reflexivity.
Qed.

(** X13. The [deleteDocument] controller, for an id in the spelling
    of the store (24 hexadecimal digits in lower case, for which the
    lookup by text is the lookup of the store). When the document store
    answers the lookup and holds no document of the id, the reply is
    404 and nothing has changed. When it holds one and answers the
    deletion too, the reply is 200 whatever the cache store does
    afterwards: the documents of that id are gone, the others are kept
    in their order, and the cache has lost entries at most. *)
Theorem deleteDocument_replies (id : string) (w : World) :
  isObjectId id = true ->
  fault (clock w) = false ->
  (find (fun d => String.eqb (doc_id d) id) (documents w) = None ->
   deleteDocument fault id w = (Ok 404%Z, ticked w))
  /\ (fault (S (clock w)) = false ->
      forall d, find (fun d => String.eqb (doc_id d) id) (documents w) = Some d ->
      exists w',
        deleteDocument fault id w = (Ok 200%Z, w')
        /\ documents w'
           = List.filter (fun d => negb (String.eqb (doc_id d) id)) (documents w)
        /\ (forall k e, redis w' !! k = Some e -> redis w !! k = Some e)
        /\ prompts w' = prompts w /\ searches w' = searches w).
Proof.
  intros _ Hf0. split.
  - intros Hfind. unfold deleteDocument, bind.
    rewrite Document_findById_eq, Hf0, Hfind. reflexivity.
  - intros Hf1 d Hfind.
    destruct (deleteDocument_found id w d Hf0 Hf1 Hfind) as (w' & H & Hd & Hr & Hrest).
    exists w'. split; [exact H|]. split; [exact Hd|]. split; [|exact Hrest].
    intros k e Hk. apply (lookup_weaken _ _ _ _ Hk Hr).
Qed.

(** X14. A deleted document is not retrieved: after [deleteDocument]
    has answered 200 for an id, a retrieval, whatever the query and
    whatever the cache still holds, returns no passage of a document of
    that id. *)
Theorem deleted_document_not_retrieved (id query : string) (topK : nat) (w w' : World) :
  deleteDocument fault id w = (Ok 200%Z, w') ->
  exists chunks w'',
    retrieveRelevantChunks fault Math_sin Math_cos query topK w' = (Ok chunks, w'')
    /\ Forall (fun c => c_docId c <> id) chunks.
Proof.
  intros H.
  assert (Hdocs : Forall (fun d => doc_id d <> id) (documents w')).
  { unfold deleteDocument, bind in H. rewrite Document_findById_eq in H.
    destruct (fault (clock w)); [discriminate H|].
    destruct (find _ (documents w)) as [d|] eqn:Hfind; [|discriminate H].
    rewrite Document_findByIdAndDelete_eq in H. cbn [ticked set_clock clock] in H.
    destruct (fault (S (clock w))); [discriminate H|].
    set (w1 := set_documents _ _) in H.
    pose proof (triple_onlyEvicted_deleteDocumentFromCache w1 id w1 (onlyEvicted_refl w1))
      as Hc.
    unfold try_catch at 1 in H.
    destruct (deleteDocumentFromCache fault id w1) as [[[]|e] w2]; [|destruct Hc].
    unfold ret in H. inversion H; subst w2. destruct Hc as (_ & -> & _).
    subst w1. cbn [set_documents documents ticked set_clock].
    apply List.Forall_forall. intros d' Hin. apply filter_In in Hin as [_ Hin].
    apply negb_true_iff, String.eqb_neq in Hin. exact Hin. }
  pose proof (triple_retrieveRelevantChunks fault Math_sin Math_cos w' query topK w'
                (sameStores_refl w')) as Hr.
  destruct (retrieveRelevantChunks fault Math_sin Math_cos query topK w')
    as [[chunks|e] w'']; [|destruct Hr].
  destruct Hr as (_ & _ & Hfrom). exists chunks, w''. split; [reflexivity|].
  apply List.Forall_forall. intros c Hc.
  rewrite List.Forall_forall in Hfrom. destruct (Hfrom c Hc) as (d & Hd & _ & (Hid & _) & _).
  rewrite List.Forall_forall in Hdocs. rewrite Hid. apply Hdocs, Hd.
Qed.

End InvalidationProperties.

(* ================================================================== *)
(** ** The key space of the cache *)
(* ================================================================== *)

Lemma append_nil (s : string) : "" +:+ s = s.
Proof. reflexivity. Qed.

Lemma append_cons (c : ascii) (a b : string) : String c a +:+ b = String c (a +:+ b).
Proof. reflexivity. Qed.

Lemma append_assoc3 (a b c : string) : (a +:+ b) +:+ c = a +:+ b +:+ c.
Proof.
  induction a as [|x a IH]; [reflexivity|].
  change (String x ((a +:+ b) +:+ c) = String x (a +:+ b +:+ c)). f_equal. exact IH.
Qed.

Lemma append_inv_head (a x y : string) : a +:+ x = a +:+ y -> x = y.
Proof.
  induction a as [|c a IH]; intros H; [exact H|].
  change (String c (a +:+ x) = String c (a +:+ y)) in H. inversion H. apply IH. assumption.
Qed.

Lemma colonFree_append (a b : string) :
  colonFree (a +:+ b) = colonFree a && colonFree b.
Proof.
  induction a as [|c a IH]; [reflexivity|].
  change (colonFree (String c (a +:+ b)) = colonFree (String c a) && colonFree b).
  cbn [colonFree]. rewrite IH. apply andb_assoc.
Qed.

(** A text is cut at its last colon in one way only. *)
Lemma last_colon_split (x1 x2 y1 y2 : string) :
  colonFree y1 = true -> colonFree y2 = true ->
  x1 +:+ ":" +:+ y1 = x2 +:+ ":" +:+ y2 -> x1 = x2 /\ y1 = y2.
Proof.
  intros H1 H2. revert x2. induction x1 as [|c x1 IH]; intros x2 H.
  - destruct x2 as [|d x2]; rewrite ?append_cons, ?append_nil in H.
    + inversion H. split; reflexivity.
    + inversion H as [[Hd Hy]]. subst y1.
      rewrite colonFree_append, ?append_cons in H1. cbn [colonFree] in H1.
      rewrite andb_false_r in H1. discriminate H1.
  - destruct x2 as [|d x2]; rewrite ?append_cons, ?append_nil in H.
    + inversion H as [[Hc Hy]]. subst y2.
      rewrite colonFree_append, ?append_cons in H2. cbn [colonFree] in H2.
      rewrite andb_false_r in H2. discriminate H2.
    + inversion H as [[Hc Hx]]. destruct (IH x2 Hx) as [-> ->].
      split; reflexivity.
Qed.

Lemma colonFree_substring (n m : nat) (s : string) :
  colonFree s = true -> colonFree (String.substring n m s) = true.
Proof.
  revert n m. induction s as [|c s IH]; intros n m H.
  - destruct n, m; reflexivity.
  - cbn [colonFree] in H. apply andb_true_iff in H as [Hc Hs].
    destruct n as [|n]; cbn [String.substring].
    + destruct m as [|m]; [reflexivity|]. cbn [colonFree]. rewrite Hc. apply IH, Hs.
    + apply IH, Hs.
Qed.

(** The bytes of [Buffer.from(s)] are bytes. *)
Lemma utf8_bytes (s : string) : Forall (fun b => 0 <= b < 256)%Z (utf8 s).
Proof.
  induction s as [|c s IH]; [constructor|]. cbn [utf8].
  assert (Hc : (0 <= charCode c < 256)%Z).
  { unfold charCode. pose proof (N_ascii_bounded c). lia. }
  destruct (Z.ltb_spec (charCode c) 128).
  - constructor; [lia|exact IH].
  - constructor; [|constructor; [|exact IH]].
    + assert (charCode c / 64 < 4)%Z by (apply Z.div_lt_upper_bound; lia).
      assert (0 <= charCode c / 64)%Z by (apply Z.div_pos; lia). lia.
    + pose proof (Z.mod_pos_bound (charCode c) 64). lia.
Qed.

(** No character of the base64 alphabet is a colon. *)
Lemma b64char_colon (n : Z) : (0 <= n < 64)%Z -> Ascii.eqb (b64char n) ":" = false.
Proof.
  intros H.
  assert (Hall : forallb (fun k => negb (Ascii.eqb (b64char (Z.of_nat k)) ":")) (seq 0 64)
                 = true) by (vm_compute; reflexivity).
  rewrite forallb_forall in Hall. specialize (Hall (Z.to_nat n)).
  rewrite Z2Nat.id in Hall by lia. apply negb_true_iff, Hall, in_seq. lia.
Qed.

Lemma colonFree_base64 (bytes : list Z) :
  Forall (fun b => 0 <= b < 256)%Z bytes -> colonFree (base64 bytes) = true.
Proof.
  assert (Hq : forall a, (0 <= a < 256)%Z -> (0 <= a / 4 < 64)%Z).
  { intros a Ha. split; [apply Z.div_pos; lia|apply Z.div_lt_upper_bound; lia]. }
  assert (Hr : forall a b, (0 <= a < 256)%Z -> (0 <= b < 256)%Z ->
                 (0 <= a mod 4 * 16 + b / 16 < 64)%Z).
  { intros a b Ha Hb. pose proof (Z.mod_pos_bound a 4).
    assert (0 <= b / 16 < 16)%Z
      by (split; [apply Z.div_pos; lia|apply Z.div_lt_upper_bound; lia]). lia. }
  assert (Hs : forall b c, (0 <= b < 256)%Z -> (0 <= c < 256)%Z ->
                 (0 <= b mod 16 * 4 + c / 64 < 64)%Z).
  { intros b c Hb Hc. pose proof (Z.mod_pos_bound b 16).
    assert (0 <= c / 64 < 4)%Z
      by (split; [apply Z.div_pos; lia|apply Z.div_lt_upper_bound; lia]). lia. }
  assert (H : forall n bytes, (length bytes <= n)%nat ->
                Forall (fun b => 0 <= b < 256)%Z bytes -> colonFree (base64 bytes) = true).
  { induction n as [|n IH]; intros l Hl Hb.
    - destruct l; [reflexivity|cbn in Hl; lia].
    - destruct l as [|a [|b [|c rest]]]; [reflexivity| | |].
      + inversion Hb; subst. cbn [base64 colonFree].
        rewrite b64char_colon by (apply Hq; assumption).
        rewrite b64char_colon by (pose proof (Z.mod_pos_bound a 4); lia). reflexivity.
      + inversion Hb as [|? ? Ha Hb']; subst. inversion Hb' as [|? ? Hb0 _]; subst.
        cbn [base64 colonFree].
        rewrite b64char_colon by (apply Hq; assumption).
        rewrite b64char_colon by (apply Hr; assumption).
        rewrite b64char_colon by (pose proof (Z.mod_pos_bound b 16); lia). reflexivity.
      + inversion Hb as [|? ? Ha Hb']; subst. inversion Hb' as [|? ? Hb0 Hb'']; subst.
        inversion Hb'' as [|? ? Hc0 Hrest]; subst.
        rewrite base64_cons3. cbn [colonFree].
        rewrite b64char_colon by (apply Hq; assumption).
        rewrite b64char_colon by (apply Hr; assumption).
        rewrite b64char_colon by (apply Hs; assumption).
        rewrite b64char_colon by (pose proof (Z.mod_pos_bound c 64); lia).
        cbn [negb andb]. apply IH; [cbn [length] in Hl; lia|exact Hrest]. }
  apply (H (length bytes)). lia.
Qed.

(** The parts of an Answer Cache key: the room, the setting of the web
    search and the first 50 characters of the base64 text of the
    question. *)
Lemma answerCacheKey_parts (room1 room2 question1 question2 : string)
    (enabled1 enabled2 : bool) :
  answerCacheKey room1 question1 enabled1 = answerCacheKey room2 question2 enabled2 ->
  room1 = room2 /\ enabled1 = enabled2
  /\ substring0 50 (base64 (utf8 question1)) = substring0 50 (base64 (utf8 question2)).
Proof.
  unfold answerCacheKey. intros H. apply (append_inv_head "answer:") in H.
  set (b1 := substring0 50 (base64 (utf8 question1))) in *.
  set (b2 := substring0 50 (base64 (utf8 question2))) in *.
  assert (Hb : forall q, colonFree (substring0 50 (base64 (utf8 q))) = true).
  { intros q. apply colonFree_substring, colonFree_base64, utf8_bytes. }
  change (room1 +:+ ":" +:+ b1 +:+ ":" +:+ ("ws" +:+ JSON_bool enabled1)
          = room2 +:+ ":" +:+ b2 +:+ ":" +:+ ("ws" +:+ JSON_bool enabled2)) in H.
  rewrite <- (append_assoc3 ":" b1), <- (append_assoc3 room1) in H.
  rewrite <- (append_assoc3 ":" b2), <- (append_assoc3 room2) in H.
  apply last_colon_split in H as [H Hflag];
    [|destruct enabled1; reflexivity|destruct enabled2; reflexivity].
  apply last_colon_split in H as [Hroom Hq]; [|apply Hb|apply Hb].
  split; [exact Hroom|]. split; [|exact Hq].
  destruct enabled1, enabled2; try reflexivity; discriminate Hflag.
Qed.

(** X15. Answer Cache keys keep rooms and settings apart: two calls
    to [generateAnswer] have the same key only when they are made in the
    same room, with the same setting of the web search, for questions
    whose base64 texts agree on their first 50 characters; and no Answer
    Cache key is a Passage Cache key. *)
Theorem answerCacheKey_separates (room1 room2 question1 question2 : string)
    (enabled1 enabled2 : bool) :
  (answerCacheKey room1 question1 enabled1 = answerCacheKey room2 question2 enabled2 ->
   room1 = room2 /\ enabled1 = enabled2
   /\ substring0 50 (base64 (utf8 question1)) = substring0 50 (base64 (utf8 question2)))
  /\ forall documentId i, answerCacheKey room1 question1 enabled1 <> chunkKey documentId i.
Proof.
  split; [apply answerCacheKey_parts|intros documentId i H; discriminate H].
Qed.

Lemma chunkKey_inj (id1 id2 : string) (i1 i2 : Z) :
  colonFree id1 = true -> colonFree id2 = true ->
  chunkKey id1 i1 = chunkKey id2 i2 -> id1 = id2 /\ i1 = i2.
Proof.
  intros H1 H2 H. unfold chunkKey in H. apply (append_inv_head "doc:") in H.
  change (id1 +:+ ":" +:+ ("chunk:" +:+ pretty i1) = id2 +:+ ":" +:+ ("chunk:" +:+ pretty i2))
    in H.
  pose proof (colonFree_prefix_eq _ _ _ _ H1 H2 H) as Hid. subst id2.
  split; [reflexivity|].
  apply append_inv_head in H. apply (append_inv_head ":chunk:") in H.
  apply (inj pretty). exact H.
Qed.

(** X16. Passage Cache keys keep documents and chunks apart: for ids
    without a colon, as [ObjectId] texts are, the keys of two different
    documents, or of two different chunk indices, are different. *)
Theorem chunkKey_separates (id1 id2 : string) (i1 i2 : Z) :
  colonFree id1 = true -> colonFree id2 = true ->
  id1 <> id2 \/ i1 <> i2 ->
  chunkKey id1 i1 <> chunkKey id2 i2.
Proof.
  intros H1 H2 Hne H. apply (chunkKey_inj _ _ _ _ H1 H2) in H as [Hid Hi].
  destruct Hne as [Hne|Hne]; contradiction.
Qed.

(* ================================================================== *)
(** ** Embedder: the range of the hash *)
(* ================================================================== *)

Lemma toInt32_range (z : Z) : (- 2 ^ 31 <= toInt32 z < 2 ^ 31)%Z.
Proof. unfold toInt32. pose proof (Z.mod_pos_bound (z + 2 ^ 31) (2 ^ 32)). lia. Qed.

(** X17. The range of [simpleHash]: the hash of a text is an integer
    between 0 and 2^31, and 0 for the empty text; so the arguments
    [hash + i] and [hash * 2 + i] that [generateEmbedding] hands to the
    sine and the cosine are integers below 2^53, which a Number holds
    exactly. *)
Theorem simpleHash_range (text : string) :
  (0 <= simpleHash text <= 2 ^ 31)%Z
  /\ simpleHash "" = 0%Z
  /\ forall i : nat, (i < EMBEDDING_DIM)%nat ->
       (0 <= simpleHash text + Z.of_nat i < 2 ^ 53)%Z
       /\ (0 <= simpleHash text * 2 + Z.of_nat i < 2 ^ 53)%Z.
Proof.
  assert (H : (0 <= simpleHash text <= 2 ^ 31)%Z).
  { rewrite simpleHash_code_hash. unfold code_hash.
    pose proof (toInt32_range (polyHash text)). lia. }
  split; [exact H|]. split; [reflexivity|].
  intros i Hi. unfold EMBEDDING_DIM in Hi. lia.
Qed.

(* ================================================================== *)
(** ** The search terms *)
(* ================================================================== *)

Lemma existsb_eqb_In (x : string) (seen : list string) :
  existsb (String.eqb x) seen = true <-> In x seen.
Proof.
  rewrite existsb_exists. split.
  - intros (y & Hy & He). apply String.eqb_eq in He. subst y. exact Hy.
  - intros H. exists x. split; [exact H|apply String.eqb_refl].
Qed.

(** [[...new Set(l)]] has no duplicates, and holds elements of [l]. *)
Lemma dedupFirst_spec (seen l : list string) :
  NoDup (dedupFirst seen l)
  /\ forall x, In x (dedupFirst seen l) -> In x l /\ ~ In x seen.
Proof.
  revert seen. induction l as [|x l IH]; intros seen.
  - split; [constructor|intros x []].
  - cbn [dedupFirst]. destruct (existsb (String.eqb x) seen) eqn:He.
    + destruct (IH seen) as [Hn Hin]. split; [exact Hn|].
      intros y Hy. destruct (Hin y Hy) as [H1 H2]. split; [right; exact H1|exact H2].
    + destruct (IH (x :: seen)) as [Hn Hin]. split.
      * constructor; [|exact Hn]. intros Hx. apply list_elem_of_In in Hx.
        destruct (Hin x Hx) as [_ H]. apply H. left. reflexivity.
      * intros y [<-|Hy].
        -- split; [left; reflexivity|]. intros Hx. apply existsb_eqb_In in Hx.
           rewrite Hx in He. discriminate He.
        -- destruct (Hin y Hy) as [H1 H2]. split; [right; exact H1|].
           intros Hs. apply H2. right. exact Hs.
Qed.

Lemma split_spaceFree (s : string) : Forall (fun w => spaceFree w = true) (split " " s).
Proof.
  induction s as [|c s IH]; [repeat constructor|].
  cbn [split]. destruct (Ascii.eqb c " ") eqn:Hc.
  - constructor; [reflexivity|exact IH].
  - destruct (split " " s) as [|w ws]; [repeat constructor; cbn; rewrite Hc; reflexivity|].
    inversion IH; subst. constructor; [|assumption]. cbn [spaceFree]. rewrite Hc. assumption.
Qed.

Lemma In_firstn_In {A} (x : A) (n : nat) (l : list A) : In x (firstn n l) -> In x l.
Proof.
  revert n. induction l as [|y l IH]; intros [|n] H; try destruct H.
  - left. assumption.
  - right. apply (IH n). assumption.
Qed.

Lemma dedupFirst_app (seen a b : list string) :
  exists rest, dedupFirst seen (a ++ b) = dedupFirst seen a ++ rest.
Proof.
  revert seen. induction a as [|x a IH]; intros seen.
  - exists (dedupFirst seen b). reflexivity.
  - cbn [app dedupFirst]. destruct (existsb (String.eqb x) seen).
    + apply IH.
    + destruct (IH (x :: seen)) as [rest ->]. exists rest. reflexivity.
Qed.

(** X18. The search terms of [extractSearchTerms]: the query it
    returns is at most six terms joined by single spaces; the terms are
    distinct, each is longer than two characters and has no space, and
    each is a word of the lower-cased, cleaned user query or document
    text; the words of the user query come first. *)
Theorem extractSearchTerms_terms (documentContent userQuery : string) :
  let words := fun text : string =>
    split " " (replaceChars notWordNorSpace " " (toLowerCase text)) in
  exists terms more,
    extractSearchTerms documentContent userQuery = join " " terms
    /\ (length terms <= 6)%nat
    /\ NoDup terms
    /\ Forall (fun t => (2 < String.length t)%nat /\ spaceFree t = true) terms
    /\ (forall t, In t terms -> In t (words userQuery) \/ In t (words documentContent))
    /\ terms = firstn 6 (dedupFirst [] (List.filter (longerThan 2) (words userQuery)))
               ++ more.
Proof.
  cbv zeta. unfold extractSearchTerms.
  set (dw := firstn 10 (List.filter (longerThan 3)
               (split " " (replaceChars notWordNorSpace " " (toLowerCase documentContent))))).
  set (qw := List.filter (longerThan 2)
               (split " " (replaceChars notWordNorSpace " " (toLowerCase userQuery)))).
  destruct (dedupFirst_spec [] (qw ++ dw)) as [Hnodup Hin].
  destruct (dedupFirst_app [] qw dw) as [rest Hrest].
  exists (firstn 6 (dedupFirst [] (qw ++ dw))),
         (firstn (6 - length (dedupFirst [] qw)) rest).
  split; [reflexivity|]. split; [rewrite length_firstn; lia|].
  split; [apply (sublist_NoDup _ _ Hnodup), sublist_take|].
  assert (Hfrom : forall t, In t (firstn 6 (dedupFirst [] (qw ++ dw))) ->
            In t qw \/ In t dw).
  { intros t Ht. apply In_firstn_In in Ht. apply Hin in Ht as [Ht _].
    apply in_app_or, Ht. }
  split; [|split].
  - apply List.Forall_forall. intros t Ht. destruct (Hfrom t Ht) as [H|H].
    + subst qw. apply filter_In in H as [H Hl]. split.
      * unfold longerThan in Hl. apply Nat.ltb_lt in Hl. exact Hl.
      * pose proof (split_spaceFree (replaceChars notWordNorSpace " " (toLowerCase userQuery)))
          as Hs. rewrite List.Forall_forall in Hs. apply Hs, H.
    + subst dw. apply In_firstn_In in H. apply filter_In in H as [H Hl]. split.
      * unfold longerThan in Hl. apply Nat.ltb_lt in Hl. lia.
      * pose proof (split_spaceFree
                      (replaceChars notWordNorSpace " " (toLowerCase documentContent))) as Hs.
        rewrite List.Forall_forall in Hs. apply Hs, H.
  - intros t Ht. destruct (Hfrom t Ht) as [H|H].
    + left. subst qw. apply filter_In in H. apply H.
    + right. subst dw. apply In_firstn_In in H. apply filter_In in H. apply H.
  - rewrite Hrest. apply firstn_app.
Qed.

(* ================================================================== *)
(** ** Passage Cache: what is written is what is read *)
(* ================================================================== *)

Section PassageCacheProperties.

Context (fault : nat -> bool) (Math_sin Math_cos : float -> float).

Lemma chunkKey_index_inj (documentId : string) (i j : Z) :
  chunkKey documentId i = chunkKey documentId j -> i = j.
Proof.
  unfold chunkKey. intros H. apply (append_inv_head "doc:") in H.
  apply append_inv_head in H. apply (append_inv_head ":chunk:") in H.
  apply (inj pretty). exact H.
Qed.

(** One chunk, when the cache store answers and the key holds no text:
    the hash is written and set to expire. *)
Lemma cacheChunk_written (documentId fname : string) (chunk : Chunk) (w : World) :
  fault (clock w) = false -> fault (S (clock w)) = false ->
  (forall s t, redis w !! chunkKey documentId (chunk_index chunk)
               <> Some {| value := RString s; ttl := t |}) ->
  cacheChunk fault Math_sin Math_cos documentId fname chunk w
  = (Ok tt,
     set_redis (insert (chunkKey documentId (chunk_index chunk))
                  (passageEntry Math_sin Math_cos documentId fname chunk))
       (ticked (ticked w))).
Proof.
  intros Hf0 Hf1 Hk. unfold cacheChunk, try_catch, bind, redis_hSet, redis_expire.
  rewrite store_call_eq, Hf0. cbn [ticked set_clock redis].
  destruct (redis w !! chunkKey documentId (chunk_index chunk)) as [[[s|h] t]|] eqn:Hl.
  - exfalso. apply (Hk s t). reflexivity.
  - rewrite store_call_eq. cbn [set_redis clock ticked set_clock redis]. rewrite Hf1.
    rewrite lookup_insert_eq. unfold passageEntry, set_redis, ticked, set_clock.
    cbn [redis documents clock prompts searches value]. rewrite insert_insert_eq.
    reflexivity.
  - rewrite store_call_eq. cbn [set_redis clock ticked set_clock redis]. rewrite Hf1.
    rewrite lookup_insert_eq. unfold passageEntry, set_redis, ticked, set_clock.
    cbn [redis documents clock prompts searches value]. rewrite insert_insert_eq.
    reflexivity.
Qed.

Lemma generateAndCacheEmbeddings_written (documentId fname : string)
    (chunks : list Chunk) :
  (forall t, fault t = false) ->
  NoDup (map chunk_index chunks) ->
  forall w,
    (forall c s t, In c chunks ->
       redis w !! chunkKey documentId (chunk_index c)
       <> Some {| value := RString s; ttl := t |}) ->
    exists w',
      generateAndCacheEmbeddings fault Math_sin Math_cos documentId chunks fname w
      = (Ok tt, w')
      /\ documents w' = documents w /\ prompts w' = prompts w /\ searches w' = searches w
      /\ (forall c, In c chunks ->
            redis w' !! chunkKey documentId (chunk_index c)
            = Some (passageEntry Math_sin Math_cos documentId fname c))
      /\ (forall k, (forall c, In c chunks -> k <> chunkKey documentId (chunk_index c)) ->
            redis w' !! k = redis w !! k).
Proof.
  intros Hf. unfold generateAndCacheEmbeddings.
  induction chunks as [|c chunks IH]; intros Hnd w Hk.
  - exists w. repeat split; intros c [].
  - cbn [map] in Hnd. apply NoDup_cons in Hnd as [Hc Hnd]. cbn [forM].
    pose proof (cacheChunk_written documentId fname c w (Hf _) (Hf _)
                  (fun s t => Hk c s t (or_introl eq_refl))) as H1.
    rewrite (bind_Ok _ _ _ _ _ H1).
    set (w1 := set_redis _ _) in *.
    assert (Hother : forall c', In c' chunks ->
              chunkKey documentId (chunk_index c') <> chunkKey documentId (chunk_index c)).
    { intros c' Hin Heq. apply chunkKey_index_inj in Heq. apply Hc.
      rewrite <- Heq. apply list_elem_of_In, in_map, Hin. }
    destruct (IH Hnd w1) as (w' & Hrun & Hd & Hp & Hs & Hin & Hout).
    { intros c' s t Hc'. subst w1. cbn [set_redis redis ticked set_clock].
      rewrite lookup_insert_ne by (apply not_eq_sym, Hother, Hc').
      apply Hk. right. exact Hc'. }
    exists w'. split; [exact Hrun|]. split; [rewrite Hd; reflexivity|].
    split; [rewrite Hp; reflexivity|]. split; [rewrite Hs; reflexivity|]. split.
    + intros c' [<-|Hc']; [|apply Hin, Hc'].
      rewrite Hout by (intros c' Hc'; apply not_eq_sym, Hother, Hc').
      subst w1. cbn [set_redis redis]. apply lookup_insert_eq.
    + intros k Hkk. rewrite Hout by (intros c' Hc'; apply Hkk; right; exact Hc').
      subst w1. cbn [set_redis redis ticked set_clock].
      apply lookup_insert_ne. apply not_eq_sym, Hkk. left. reflexivity.
Qed.

(** X19. The Passage Cache round trip. When the cache store answers,
    the chunk indices are distinct and no key of the chunks holds a
    text, [generateAndCacheEmbeddings] leaves under the key of each
    chunk the hash of its text, its embedding, the document id and the
    file name, to expire after 86400 seconds, and touches no other key;
    and the Retriever's lookup of chunk [i] of a document of that id,
    not a PDF, then finds the text and the embedding of the chunk of
    index [i], when that text is not empty. *)
Theorem generateAndCacheEmbeddings_round_trip (documentId fname : string)
    (chunks : list Chunk) (w : World) :
  (forall t, fault t = false) ->
  NoDup (map chunk_index chunks) ->
  (forall c s t, In c chunks ->
     redis w !! chunkKey documentId (chunk_index c)
     <> Some {| value := RString s; ttl := t |}) ->
  exists w',
    generateAndCacheEmbeddings fault Math_sin Math_cos documentId chunks fname w = (Ok tt, w')
    /\ (forall c, In c chunks ->
          redis w' !! chunkKey documentId (chunk_index c)
          = Some {| value := RHash {| ph_text := chunk_text c;
                                      ph_embedding :=
                                        generateEmbedding Math_sin Math_cos (chunk_text c);
                                      ph_docId := documentId; ph_filename := fname |};
                    ttl := Some 86400%Z |})
    /\ (forall k, (forall c, In c chunks -> k <> chunkKey documentId (chunk_index c)) ->
          redis w' !! k = redis w !! k)
    /\ (forall (doc : Document) (i : nat) (c : Chunk),
          doc_id doc = documentId -> fileType doc <> ".pdf" ->
          In c chunks -> chunk_index c = Z.of_nat i -> chunk_text c <> "" ->
          exists h,
            cachedPassage fault doc i w' = (Ok (Some h), ticked w')
            /\ ph_text h = chunk_text c
            /\ ph_embedding h = generateEmbedding Math_sin Math_cos (chunk_text c)).
Proof.
  intros Hf Hnd Hk.
  destruct (generateAndCacheEmbeddings_written documentId fname chunks Hf Hnd w Hk)
    as (w' & Hrun & _ & _ & _ & Hin & Hout).
  exists w'. split; [exact Hrun|]. split; [exact Hin|]. split; [exact Hout|].
  intros doc i c Hid Hpdf Hc Hi Htext.
  exists {| ph_text := chunk_text c;
            ph_embedding := generateEmbedding Math_sin Math_cos (chunk_text c);
            ph_docId := documentId; ph_filename := fname |}.
  split; [|split; reflexivity].
  unfold cachedPassage. apply String.eqb_neq in Hpdf. rewrite Hpdf. cbn [negb].
  unfold bind, redis_hGetAll. rewrite store_call_eq, Hf. cbn [ticked set_clock redis].
  rewrite Hid, <- Hi, (Hin c Hc). unfold passageEntry. cbn [value ph_text].
  destruct (chunk_text c) as [|x s]; [contradiction|]. reflexivity.
Qed.

End PassageCacheProperties.

(* ================================================================== *)
(** ** Processing and reprocessing a document *)
(* ================================================================== *)

Section ProcessingProperties.

Context (fault : nat -> bool) (Math_sin Math_cos : float -> float)
  (newObjectId : nat -> string).

Local Abbreviation process := (processDocument fault Math_sin Math_cos newObjectId).
Local Abbreviation reprocess := (reprocessDocument fault Math_sin Math_cos newObjectId).

Lemma Document_insert_eq (d : Document) (w : World) :
  Document_insert fault d w
  = if negb (isValidDocument d) then (Throw "ValidationError", w)
    else if fault (clock w) then (Throw "mongo failed", ticked w)
    else if existsb (fun d' => String.eqb (doc_id d') (doc_id d)
                               || String.eqb (filename d') (filename d)) (documents w)
    then (Throw "E11000 duplicate key error", ticked w)
    else (Ok tt, set_documents (fun l => l ++ [d]) (ticked w)).
Proof.
  unfold Document_insert. destruct (negb (isValidDocument d)); [reflexivity|].
  rewrite store_call_eq. reflexivity.
Qed.

Lemma Document_saveStatus_eq (id : string) (s : Status) (w : World) :
  Document_saveStatus fault id s w
  = if fault (clock w) then (Throw "mongo failed", ticked w)
    else if existsb (fun d => String.eqb (doc_id d) id) (documents w)
    then (Ok tt,
          set_documents
            (map (fun d => if String.eqb (doc_id d) id then set_status s d else d))
            (ticked w))
    else (Throw "DocumentNotFoundError", ticked w).
Proof. unfold Document_saveStatus. rewrite store_call_eq. reflexivity. Qed.

(** The chunks that [processDocument] works with, when the chunking
    returns: one chunk, the whole text of a PDF or the trimmed text of a
    file of at most 800 characters. *)
Lemma processDocument_chunks (fuel : nat) (fname oname text ftype : string) (fsize : Z)
    (run : M Document) :
  process fuel fname oname text ftype fsize = Some run ->
  exists chunk,
    (chunk = {| chunk_text := text; chunk_index := 0 |} /\ ftype = ".pdf"
     \/ chunk = {| chunk_text := trim text; chunk_index := 0 |} /\ ftype <> ".pdf"
        /\ (len text <= DEFAULT_CHUNK_SIZE)%Z)
    /\ run = fun w =>
         let document := newDocument (newObjectId (clock w)) fname oname text [chunk]
                           ftype fsize in
         (let* _ := Document_insert fault document in
          let* _ :=
            if negb (String.eqb ftype ".pdf") then
              try_catch
                (generateAndCacheEmbeddings fault Math_sin Math_cos (doc_id document)
                   [chunk] oname)
                (fun _ => ret tt)
            else ret tt in
          let* _ := Document_saveStatus fault (doc_id document) completed in
          ret (set_status completed document)) w.
Proof.
  unfold processDocument. destruct (String.eqb ftype ".pdf") eqn:Hpdf.
  - intros H. inversion H. eexists. split; [left; split; [reflexivity|]|reflexivity].
    apply String.eqb_eq, Hpdf.
  - destruct (Z.leb_spec (len text) DEFAULT_CHUNK_SIZE) as [Hlen|Hlen].
    + unfold chunkDocument_fuel.
      destruct (Z.leb_spec (len text) DEFAULT_CHUNK_SIZE) as [_|Hgt]; [|lia].
      intros H. inversion H. eexists.
      split; [right; split; [reflexivity|split; [|exact Hlen]]|reflexivity].
      apply String.eqb_neq, Hpdf.
    + rewrite chunkDocument_diverges; [discriminate| |reflexivity].
      unfold DEFAULT_CHUNK_SIZE in *. lia.
Qed.

(** X20. A long text is never processed: for a file that is not a PDF
    and whose text is longer than 800 characters, [processDocument] does
    not come back from the chunking, whatever the number of iterations:
    the run that stores and caches the document is never reached. *)
Theorem processDocument_long_text_hangs (fname oname text ftype : string) (fsize : Z) :
  ftype <> ".pdf" -> (DEFAULT_CHUNK_SIZE < len text)%Z ->
  forall fuel : nat, process fuel fname oname text ftype fsize = None.
Proof.
  intros Hpdf Hlen fuel. unfold processDocument.
  apply String.eqb_neq in Hpdf. rewrite Hpdf.
  rewrite chunkDocument_diverges; [reflexivity| |reflexivity].
  unfold DEFAULT_CHUNK_SIZE in *. lia.
Qed.

Lemma sameDocuments_refl (w : World) : sameDocuments w w.
Proof. repeat split. Qed.

Lemma triple_sameDocuments_store_call {A} (w0 : World) (what : string) (op : M A) :
  triple (sameDocuments w0) op (fun _ => sameDocuments w0) (sameDocuments w0) ->
  triple (sameDocuments w0) (store_call fault what op)
    (fun _ => sameDocuments w0) (sameDocuments w0).
Proof. apply triple_store_call; auto. Qed.

(** The caching of the passages leaves the document store alone, and
    never fails. *)
Lemma triple_generateAndCacheEmbeddings (w0 : World) (documentId fname : string)
    (chunks : list Chunk) :
  triple (sameDocuments w0)
    (generateAndCacheEmbeddings fault Math_sin Math_cos documentId chunks fname)
    (fun _ => sameDocuments w0) (fun _ => False).
Proof.
  unfold generateAndCacheEmbeddings.
  apply (triple_forM (fun _ => sameDocuments w0)). intros chunk [] _. unfold cacheChunk.
  apply (triple_try_catch _ _ _ _ (sameDocuments w0)); [|intros e; apply triple_ret; auto].
  apply (triple_bind _ _ _ (fun _ => sameDocuments w0)).
  - apply triple_sameDocuments_store_call. intros w H.
    destruct (redis w !! _) as [[[s|h] t]|]; exact H.
  - intros _. apply triple_sameDocuments_store_call. intros w H.
    destruct (redis w !! _) as [e|]; exact H.
Qed.

Lemma existsb_or_false_l {A} (f g : A -> bool) (l : list A) :
  existsb (fun x => f x || g x) l = false -> existsb f l = false.
Proof.
  induction l as [|x l IH]; [reflexivity|]. cbn [existsb]. intros H.
  apply orb_false_iff in H as [Hx H]. apply orb_false_iff in Hx as [Hx _].
  rewrite Hx, (IH H). reflexivity.
Qed.

Lemma map_status_fresh (id : string) (s : Status) (docs : list Document) :
  existsb (fun d => String.eqb (doc_id d) id) docs = false ->
  map (fun d => if String.eqb (doc_id d) id then set_status s d else d) docs = docs.
Proof.
  induction docs as [|d docs IH]; [reflexivity|]. cbn [existsb map]. intros H.
  apply orb_false_iff in H as [Hd H]. rewrite Hd, (IH H). reflexivity.
Qed.

(** X21. What [processDocument] leaves. When the chunking returns, the
    document has one chunk, of index 0: the whole text of a PDF, or the
    trimmed text of another file, whose text then has at most 800
    characters. When the
    run returns, it returns that document, valid and marked completed,
    the store holds it after the documents it held, and for a PDF the
    cache is as it was. When the run throws, the store holds what it
    held, or in addition the new document still marked processing. *)
Theorem processDocument_outcome (fuel : nat) (fname oname text ftype : string) (fsize : Z)
    (run : M Document) (w : World) :
  process fuel fname oname text ftype fsize = Some run ->
  exists chunk,
    chunk_index chunk = 0%Z
    /\ (ftype = ".pdf" /\ chunk_text chunk = text
        \/ ftype <> ".pdf" /\ chunk_text chunk = trim text
           /\ (len text <= DEFAULT_CHUNK_SIZE)%Z)
    /\ let document := newDocument (newObjectId (clock w)) fname oname text [chunk]
                         ftype fsize in
       match run w with
       | (Ok d, w') =>
           d = set_status completed document
           /\ isValidDocument d = true
           /\ documents w' = documents w ++ [d]
           /\ prompts w' = prompts w /\ searches w' = searches w
           /\ (ftype = ".pdf" -> redis w' = redis w)
       | (Throw _, w') =>
           documents w' = documents w \/ documents w' = documents w ++ [document]
       end.
Proof.
  intros H. apply processDocument_chunks in H as (chunk & Hchunk & ->).
  exists chunk. split; [destruct Hchunk as [[-> _]|[-> _]]; reflexivity|].
  split; [destruct Hchunk as [[-> ->]|(-> & Hp & Hl)]; [left|right]; repeat split;
          assumption|].
  cbv zeta. set (document := newDocument _ fname oname text [chunk] ftype fsize).
  unfold bind at 1. rewrite Document_insert_eq.
  destruct (isValidDocument document) eqn:Hvalid; cbn [negb]; [|left; reflexivity].
  destruct (fault (clock w)); [left; reflexivity|].
  destruct (existsb _ (documents w)) eqn:Hdup; [left; reflexivity|].
  set (w1 := set_documents _ (ticked w)).
  assert (Hfresh : existsb (fun d => String.eqb (doc_id d) (doc_id document)) (documents w)
                   = false).
  { apply (existsb_or_false_l _ _ _ Hdup). }
  assert (Hcache : exists w2,
    (if negb (String.eqb ftype ".pdf") then
       try_catch
         (generateAndCacheEmbeddings fault Math_sin Math_cos (doc_id document) [chunk] oname)
         (fun _ => ret tt)
     else ret tt) w1 = (Ok tt, w2)
    /\ sameDocuments w1 w2 /\ (ftype = ".pdf" -> redis w2 = redis w1)).
  { destruct (String.eqb ftype ".pdf") eqn:Hpdf; cbn [negb].
    - exists w1. split; [reflexivity|]. split; [apply sameDocuments_refl|reflexivity].
    - pose proof (triple_generateAndCacheEmbeddings w1 (doc_id document) oname [chunk] w1
                    (sameDocuments_refl w1)) as Ht.
      unfold try_catch.
      destruct (generateAndCacheEmbeddings _ _ _ _ _ _ w1) as [[[]|e] w2]; [|destruct Ht].
      exists w2. split; [reflexivity|]. split; [exact Ht|].
      intros ->. discriminate Hpdf. }
  destruct Hcache as (w2 & Hrun & (Hd2 & Hp2 & Hs2) & Hr2).
  unfold bind at 1. rewrite Hrun. unfold bind. rewrite Document_saveStatus_eq.
  assert (Hdocs1 : documents w1 = documents w ++ [document]) by reflexivity.
  destruct (fault (clock w2)).
  { right. cbn [ticked set_clock documents]. rewrite Hd2. exact Hdocs1. }
  rewrite Hd2, Hdocs1, existsb_app. cbn [existsb]. rewrite String.eqb_refl, orb_true_r.
  unfold ret. cbn [set_documents ticked set_clock documents prompts searches redis].
  split; [reflexivity|]. split; [exact Hvalid|]. split.
  - rewrite Hd2, Hdocs1, map_app, (map_status_fresh _ _ _ Hfresh). cbn [map].
    rewrite String.eqb_refl. reflexivity.
  - split; [rewrite Hp2; reflexivity|]. split; [rewrite Hs2; reflexivity|].
    intros Hpdf. rewrite (Hr2 Hpdf). reflexivity.
Qed.

(** A document whose file name the store already holds is not stored
    again: [processDocument] throws. *)
Lemma processDocument_duplicate (fuel : nat) (fname oname text ftype : string) (fsize : Z)
    (run : M Document) (w : World) (d' : Document) :
  process fuel fname oname text ftype fsize = Some run ->
  In d' (documents w) -> filename d' = fname ->
  exists e w', run w = (Throw e, w').
Proof.
  intros H Hin Hname. apply processDocument_chunks in H as (chunk & _ & ->).
  cbv zeta. unfold bind at 1. rewrite Document_insert_eq.
  destruct (negb (isValidDocument _)); [eexists _, _; reflexivity|].
  destruct (fault (clock w)); [eexists _, _; reflexivity|].
  assert (Hdup : existsb
            (fun d0 => String.eqb (doc_id d0)
                         (doc_id (newDocument (newObjectId (clock w)) fname oname text
                                    [chunk] ftype fsize))
                       || String.eqb (filename d0)
                            (filename (newDocument (newObjectId (clock w)) fname oname text
                                         [chunk] ftype fsize)))
            (documents w) = true).
  { apply existsb_exists. exists d'. split; [exact Hin|].
    cbn [newDocument filename]. rewrite Hname, String.eqb_refl. apply orb_true_r. }
  rewrite Hdup. eexists _, _. reflexivity.
Qed.

Lemma Forall_status_after (id : string) (s : Status) (docs : list Document) :
  Forall (fun d => doc_id d = id -> status d = s)
    (map (fun d => if String.eqb (doc_id d) id then set_status s d else d) docs).
Proof.
  induction docs as [|d docs IH]; [constructor|]. cbn [map]. constructor; [|exact IH].
  destruct (String.eqb (doc_id d) id) eqn:Hd; [reflexivity|].
  intros Heq. apply String.eqb_neq in Hd. contradiction.
Qed.

(** The outcomes of the [reprocessDocument] controller. *)
Lemma reprocessDocument_cases (fuel : nat) (id : string) (w : World) :
  match reprocess fuel id w with
  | (Ok (Some code), w') =>
      code = 404%Z \/ code = 400%Z
      \/ code = 500%Z /\ Forall (fun d => doc_id d = id -> status d = failed) (documents w')
  | _ => True
  end.
Proof.
  unfold reprocessDocument. unfold bind at 1. rewrite Document_findById_eq.
  destruct (fault (clock w)); [exact I|].
  destruct (find _ (documents w)) as [document|] eqn:Hfind; [|left; reflexivity].
  apply find_some in Hfind as [Hin Hid]. apply String.eqb_eq in Hid.
  assert (Hcatch : forall m : M (option Z),
    (forall w1, documents w1 = documents w ->
       match m w1 with (Ok (Some _), _) => False | _ => True end) ->
    match
      try_catch m
        (fun _ => let* _ := Document_saveStatus fault (doc_id document) failed in
                  ret (Some 500%Z)) (ticked w)
    with
    | (Ok (Some code), w') =>
        code = 404%Z \/ code = 400%Z
        \/ code = 500%Z /\ Forall (fun d => doc_id d = id -> status d = failed) (documents w')
    | _ => True
    end).
  { intros m Hm. unfold try_catch. specialize (Hm (ticked w) eq_refl).
    destruct (m (ticked w)) as [[[code|]|e] w3]; [destruct Hm|exact I|].
    unfold bind. rewrite Document_saveStatus_eq.
    destruct (fault (clock w3)); [exact I|].
    destruct (existsb _ (documents w3)); [|exact I].
    unfold ret. right. right. split; [reflexivity|].
    cbn [set_documents documents ticked set_clock]. rewrite Hid.
    apply Forall_status_after. }
  assert (Hbody : forall w1, documents w1 = documents w ->
    match
      (let* _ := Document_saveStatus fault (doc_id document) processing in
       let* _ := deleteDocumentFromCache fault id in
       match
         process fuel (filename document) (originalName document)
           (content document) (fileType document) (fileSize document)
       with
       | None => ret None
       | Some run => let* updatedDocument := run in ret (Some 200%Z)
       end) w1
    with
    | (Ok (Some _), _) => False
    | _ => True
    end).
  { intros w1 Hdocs. unfold bind at 1. rewrite Document_saveStatus_eq.
    destruct (fault (clock w1)); [exact I|].
    destruct (existsb _ (documents w1)); [|exact I].
    set (w2 := set_documents _ (ticked w1)).
    assert (Hin2 : In (set_status processing document) (documents w2)).
    { subst w2. cbn [set_documents documents ticked set_clock]. rewrite Hdocs.
      apply in_map_iff. exists document. rewrite String.eqb_refl.
      split; [reflexivity|exact Hin]. }
    unfold bind at 1.
    pose proof (triple_onlyEvicted_deleteDocumentFromCache fault w2 id w2
                  (onlyEvicted_refl w2)) as Hc.
    destruct (deleteDocumentFromCache fault id w2) as [[[]|e] w3]; [|exact I].
    destruct Hc as (_ & Hd3 & _).
    destruct (process fuel _ _ _ _ _) as [run|] eqn:Hrun; [|exact I].
    destruct (processDocument_duplicate _ _ _ _ _ _ run w3 (set_status processing document)
                Hrun) as (e & w4 & Hthrow); [rewrite Hd3; exact Hin2|reflexivity|].
    unfold bind. rewrite Hthrow. exact I. }
  destruct (status document); [right; left; reflexivity| |]; apply Hcatch, Hbody.
Qed.

(** X22. Reprocessing never succeeds. Whatever the stores do, the
    [reprocessDocument] controller does not answer 200: the document is
    still stored under its file name when [processDocument] stores the
    new one, and the unique index on the file name refuses it. When the
    controller answers 500, every document of the id is marked failed,
    and no retrieval returns a passage of it. *)
Theorem reprocessDocument_never_succeeds (fuel : nat) (id : string) (w : World) :
  fst (reprocess fuel id w) <> Ok (Some 200%Z)
  /\ forall w',
       reprocess fuel id w = (Ok (Some 500%Z), w') ->
       Forall (fun d => doc_id d = id -> status d = failed) (documents w')
       /\ forall query topK,
            exists chunks w'',
              retrieveRelevantChunks fault Math_sin Math_cos query topK w' = (Ok chunks, w'')
              /\ Forall (fun c => c_docId c <> id) chunks.
Proof.
  pose proof (reprocessDocument_cases fuel id w) as H. split.
  - destruct (reprocess fuel id w) as [[[code|]|e] w']; cbn [fst]; try discriminate.
    intros Heq. inversion Heq; subst code.
    destruct H as [H|[H|[H _]]]; discriminate H.
  - intros w' Hrun. rewrite Hrun in H.
    destruct H as [H|[H|[_ H]]]; [discriminate H|discriminate H|].
    split; [exact H|]. intros query topK.
    pose proof (triple_retrieveRelevantChunks fault Math_sin Math_cos w' query topK w'
                  (sameStores_refl w')) as Hr.
    destruct (retrieveRelevantChunks fault Math_sin Math_cos query topK w')
      as [[chunks|e] w'']; [|destruct Hr].
    destruct Hr as (_ & _ & Hfrom). exists chunks, w''. split; [reflexivity|].
    apply List.Forall_forall. intros c Hc.
    rewrite List.Forall_forall in Hfrom.
    destruct (Hfrom c Hc) as (d & Hd & Hs & (Hid & _) & _).
    rewrite List.Forall_forall in H. intros Heq.
    rewrite (H d Hd) in Hs; [discriminate Hs|]. rewrite <- Hid. exact Heq.
Qed.

(** X23. From processing to retrieval. When the stores answer, a valid
    text file of at most 800 characters, new to the store and with no
    cache entry under the key of its chunk 0, is processed to a
    completed document of one chunk; the Passage Cache then holds
    the trimmed text and its embedding under the key of chunk 0, for 24
    hours; and the Retriever, on any query, takes that chunk from the
    cache and scores it by the cosine of the two embeddings. *)
Theorem processDocument_text_retrievable (fuel : nat) (fname oname text ftype : string)
    (fsize : Z) (w : World) :
  let id := newObjectId (clock w) in
  let chunk := {| chunk_text := trim text; chunk_index := 0 |} in
  (forall t, fault t = false) ->
  ftype <> ".pdf" -> (len text <= DEFAULT_CHUNK_SIZE)%Z ->
  isValidDocument (newDocument id fname oname text [chunk] ftype fsize) = true ->
  existsb (fun d' => String.eqb (doc_id d') id || String.eqb (filename d') fname)
    (documents w) = false ->
  redis w !! chunkKey id 0 = None ->
  exists run d w',
    process fuel fname oname text ftype fsize = Some run
    /\ run w = (Ok d, w')
    /\ d = set_status completed (newDocument id fname oname text [chunk] ftype fsize)
    /\ documents w' = documents w ++ [d]
    /\ redis w' = <[chunkKey id 0 := passageEntry Math_sin Math_cos id oname chunk]> (redis w)
    /\ forall query sims,
         searchChunk fault Math_sin Math_cos query d (0%nat, chunk) sims w'
         = (Ok (sims ++ [candidate (trim text)
                           (cosineSimilarity (generateEmbedding Math_sin Math_cos query)
                              (generateEmbedding Math_sin Math_cos (trim text))) d]),
            ticked w').
Proof.
  cbv zeta. intros Hf Hpdf Hlen Hvalid Hfresh Hkey.
  set (id := newObjectId (clock w)) in *.
  set (chunk := {| chunk_text := trim text; chunk_index := 0 |}) in *.
  set (document := newDocument id fname oname text [chunk] ftype fsize) in *.
  assert (Hrun : process fuel fname oname text ftype fsize
                 = Some (fun w =>
                     let document := newDocument (newObjectId (clock w)) fname oname text
                                       [chunk] ftype fsize in
                     (let* _ := Document_insert fault document in
                      let* _ :=
                        if negb (String.eqb ftype ".pdf") then
                          try_catch
                            (generateAndCacheEmbeddings fault Math_sin Math_cos
                               (doc_id document) [chunk] oname)
                            (fun _ => ret tt)
                        else ret tt in
                      let* _ := Document_saveStatus fault (doc_id document) completed in
                      ret (set_status completed document)) w)).
  { unfold processDocument. apply String.eqb_neq in Hpdf. rewrite Hpdf.
    unfold chunkDocument_fuel.
    destruct (Z.leb_spec (len text) DEFAULT_CHUNK_SIZE) as [_|Hgt]; [reflexivity|lia]. }
  eexists _, (set_status completed document), _. split; [exact Hrun|].
  cbv zeta. fold id. fold document.
  assert (Hdocfresh : existsb (fun d => String.eqb (doc_id d) id) (documents w) = false).
  { apply (existsb_or_false_l _ _ _ Hfresh). }
  set (w1 := set_documents (fun l => l ++ [document]) (ticked w)).
  assert (H1 : Document_insert fault document w = (Ok tt, w1)).
  { rewrite Document_insert_eq, Hvalid, Hf. cbn [negb].
    change (doc_id document) with id. change (filename document) with fname.
    rewrite Hfresh. reflexivity. }
  set (w2 := set_redis (insert (chunkKey id 0)
                          (passageEntry Math_sin Math_cos id oname chunk))
               (ticked (ticked w1))).
  assert (H2 : (if negb (String.eqb ftype ".pdf") then
                  try_catch
                    (generateAndCacheEmbeddings fault Math_sin Math_cos (doc_id document)
                       [chunk] oname)
                    (fun _ => ret tt)
                else ret tt) w1 = (Ok tt, w2)).
  { apply String.eqb_neq in Hpdf. rewrite Hpdf. cbn [negb].
    change (doc_id document) with id.
    unfold try_catch, generateAndCacheEmbeddings. cbn [forM]. unfold bind.
    rewrite (cacheChunk_written fault Math_sin Math_cos id oname chunk w1 (Hf _) (Hf _)).
    - reflexivity.
    - intros s t. cbn [chunk chunk_index]. subst w1.
      cbn [set_documents redis ticked set_clock]. rewrite Hkey. discriminate. }
  set (w3 := set_documents
               (map (fun d => if String.eqb (doc_id d) id then set_status completed d else d))
               (ticked w2)).
  assert (H3 : Document_saveStatus fault (doc_id document) completed w2 = (Ok tt, w3)).
  { rewrite Document_saveStatus_eq, Hf. change (doc_id document) with id.
    assert (Hex : existsb (fun d => String.eqb (doc_id d) id) (documents w2) = true).
    { subst w2 w1. cbn [set_redis set_documents documents ticked set_clock].
      rewrite existsb_app. cbn [existsb document newDocument doc_id].
      rewrite String.eqb_refl. rewrite orb_true_r. reflexivity. }
    rewrite Hex. reflexivity. }
  split.
  { rewrite (bind_Ok _ _ _ _ _ H1), (bind_Ok _ _ _ _ _ H2), (bind_Ok _ _ _ _ _ H3).
    reflexivity. }
  split; [reflexivity|]. split.
  { subst w3 w2 w1. cbn [set_redis set_documents documents ticked set_clock].
    rewrite map_app, (map_status_fresh _ _ _ Hdocfresh). cbn [map document newDocument doc_id].
    rewrite String.eqb_refl. reflexivity. }
  split; [reflexivity|].
  intros query sims. unfold searchChunk, try_catch, bind, cachedPassage.
  cbn [fst snd set_status fileType document newDocument doc_id].
  apply String.eqb_neq in Hpdf. rewrite Hpdf. cbn [negb].
  unfold bind, redis_hGetAll. rewrite store_call_eq, Hf.
  match goal with
  | |- context [redis ?W !! chunkKey id (Z.of_nat 0)] =>
      assert (Hl : redis W !! chunkKey id (Z.of_nat 0)
                   = Some (passageEntry Math_sin Math_cos id oname chunk))
        by (cbn [set_redis set_documents redis ticked set_clock]; apply lookup_insert_eq)
  end.
  rewrite Hl. unfold passageEntry. cbn [value ph_text chunk chunk_text ph_embedding].
  assert (Ht : truthy (trim text) = true).
  { unfold isValidDocument in Hvalid. cbn [newDocument chunks forallb chunk chunk_text] in Hvalid.
    apply andb_true_iff in Hvalid as [Hvalid _]. apply andb_true_iff in Hvalid as [_ Hvalid].
    apply andb_true_iff in Hvalid as [Hvalid _]. exact Hvalid. }
  rewrite Ht. reflexivity.
Qed.

End ProcessingProperties.

(* ================================================================== *)
(** ** utils/helpers.js: the rate limiter *)
(* ================================================================== *)

Lemma allowedSince_app (windowStart : Z) (identifier : string)
    (h1 h2 : list (Z * string * bool)) :
  allowedSince windowStart identifier (h1 ++ h2)
  = (allowedSince windowStart identifier h1 + allowedSince windowStart identifier h2)%nat.
Proof. unfold allowedSince. rewrite List.filter_app, length_app. reflexivity. Qed.

Lemma filter_filter_after (lo ws : Z) (l : list Z) :
  (lo <= ws)%Z ->
  List.filter (fun time => (ws <? time)%Z) (List.filter (fun time => (lo <? time)%Z) l)
  = List.filter (fun time => (ws <? time)%Z) l.
Proof.
  intros H. induction l as [|t l IH]; [reflexivity|]. cbn [List.filter].
  destruct (Z.ltb_spec lo t) as [Hlo|Hlo]; cbn [List.filter].
  - rewrite IH. reflexivity.
  - rewrite IH. destruct (Z.ltb_spec ws t); [lia|reflexivity].
Qed.

(** The times that a limiter holds for an identifier. *)
Local Abbreviation timesOf requests identifier :=
  (default [] (requests !! identifier)).

(** One request: the answer follows the window rule, and the state
    tracks the history with the request added. *)
Lemma rateLimiter_step (windowMs maxRequests now lo : Z) (identifier : string)
    (history : list (Z * string * bool)) (requests : Requests) :
  tracks lo history requests -> (lo <= now - windowMs)%Z ->
  let '(allowed, requests') := rateLimiter windowMs maxRequests now identifier requests in
  (allowed = true
   <-> (Z.of_nat (allowedSince (now - windowMs) identifier history) < maxRequests)%Z)
  /\ tracks (now - windowMs) (history ++ [(now, identifier, allowed)]) requests'.
Proof.
  intros Htr Hlo. unfold rateLimiter.
  set (requests1 := match requests !! identifier with
                    | None => <[identifier := []]> requests
                    | Some _ => requests
                    end).
  assert (Hsame : forall id, timesOf requests1 id = timesOf requests id).
  { intros id. subst requests1. destruct (requests !! identifier) as [l|] eqn:Hl; [reflexivity|].
    destruct (decide (identifier = id)) as [->|Hne].
    - rewrite lookup_insert_eq, Hl. reflexivity.
    - rewrite lookup_insert_ne by exact Hne. reflexivity. }
  set (valid := List.filter (fun time => (now - windowMs <? time)%Z)
                  (timesOf requests1 identifier)).
  assert (Hvalid : length valid = allowedSince (now - windowMs) identifier history).
  { subst valid. rewrite Hsame. apply Htr, Hlo. }
  destruct (Z.leb_spec maxRequests (Z.of_nat (length valid))) as [Hfull|Hroom].
  - split; [split; [discriminate|lia]|].
    intros id ws Hws. rewrite Hsame, allowedSince_app.
    unfold allowedSince at 2. cbn [List.filter andb length].
    rewrite Nat.add_0_r. apply Htr. lia.
  - split; [split; [lia|reflexivity]|].
    intros id ws Hws. rewrite allowedSince_app.
    unfold allowedSince at 2. cbn [List.filter andb].
    destruct (decide (identifier = id)) as [->|Hne].
    + rewrite lookup_insert_eq. cbn [from_option Datatypes.id].
      rewrite String.eqb_refl. cbn [andb].
      rewrite List.filter_app, length_app. subst valid.
      rewrite (filter_filter_after _ _ _ Hws), Hsame, (Htr id ws) by lia.
      cbn [List.filter]. destruct (ws <? now)%Z; reflexivity.
    + rewrite lookup_insert_ne by exact Hne.
      assert (Hid : String.eqb identifier id = false) by (apply String.eqb_neq; exact Hne).
      rewrite Hid. cbn [andb length]. rewrite Nat.add_0_r.
      change (length (List.filter (fun time => (ws <? time)%Z) (timesOf requests1 id))
              = allowedSince ws id history).
      rewrite Hsame. apply Htr. lia.
Qed.

Lemma tracks_empty (lo : Z) : tracks lo [] ∅.
Proof. intros identifier ws _. rewrite lookup_empty. reflexivity. Qed.

(** A run of requests in the order of their times, from a state that
    tracks the history: each answer follows the window rule. *)
Lemma rateLimiter_run_tracks (windowMs maxRequests : Z) (calls : list (Z * string)) :
  forall (lo : Z) (history : list (Z * string * bool)) (requests : Requests),
    tracks lo history requests ->
    match calls with [] => True | (now, _) :: _ => (lo <= now - windowMs)%Z end ->
    inTimeOrder calls = true ->
    let answers := fst (rateLimiter_run windowMs maxRequests calls requests) in
    length answers = length calls
    /\ forall (j : nat) (now : Z) (identifier : string) (allowed : bool),
         nth_error calls j = Some (now, identifier) ->
         nth_error answers j = Some allowed ->
         (allowed = true
          <-> (Z.of_nat (allowedSince (now - windowMs) identifier
                           (history ++ firstn j (combine calls answers)))
               < maxRequests)%Z).
Proof.
  induction calls as [|[now identifier] calls IH]; intros lo history requests Htr Hlo Hsorted.
  - cbn. split; [reflexivity|]. intros [|j] ? ? ? H; discriminate H.
  - cbn [rateLimiter_run].
    pose proof (rateLimiter_step windowMs maxRequests now lo identifier history requests
                  Htr Hlo) as Hstep.
    destruct (rateLimiter windowMs maxRequests now identifier requests)
      as [allowed requests'].
    destruct Hstep as [Hallowed Htr'].
    specialize (IH (now - windowMs)%Z (history ++ [(now, identifier, allowed)]) requests' Htr').
    assert (Hnext : match calls with
                    | [] => True
                    | (now', _) :: _ => (now - windowMs <= now' - windowMs)%Z
                    end
                    /\ inTimeOrder calls = true).
    { destruct calls as [|[now' id'] calls']; [split; [exact I|reflexivity]|].
      cbn [inTimeOrder] in Hsorted. fold inTimeOrder in Hsorted.
      apply andb_true_iff in Hsorted as [Hle Hsorted]. split; [lia|exact Hsorted]. }
    destruct Hnext as [Hnext Hsorted'].
    specialize (IH Hnext Hsorted'). cbv zeta in IH.
    destruct (rateLimiter_run windowMs maxRequests calls requests') as [answers final].
    cbn [fst] in *. destruct IH as [Hlen Hall]. split; [cbn [length]; rewrite Hlen; reflexivity|].
    intros [|j] now' id' allowed' Hcall Hanswer.
    + cbn in Hcall, Hanswer. inversion Hcall; inversion Hanswer; subst.
      cbn [firstn]. rewrite app_nil_r. exact Hallowed.
    + cbn [nth_error] in Hcall, Hanswer. cbn [combine firstn].
      specialize (Hall j now' id' allowed' Hcall Hanswer).
      rewrite <- app_assoc in Hall. exact Hall.
Qed.

(** X24. The rate limiter is a sliding window. For a limiter made by
    [createRateLimiter(windowMs, maxRequests)] and requests made in the
    order of their times, a request is allowed exactly when fewer than
    [maxRequests] of the earlier requests of the same identifier were
    allowed and made after [now - windowMs]. *)
Theorem rateLimiter_sliding_window (windowMs maxRequests : Z) (calls : list (Z * string)) :
  inTimeOrder calls = true ->
  let answers := fst (rateLimiter_run windowMs maxRequests calls ∅) in
  length answers = length calls
  /\ forall (j : nat) (now : Z) (identifier : string) (allowed : bool),
       nth_error calls j = Some (now, identifier) ->
       nth_error answers j = Some allowed ->
       (allowed = true
        <-> (Z.of_nat (allowedSince (now - windowMs) identifier
                         (firstn j (combine calls answers)))
             < maxRequests)%Z).
Proof.
  intros Hsorted.
  set (lo := match calls with [] => 0%Z | (now, _) :: _ => (now - windowMs)%Z end).
  apply (rateLimiter_run_tracks windowMs maxRequests calls lo [] ∅ (tracks_empty lo));
    [|exact Hsorted].
  subst lo. destruct calls as [|[now id] calls]; [exact I|lia].
Qed.

(* ================================================================== *)
(** ** utils/helpers.js: retry with backoff *)
(* ================================================================== *)

Lemma retry_loop_spec {A} (fn : nat -> Result A) (maxRetries baseDelay : Z) :
  forall (todo i : nat) (delays : list Z),
    Z.of_nat (i + todo) = maxRetries -> (0 < todo)%nat ->
    exists k : nat,
      (i <= k < i + todo)%nat
      /\ (forall j, (i <= j < k)%nat -> exists e, fn j = Throw e)
      /\ snd (retry_loop fn maxRetries baseDelay todo i delays)
         = rev (map (fun j => (baseDelay * 2 ^ Z.of_nat j)%Z) (seq i (k - i))) ++ delays
      /\ match fn k with
         | Ok a => fst (retry_loop fn maxRetries baseDelay todo i delays) = Ok (Some a)
         | Throw e =>
             Z.of_nat k = (maxRetries - 1)%Z
             /\ fst (retry_loop fn maxRetries baseDelay todo i delays) = Throw e
         end.
Proof.
  induction todo as [|todo IH]; intros i delays Hsum Hpos; [lia|].
  cbn [retry_loop]. destruct (fn i) as [a|e] eqn:Hfn.
  - exists i. split; [lia|]. split; [intros j Hj; lia|].
    rewrite Nat.sub_diag, Hfn. split; reflexivity.
  - destruct (Z.eqb_spec (Z.of_nat i) (maxRetries - 1)) as [Hlast|Hmore].
    + exists i. split; [lia|]. split; [intros j Hj; lia|].
      rewrite Nat.sub_diag, Hfn. split; [reflexivity|]. split; [exact Hlast|reflexivity].
    + destruct (IH (S i) ((baseDelay * 2 ^ Z.of_nat i)%Z :: delays)) as (k & Hk & Hfail & Hd & Hr);
        [lia|lia|].
      exists k. split; [lia|]. split.
      * intros j Hj. destruct (Nat.eq_dec j i) as [->|Hne]; [exists e; exact Hfn|].
        apply Hfail. lia.
      * split; [|exact Hr]. rewrite Hd.
        replace (k - i)%nat with (S (k - S i)) by lia. cbn [seq map rev].
        rewrite <- app_assoc. reflexivity.
Qed.

(** X25. [retryWithBackoff]. With [maxRetries] positive, [fn] is called
    until it succeeds, [maxRetries] times at most; between two calls the
    function sleeps, [baseDelay] times 1, 2, 4, ... in this order; it
    returns the value of the first call that succeeds, and when call
    number [maxRetries] fails too it throws the error of that call. With
    [maxRetries] zero or negative, [fn] is not called and the result is
    [undefined]. *)
Theorem retryWithBackoff_spec {A} (fn : nat -> Result A) (maxRetries baseDelay : Z) :
  ((0 < maxRetries)%Z ->
   exists k : nat,
     (Z.of_nat k < maxRetries)%Z
     /\ (forall j, (j < k)%nat -> exists e, fn j = Throw e)
     /\ rev (snd (retryWithBackoff fn maxRetries baseDelay))
        = map (fun j => (baseDelay * 2 ^ Z.of_nat j)%Z) (seq 0 k)
     /\ match fn k with
        | Ok a => fst (retryWithBackoff fn maxRetries baseDelay) = Ok (Some a)
        | Throw e =>
            Z.of_nat k = (maxRetries - 1)%Z
            /\ fst (retryWithBackoff fn maxRetries baseDelay) = Throw e
        end)
  /\ ((maxRetries <= 0)%Z -> retryWithBackoff fn maxRetries baseDelay = (Ok None, [])).
Proof.
  split.
  - intros Hpos. unfold retryWithBackoff.
    destruct (retry_loop_spec fn maxRetries baseDelay (Z.to_nat maxRetries) 0 [])
      as (k & Hk & Hfail & Hd & Hr); [lia|lia|].
    exists k. split; [lia|]. split; [intros j Hj; apply Hfail; lia|].
    split; [|exact Hr]. rewrite Hd, app_nil_r, rev_involutive, Nat.sub_0_r. reflexivity.
  - intros Hneg. unfold retryWithBackoff.
    replace (Z.to_nat maxRetries) with 0%nat by lia. reflexivity.
Qed.

(* ================================================================== *)
(** ** utils/helpers.js: file names *)
(* ================================================================== *)

Lemma replaceChars_cons (cls : ascii -> bool) (r c : ascii) (s : string) :
  replaceChars cls (String r EmptyString) (String c s)
  = String (if cls c then r else c) (replaceChars cls (String r EmptyString) s).
Proof. cbn [replaceChars]. destruct (cls c); reflexivity. Qed.

(** What [sanitizeFilename] makes of one character. *)
Lemma sanitize_char (c : ascii) :
  let c' := lowerChar (if negb (isFilenameChar c) then "_"%char else c) in
  isSanitizedChar c' = true
  /\ lowerChar (if negb (isFilenameChar c') then "_"%char else c') = c'.
Proof.
  destruct c as [[] [] [] [] [] [] [] []]; vm_compute; split; reflexivity.
Qed.

Lemma includes_char_false (p : ascii -> bool) (c : ascii) (s : string) :
  forallb p (list_ascii_of_string s) = true -> p c = false ->
  includes s (String c EmptyString) = false.
Proof.
  intros Hs Hc. induction s as [|d s IH]; [reflexivity|].
  cbn [list_ascii_of_string forallb] in Hs. apply andb_true_iff in Hs as [Hd Hs].
  cbn [includes String.prefix]. rewrite (IH Hs), orb_false_r.
  destruct (ascii_dec c d) as [->|_]; [|reflexivity].
  rewrite Hd in Hc. discriminate Hc.
Qed.

(** X26. [sanitizeFilename] gives a safe name: the result has the
    length of the name given, each of its characters is one of [a-z],
    [0-9], the dot, the hyphen and the underscore, so that it holds no
    slash and no backslash, and sanitizing it again changes nothing. *)
Theorem sanitizeFilename_safe (filename : string) :
  String.length (sanitizeFilename filename) = String.length filename
  /\ forallb isSanitizedChar (list_ascii_of_string (sanitizeFilename filename)) = true
  /\ includes (sanitizeFilename filename) "/" = false
  /\ includes (sanitizeFilename filename) "\" = false
  /\ sanitizeFilename (sanitizeFilename filename) = sanitizeFilename filename.
Proof.
  assert (Hlen : String.length (sanitizeFilename filename) = String.length filename).
  { unfold sanitizeFilename. rewrite length_toLowerCase.
    induction filename as [|c s IH]; [reflexivity|].
    rewrite replaceChars_cons. cbn [String.length]. rewrite IH. reflexivity. }
  assert (Hsafe : forallb isSanitizedChar (list_ascii_of_string (sanitizeFilename filename))
                  = true).
  { clear Hlen. unfold sanitizeFilename. induction filename as [|c s IH]; [reflexivity|].
    rewrite replaceChars_cons. cbn [toLowerCase list_ascii_of_string forallb].
    rewrite IH, andb_true_r. destruct (sanitize_char c) as [H _]. exact H. }
  split; [exact Hlen|]. split; [exact Hsafe|].
  split; [apply (includes_char_false _ _ _ Hsafe); reflexivity|].
  split; [apply (includes_char_false _ _ _ Hsafe); reflexivity|].
  clear Hlen Hsafe.
  unfold sanitizeFilename. induction filename as [|c s IH]; [reflexivity|].
  rewrite replaceChars_cons. cbn [toLowerCase]. rewrite replaceChars_cons.
  cbn [toLowerCase]. rewrite IH. f_equal. destruct (sanitize_char c) as [_ H]. exact H.
Qed.

(* ================================================================== *)
(** ** utils/helpers.js: clean text *)
(* ================================================================== *)

Lemma singleSpaced_replaceRuns (b : bool) (text : string) :
  singleSpaced b (replaceRuns isWhiteSpace " " b text) = true.
Proof.
  revert b. induction text as [|c s IH]; intros b; [reflexivity|].
  cbn [replaceRuns]. destruct (isWhiteSpace c) eqn:Hc.
  - destruct b; [apply IH|].
    rewrite append_cons, append_nil. cbn [singleSpaced]. rewrite IH. reflexivity.
  - cbn [singleSpaced]. rewrite Hc. apply IH.
Qed.

Lemma singleSpaced_weaken (s : string) :
  singleSpaced true s = true -> singleSpaced false s = true.
Proof.
  destruct s as [|c s]; [reflexivity|]. cbn [singleSpaced].
  destruct (isWhiteSpace c); [|exact (fun H => H)].
  rewrite andb_false_r. discriminate.
Qed.

Lemma singleSpaced_any (b : bool) (s : string) :
  singleSpaced b s = true -> singleSpaced false s = true.
Proof. destruct b; [apply singleSpaced_weaken|exact (fun H => H)]. Qed.

Lemma singleSpaced_trimStart (b : bool) (s : string) :
  singleSpaced b s = true -> singleSpaced false (trimStart s) = true.
Proof.
  revert b. induction s as [|c s IH]; intros b H; [reflexivity|].
  cbn [trimStart]. destruct (isWhiteSpace c) eqn:Hc.
  - cbn [singleSpaced] in H. rewrite Hc in H.
    apply andb_true_iff in H as [_ H]. apply (IH true H).
  - apply (singleSpaced_any b). exact H.
Qed.

Lemma singleSpaced_trimEnd (b : bool) (s : string) :
  singleSpaced b s = true -> singleSpaced b (trimEnd s) = true.
Proof.
  revert b. induction s as [|c s IH]; intros b H; [reflexivity|].
  cbn [singleSpaced] in H. cbn [trimEnd].
  destruct (isWhiteSpace c) eqn:Hc.
  - apply andb_true_iff in H as [Hb H]. specialize (IH true H).
    destruct (trimEnd s) as [|d t]; [reflexivity|].
    cbn [singleSpaced]. rewrite Hc, Hb. exact IH.
  - specialize (IH false H).
    destruct (trimEnd s) as [|d t]; cbn [singleSpaced]; rewrite Hc; [reflexivity|exact IH].
Qed.

Lemma trimEnd_cons (c : ascii) (s : string) :
  trimEnd (String c s)
  = match trimEnd s with
    | EmptyString => if isWhiteSpace c then EmptyString else String c EmptyString
    | t => String c t
    end.
Proof. reflexivity. Qed.

Lemma trimEnd_idem (s : string) : trimEnd (trimEnd s) = trimEnd s.
Proof.
  induction s as [|c s IH]; [reflexivity|]. rewrite trimEnd_cons.
  destruct (trimEnd s) as [|d t] eqn:Ht.
  - destruct (isWhiteSpace c) eqn:Hc; [reflexivity|]. cbn [trimEnd]. rewrite Hc. reflexivity.
  - rewrite trimEnd_cons, IH. reflexivity.
Qed.

Lemma trimStart_trim (s : string) : trimStart (trim s) = trim s.
Proof.
  unfold trim. induction s as [|c s IH]; [reflexivity|]. cbn [trimStart].
  destruct (isWhiteSpace c) eqn:Hc; [exact IH|].
  rewrite trimEnd_cons.
  destruct (trimEnd s); rewrite ?Hc; cbn [trimStart]; rewrite Hc; reflexivity.
Qed.

(** A text without a line feed has no run of line feeds to replace. *)
Lemma replaceRuns_isLineFeed (b : bool) (s : string) :
  forallb (fun c => negb (isLineFeed c)) (list_ascii_of_string s) = true ->
  replaceRuns isLineFeed (String (ascii_of_nat 10) EmptyString) b s = s.
Proof.
  revert b. induction s as [|c s IH]; intros b H; [reflexivity|].
  cbn [list_ascii_of_string forallb] in H. apply andb_true_iff in H as [Hc H].
  cbn [replaceRuns]. apply negb_true_iff in Hc. rewrite Hc, (IH false H). reflexivity.
Qed.

Lemma singleSpaced_chars (b : bool) (s : string) :
  singleSpaced b s = true ->
  forallb (fun c => negb (isWhiteSpace c) || Ascii.eqb c " ") (list_ascii_of_string s)
  = true.
Proof.
  revert b. induction s as [|c s IH]; intros b H; [reflexivity|].
  cbn [singleSpaced] in H. cbn [list_ascii_of_string forallb].
  destruct (isWhiteSpace c).
  - apply andb_true_iff in H as [Hc H]. apply andb_true_iff in Hc as [Hc _].
    rewrite Hc, (IH true H). reflexivity.
  - rewrite (IH false H). reflexivity.
Qed.

Lemma singleSpaced_no_linefeed (b : bool) (s : string) :
  singleSpaced b s = true ->
  forallb (fun c => negb (isLineFeed c)) (list_ascii_of_string s) = true.
Proof.
  intros H. apply singleSpaced_chars in H. revert H.
  induction s as [|c s IH]; [reflexivity|].
  cbn [list_ascii_of_string forallb]. intros H. apply andb_true_iff in H as [Hc H].
  rewrite (IH H), andb_true_r. clear -Hc.
  destruct c as [[] [] [] [] [] [] [] []]; try reflexivity; vm_compute in Hc; discriminate Hc.
Qed.

Lemma singleSpaced_no_double_space (b : bool) (s : string) :
  singleSpaced b s = true -> includes s "  " = false.
Proof.
  revert b. induction s as [|c s IH]; intros b H; [reflexivity|].
  cbn [singleSpaced] in H. cbn [includes].
  assert (Hrest : includes s "  " = false).
  { destruct (isWhiteSpace c); [apply andb_true_iff in H as [_ H]|]; apply (IH _ H). }
  rewrite Hrest, orb_false_r. cbn [String.prefix].
  destruct (ascii_dec " " c) as [<-|_]; [|reflexivity].
  cbn in H. destruct s as [|d s]; [reflexivity|]. cbn [String.prefix].
  destruct (ascii_dec " " d) as [<-|_]; [|reflexivity].
  cbn in H. rewrite andb_false_r in H. discriminate H.
Qed.

Lemma singleSpaced_fixed (b : bool) (s : string) :
  singleSpaced b s = true -> replaceRuns isWhiteSpace " " b s = s.
Proof.
  revert b. induction s as [|c s IH]; intros b H; [reflexivity|].
  cbn [singleSpaced] in H. cbn [replaceRuns]. destruct (isWhiteSpace c).
  - apply andb_true_iff in H as [Hc H]. apply andb_true_iff in Hc as [Hc Hb].
    apply Ascii.eqb_eq in Hc. subst c. apply negb_true_iff in Hb. subst b.
    rewrite append_cons, append_nil, (IH true H). reflexivity.
  - rewrite (IH false H). reflexivity.
Qed.

Lemma inkOf_replaceRuns (b : bool) (s : string) :
  inkOf (replaceRuns isWhiteSpace " " b s) = inkOf s.
Proof.
  unfold inkOf. revert b. induction s as [|c s IH]; intros b; [reflexivity|].
  cbn [replaceRuns list_ascii_of_string List.filter]. destruct (isWhiteSpace c) eqn:Hc.
  - cbn [negb]. destruct b; [apply IH|]. rewrite append_cons, append_nil.
    cbn [list_ascii_of_string List.filter]. apply IH.
  - cbn [negb list_ascii_of_string List.filter]. rewrite Hc. cbn [negb]. rewrite IH.
    reflexivity.
Qed.

Lemma inkOf_trimStart (s : string) : inkOf (trimStart s) = inkOf s.
Proof.
  unfold inkOf. induction s as [|c s IH]; [reflexivity|]. cbn [trimStart].
  destruct (isWhiteSpace c) eqn:Hc; [|reflexivity].
  cbn [list_ascii_of_string List.filter]. rewrite Hc. exact IH.
Qed.

Lemma inkOf_trimEnd (s : string) : inkOf (trimEnd s) = inkOf s.
Proof.
  unfold inkOf. induction s as [|c s IH]; [reflexivity|]. cbn [trimEnd].
  cbn [list_ascii_of_string List.filter].
  destruct (trimEnd s) as [|d t]; destruct (isWhiteSpace c) eqn:Hc; cbn [negb].
  - exact IH.
  - cbn [list_ascii_of_string List.filter]. rewrite Hc. cbn [negb]. rewrite <- IH. reflexivity.
  - cbn [list_ascii_of_string List.filter] in *. rewrite Hc. cbn [negb]. exact IH.
  - cbn [list_ascii_of_string List.filter] in *. rewrite Hc. cbn [negb]. rewrite IH.
    reflexivity.
Qed.

(** X27. [cleanText] gives a normal form: in the result every white
    space character is a space, no two spaces are adjacent, and no
    white space starts or ends it; the characters that are not white
    space are those of the text, in their order; cleaning the result
    again changes nothing. The second replacement of the function,
    of runs of line feeds, never changes its argument: the first has
    left no line feed. *)
Theorem cleanText_normal_form (text : string) :
  let spaced := replaceRuns isWhiteSpace " " false text in
  replaceRuns isLineFeed (String (ascii_of_nat 10) EmptyString) false spaced = spaced
  /\ forallb (fun c => negb (isWhiteSpace c) || Ascii.eqb c " ")
       (list_ascii_of_string (cleanText text)) = true
  /\ includes (cleanText text) "  " = false
  /\ trimStart (cleanText text) = cleanText text
  /\ trimEnd (cleanText text) = cleanText text
  /\ inkOf (cleanText text) = inkOf text
  /\ cleanText (cleanText text) = cleanText text.
Proof.
  cbv zeta. set (spaced := replaceRuns isWhiteSpace " " false text).
  assert (Hs : singleSpaced false spaced = true) by apply singleSpaced_replaceRuns.
  assert (Hdead : replaceRuns isLineFeed (String (ascii_of_nat 10) EmptyString) false spaced
                  = spaced).
  { apply replaceRuns_isLineFeed, (singleSpaced_no_linefeed false), Hs. }
  assert (Hclean : cleanText text = trim spaced).
  { unfold cleanText. fold spaced. rewrite Hdead. reflexivity. }
  assert (Ht : singleSpaced false (trim spaced) = true).
  { unfold trim. apply singleSpaced_trimEnd, (singleSpaced_trimStart false), Hs. }
  split; [exact Hdead|]. rewrite Hclean.
  split; [apply (singleSpaced_chars false), Ht|].
  split; [apply (singleSpaced_no_double_space false), Ht|].
  split; [apply trimStart_trim|].
  split; [unfold trim; apply trimEnd_idem|].
  split.
  - unfold trim. rewrite inkOf_trimEnd, inkOf_trimStart. apply inkOf_replaceRuns.
  - unfold cleanText. rewrite (singleSpaced_fixed false _ Ht).
    rewrite (replaceRuns_isLineFeed false) by apply (singleSpaced_no_linefeed false), Ht.
    unfold trim at 1. rewrite trimStart_trim. apply trimEnd_idem.
Qed.

(* ================================================================== *)
(** ** Short questions have keys of their own *)
(* ================================================================== *)

Lemma b64value_b64char (n : Z) : (0 <= n < 64)%Z -> b64value (b64char n) = n.
Proof.
  intros H.
  assert (Hall : forallb (fun k => (b64value (b64char (Z.of_nat k)) =? Z.of_nat k)%Z)
                   (seq 0 64) = true) by (vm_compute; reflexivity).
  rewrite forallb_forall in Hall. specialize (Hall (Z.to_nat n)).
  rewrite Z2Nat.id in Hall by lia. apply Z.eqb_eq, Hall, in_seq. lia.
Qed.

Lemma b64char_inj (n m : Z) :
  (0 <= n < 64)%Z -> (0 <= m < 64)%Z -> b64char n = b64char m -> n = m.
Proof.
  intros Hn Hm H. rewrite <- (b64value_b64char n Hn), <- (b64value_b64char m Hm), H.
  reflexivity.
Qed.

Lemma b64char_not_padding (n : Z) : (0 <= n < 64)%Z -> b64char n <> "="%char.
Proof.
  intros Hn H. apply (f_equal b64value) in H. rewrite (b64value_b64char n Hn) in H.
  vm_compute in H. lia.
Qed.

Lemma sextets (a b c : Z) :
  (0 <= a < 256)%Z -> (0 <= b < 256)%Z -> (0 <= c < 256)%Z ->
  (0 <= a / 4 < 64)%Z /\ (0 <= a mod 4 * 16 + b / 16 < 64)%Z
  /\ (0 <= b mod 16 * 4 + c / 64 < 64)%Z /\ (0 <= c mod 64 < 64)%Z
  /\ (0 <= a mod 4 * 16 < 64)%Z /\ (0 <= b mod 16 * 4 < 64)%Z.
Proof.
  intros Ha Hb Hc.
  pose proof (Z.mod_pos_bound a 4). pose proof (Z.mod_pos_bound b 16).
  pose proof (Z.mod_pos_bound c 64).
  assert (0 <= a / 4 < 64)%Z by (split; [apply Z.div_pos|apply Z.div_lt_upper_bound]; lia).
  assert (0 <= b / 16 < 16)%Z by (split; [apply Z.div_pos|apply Z.div_lt_upper_bound]; lia).
  assert (0 <= c / 64 < 4)%Z by (split; [apply Z.div_pos|apply Z.div_lt_upper_bound]; lia).
  lia.
Qed.

(** The base64 text of a sequence of bytes is the text of no other. *)
Lemma base64_inj (l1 l2 : list Z) :
  Forall (fun b => 0 <= b < 256)%Z l1 -> Forall (fun b => 0 <= b < 256)%Z l2 ->
  base64 l1 = base64 l2 -> l1 = l2.
Proof.
  assert (H : forall n l1 l2, (length l1 <= n)%nat ->
            Forall (fun b => 0 <= b < 256)%Z l1 -> Forall (fun b => 0 <= b < 256)%Z l2 ->
            base64 l1 = base64 l2 -> l1 = l2).
  { induction n as [|n IH]; intros k1 k2 Hlen H1 H2 Heq.
    - destruct k1; [|cbn in Hlen; lia].
      destruct k2 as [|a [|b [|c rest]]]; [reflexivity|discriminate Heq..].
    - destruct k1 as [|a1 [|b1 [|c1 r1]]], k2 as [|a2 [|b2 [|c2 r2]]];
        try reflexivity; try discriminate Heq;
        repeat match goal with
               | H : Forall _ (_ :: _) |- _ => apply Forall_cons in H as [? H]
               end.
      + (* one byte, one byte *)
        cbn [base64] in Heq. inversion Heq as [[Hq Hr]].
        destruct (sextets a1 0 0) as (? & _ & _ & _ & ? & _); [lia..|].
        destruct (sextets a2 0 0) as (? & _ & _ & _ & ? & _); [lia..|].
        apply b64char_inj in Hq; [|assumption..]. apply b64char_inj in Hr; [|assumption..].
        f_equal. rewrite (Z.div_mod a1 4), (Z.div_mod a2 4) by lia. lia.
      + (* one byte, two bytes *)
        cbn [base64] in Heq. inversion Heq as [[Hq Hr Hp]].
        destruct (sextets a2 b2 0) as (_ & _ & _ & _ & _ & ?); [lia..|].
        symmetry in Hp. apply b64char_not_padding in Hp; [destruct Hp|assumption].
      + (* one byte, three bytes or more *)
        rewrite base64_cons3 in Heq. cbn [base64] in Heq. inversion Heq as [[Hq Hr Hp]].
        destruct (sextets a2 b2 c2) as (_ & _ & ? & _); [lia..|].
        symmetry in Hp. apply b64char_not_padding in Hp; [destruct Hp|assumption].
      + cbn [base64] in Heq. inversion Heq as [[Hq Hr Hp]].
        destruct (sextets a1 b1 0) as (_ & _ & _ & _ & _ & ?); [lia..|].
        apply b64char_not_padding in Hp; [destruct Hp|assumption].
      + (* two bytes, two bytes *)
        cbn [base64] in Heq. inversion Heq as [[Hq Hr Hp]].
        destruct (sextets a1 b1 0) as (? & ? & _ & _ & _ & ?); [lia..|].
        destruct (sextets a2 b2 0) as (? & ? & _ & _ & _ & ?); [lia..|].
        apply b64char_inj in Hq; [|assumption..]. apply b64char_inj in Hr; [|assumption..].
        apply b64char_inj in Hp; [|assumption..].
        pose proof (Z.div_mod a1 4). pose proof (Z.div_mod a2 4).
        pose proof (Z.div_mod b1 16). pose proof (Z.div_mod b2 16).
        pose proof (Z.mod_pos_bound a1 4). pose proof (Z.mod_pos_bound a2 4).
        pose proof (Z.mod_pos_bound b1 16). pose proof (Z.mod_pos_bound b2 16).
        assert (0 <= b1 / 16 < 16)%Z
          by (split; [apply Z.div_pos|apply Z.div_lt_upper_bound]; lia).
        assert (0 <= b2 / 16 < 16)%Z
          by (split; [apply Z.div_pos|apply Z.div_lt_upper_bound]; lia).
        assert (a1 = a2) by lia. assert (b1 = b2) by lia. subst. reflexivity.
      + (* two bytes, three bytes or more *)
        rewrite base64_cons3 in Heq. cbn [base64] in Heq. inversion Heq as [[Hq Hr Hp Hpad]].
        destruct (sextets a2 b2 c2) as (_ & _ & _ & ? & _); [lia..|].
        symmetry in Hpad. apply b64char_not_padding in Hpad; [destruct Hpad|assumption].
      + rewrite base64_cons3 in Heq. cbn [base64] in Heq. inversion Heq as [[Hq Hr Hp]].
        destruct (sextets a1 b1 c1) as (_ & _ & ? & _); [lia..|].
        apply b64char_not_padding in Hp; [destruct Hp|assumption].
      + rewrite base64_cons3 in Heq. cbn [base64] in Heq. inversion Heq as [[Hq Hr Hp Hpad]].
        destruct (sextets a1 b1 c1) as (_ & _ & _ & ? & _); [lia..|].
        apply b64char_not_padding in Hpad; [destruct Hpad|assumption].
      + (* three bytes or more, twice *)
        rewrite !base64_cons3 in Heq. inversion Heq as [[Hq Hr Hp Hs Hrest]].
        destruct (sextets a1 b1 c1) as (? & ? & ? & ? & _); [lia..|].
        destruct (sextets a2 b2 c2) as (? & ? & ? & ? & _); [lia..|].
        apply b64char_inj in Hq; [|assumption..]. apply b64char_inj in Hr; [|assumption..].
        apply b64char_inj in Hp; [|assumption..]. apply b64char_inj in Hs; [|assumption..].
        pose proof (Z.div_mod a1 4). pose proof (Z.div_mod a2 4).
        pose proof (Z.div_mod b1 16). pose proof (Z.div_mod b2 16).
        pose proof (Z.div_mod c1 64). pose proof (Z.div_mod c2 64).
        pose proof (Z.mod_pos_bound a1 4). pose proof (Z.mod_pos_bound a2 4).
        pose proof (Z.mod_pos_bound b1 16). pose proof (Z.mod_pos_bound b2 16).
        pose proof (Z.mod_pos_bound c1 64). pose proof (Z.mod_pos_bound c2 64).
        assert (0 <= b1 / 16 < 16)%Z
          by (split; [apply Z.div_pos|apply Z.div_lt_upper_bound]; lia).
        assert (0 <= b2 / 16 < 16)%Z
          by (split; [apply Z.div_pos|apply Z.div_lt_upper_bound]; lia).
        assert (0 <= c1 / 64 < 4)%Z
          by (split; [apply Z.div_pos|apply Z.div_lt_upper_bound]; lia).
        assert (0 <= c2 / 64 < 4)%Z
          by (split; [apply Z.div_pos|apply Z.div_lt_upper_bound]; lia).
        assert (a1 = a2) by lia. assert (b1 = b2) by lia. assert (c1 = c2) by lia.
        subst. f_equal. f_equal. f_equal.
        apply (IH r1 r2); [cbn [length] in Hlen; lia|assumption..]. }
  intros H1 H2 Heq. apply (H (length l1) l1 l2); [lia|assumption..].
Qed.

Lemma charCode_inj (c d : ascii) : charCode c = charCode d -> c = d.
Proof.
  unfold charCode. intros H. apply N2Z.inj in H.
  rewrite <- (ascii_N_embedding c), <- (ascii_N_embedding d), H. reflexivity.
Qed.

Lemma charCode_range (c : ascii) : (0 <= charCode c < 256)%Z.
Proof. unfold charCode. pose proof (N_ascii_bounded c). lia. Qed.

Lemma base64_length (k : nat) (l : list Z) :
  (length l <= 3 * k)%nat -> (String.length (base64 l) <= 4 * k)%nat.
Proof.
  revert l. induction k as [|k IH]; intros l H.
  - destruct l; [cbn; lia|cbn in H; lia].
  - destruct l as [|a [|b [|c rest]]]; [cbn; lia|cbn; lia|cbn; lia|].
    rewrite base64_cons3. cbn [String.length length] in *.
    specialize (IH rest). lia.
Qed.

Lemma substring0_short (n : nat) (s : string) :
  (String.length s <= n)%nat -> substring0 n s = s.
Proof.
  unfold substring0. revert n. induction s as [|c s IH]; intros n H.
  - destruct n; reflexivity.
  - destruct n as [|n]; [cbn in H; lia|]. cbn [String.substring].
    rewrite IH by (cbn in H; lia). reflexivity.
Qed.

Lemma substring0_length (n : nat) (s : string) :
  String.length (substring0 n s) = Nat.min n (String.length s).
Proof.
  unfold substring0. revert n. induction s as [|c s IH]; intros n.
  - destruct n; reflexivity.
  - destruct n as [|n]; [reflexivity|]. cbn [String.substring String.length].
    rewrite IH. reflexivity.
Qed.

(* ================================================================== *)
(** ** The Answer Cache key on all strings of JavaScript *)
(* ================================================================== *)

Lemma units_append (a b : string) : units (a +:+ b) = units a ++ units b.
Proof.
  unfold units. induction a as [|c a IH]; [reflexivity|].
  rewrite append_cons. cbn [list_ascii_of_string map app]. rewrite IH. reflexivity.
Qed.

Lemma units_inj (a b : string) : units a = units b -> a = b.
Proof.
  unfold units. revert b. induction a as [|c a IH]; intros [|d b] H;
    cbn [list_ascii_of_string map] in H; try discriminate H; [reflexivity|].
  injection H as Hc Hr. f_equal; [apply charCode_inj, Hc|apply IH, Hr].
Qed.

Lemma units_colonFree (s : string) : colonFree s = true -> ~ In 58%Z (units s).
Proof.
  unfold units. induction s as [|c s IH]; intros H Hin; [destruct Hin|].
  cbn [colonFree] in H. apply andb_true_iff in H as [Hc Hs].
  cbn [list_ascii_of_string map] in Hin. destruct Hin as [Hin|Hin]; [|apply (IH Hs Hin)].
  change 58%Z with (charCode ":") in Hin. apply charCode_inj in Hin. subst c.
  discriminate Hc.
Qed.

(** The code points of a string of code units below 256 are its code
    units, and [Buffer.from] is [utf8] on it. *)
Lemma Buffer_from_units (s : string) : Buffer_from (units s) = utf8 s.
Proof.
  unfold Buffer_from, units. induction s as [|c s IH]; [reflexivity|].
  cbn [list_ascii_of_string map codePoints utf8].
  pose proof (charCode_range c) as Hc.
  unfold isLeadSurrogate, isTrailSurrogate.
  destruct (Z.leb_spec 0xD800 (charCode c)); [lia|].
  destruct (Z.leb_spec 0xDC00 (charCode c)); [lia|].
  cbn [andb flat_map]. rewrite IH. unfold utf8Bytes.
  destruct (Z.ltb_spec (charCode c) 128); [reflexivity|].
  destruct (Z.ltb_spec (charCode c) 0x800); [reflexivity|lia].
Qed.

Lemma answerCacheKeyOf_units (roomId question : string) (enabled : bool) :
  answerCacheKeyOf (units roomId) (units question) enabled
  = units (answerCacheKey roomId question enabled).
Proof.
  unfold answerCacheKeyOf, answerCacheKey.
  rewrite !units_append, Buffer_from_units, <- ?app_assoc. reflexivity.
Qed.

(** A list is cut at its last colon in one way only. *)
Lemma last_colon_split_units (x1 x2 y1 y2 : list Z) :
  ~ In 58%Z y1 -> ~ In 58%Z y2 ->
  x1 ++ 58%Z :: y1 = x2 ++ 58%Z :: y2 -> x1 = x2 /\ y1 = y2.
Proof.
  intros H1 H2. revert x2. induction x1 as [|c x1 IH]; intros [|d x2] H; cbn [app] in H.
  - injection H as ->. split; reflexivity.
  - injection H as <- ->. exfalso. apply H1, in_or_app. right. left. reflexivity.
  - injection H as -> <-. exfalso. apply H2, in_or_app. right. left. reflexivity.
  - injection H as -> H. destruct (IH x2 H) as [-> ->]. split; reflexivity.
Qed.

(** The code points of code units are code points. *)
Lemma codePoints_range (str : list Z) :
  Forall (fun u => isCodeUnit u = true) str ->
  Forall (fun cp => 0 <= cp < 0x110000)%Z (codePoints str).
Proof.
  assert (H : forall n str, (length str <= n)%nat ->
            Forall (fun u => isCodeUnit u = true) str ->
            Forall (fun cp => 0 <= cp < 0x110000)%Z (codePoints str)).
  { induction n as [|n IH]; intros l Hn Hl.
    - destruct l; [constructor|cbn in Hn; lia].
    - destruct l as [|u rest]; [constructor|].
      inversion Hl as [|? ? Hu Hrest]; subst. cbn [codePoints].
      unfold isCodeUnit in Hu. apply andb_true_iff in Hu as [Hu1 Hu2].
      apply Z.leb_le in Hu1. apply Z.ltb_lt in Hu2.
      cbn [length] in Hn.
      destruct (isLeadSurrogate u) eqn:Hlead.
      + unfold isLeadSurrogate in Hlead. apply andb_true_iff in Hlead as [Hl1 Hl2].
        apply Z.leb_le in Hl1. apply Z.leb_le in Hl2.
        destruct rest as [|v rest']; [constructor; [lia|constructor]|].
        destruct (isTrailSurrogate v) eqn:Htrail.
        * unfold isTrailSurrogate in Htrail. apply andb_true_iff in Htrail as [Ht1 Ht2].
          apply Z.leb_le in Ht1. apply Z.leb_le in Ht2.
          inversion Hrest; subst.
          constructor; [lia|]. apply IH; [cbn [length] in Hn; lia|assumption].
        * constructor; [lia|]. apply IH; [lia|exact Hrest].
      + destruct (isTrailSurrogate u); (constructor; [lia|]); apply IH; try lia; exact Hrest. }
  apply (H (length str)). lia.
Qed.

Lemma isWellFormed_units (str : list Z) :
  isWellFormed str = true -> Forall (fun u => isCodeUnit u = true) str.
Proof.
  assert (H : forall n str, (length str <= n)%nat -> isWellFormed str = true ->
            Forall (fun u => isCodeUnit u = true) str).
  { induction n as [|n IH]; intros l Hn Hl.
    - destruct l; [constructor|cbn in Hn; lia].
    - destruct l as [|u rest]; [constructor|]. cbn [isWellFormed] in Hl. cbn [length] in Hn.
      apply andb_true_iff in Hl as [Hu Hl]. constructor; [exact Hu|].
      destruct (isLeadSurrogate u).
      + destruct rest as [|v rest']; [discriminate Hl|].
        apply andb_true_iff in Hl as [Hv Hl].
        constructor.
        * unfold isTrailSurrogate in Hv. unfold isCodeUnit.
          apply andb_true_iff in Hv as [Hv1 Hv2].
          apply Z.leb_le in Hv1. apply Z.leb_le in Hv2.
          apply andb_true_iff. split; [apply Z.leb_le|apply Z.ltb_lt]; lia.
        * apply IH; [cbn [length] in Hn; lia|exact Hl].
      + apply andb_true_iff in Hl as [_ Hl]. apply IH; [lia|exact Hl]. }
  apply (H (length str)). lia.
Qed.

(** A well-formed string is the only well-formed string with its code
    points. *)
Lemma codePoints_inj (str1 str2 : list Z) :
  isWellFormed str1 = true -> isWellFormed str2 = true ->
  codePoints str1 = codePoints str2 -> str1 = str2.
Proof.
  assert (Hhead : forall u rest,
            isWellFormed (u :: rest) = true ->
            (isLeadSurrogate u = false /\ isTrailSurrogate u = false
             /\ (0 <= u < 65536)%Z /\ isWellFormed rest = true
             /\ codePoints (u :: rest) = u :: codePoints rest)
            \/ exists v rest',
                 rest = v :: rest' /\ isWellFormed rest' = true
                 /\ (0xD800 <= u <= 0xDBFF)%Z /\ (0xDC00 <= v <= 0xDFFF)%Z
                 /\ codePoints (u :: rest)
                    = (0x10000 + (u - 0xD800) * 0x400 + (v - 0xDC00))%Z :: codePoints rest').
  { intros u rest H. cbn [isWellFormed] in H. apply andb_true_iff in H as [Hu H].
    unfold isCodeUnit in Hu. apply andb_true_iff in Hu as [Hu1 Hu2].
    apply Z.leb_le in Hu1. apply Z.ltb_lt in Hu2. cbn [codePoints].
    destruct (isLeadSurrogate u) eqn:Hlead.
    - right. destruct rest as [|v rest']; [discriminate H|].
      apply andb_true_iff in H as [Hv H]. exists v, rest'. rewrite Hv.
      unfold isLeadSurrogate in Hlead. apply andb_true_iff in Hlead as [Hl1 Hl2].
      apply Z.leb_le in Hl1. apply Z.leb_le in Hl2.
      unfold isTrailSurrogate in Hv. apply andb_true_iff in Hv as [Hv1 Hv2].
      apply Z.leb_le in Hv1. apply Z.leb_le in Hv2.
      repeat split; try assumption; reflexivity.
    - left. apply andb_true_iff in H as [Ht H]. apply negb_true_iff in Ht. rewrite Ht.
      repeat split; try assumption; reflexivity. }
  assert (H : forall n str1 str2, (length str1 <= n)%nat ->
            isWellFormed str1 = true -> isWellFormed str2 = true ->
            codePoints str1 = codePoints str2 -> str1 = str2).
  { induction n as [|n IH]; intros l1 l2 Hn H1 H2 Heq.
    - destruct l1; [|cbn in Hn; lia]. destruct l2 as [|u2 r2]; [reflexivity|].
      destruct (Hhead u2 r2 H2) as [(_ & _ & _ & _ & E)|(v & r & _ & _ & _ & _ & E)];
        rewrite E in Heq; discriminate Heq.
    - destruct l1 as [|u1 r1].
      { destruct l2 as [|u2 r2]; [reflexivity|].
        destruct (Hhead u2 r2 H2) as [(_ & _ & _ & _ & E)|(v & r & _ & _ & _ & _ & E)];
          rewrite E in Heq; discriminate Heq. }
      destruct l2 as [|u2 r2].
      { destruct (Hhead u1 r1 H1) as [(_ & _ & _ & _ & E)|(v & r & _ & _ & _ & _ & E)];
          rewrite E in Heq; discriminate Heq. }
      cbn [length] in Hn.
      destruct (Hhead u1 r1 H1) as [(La & Ta & Ra & Wa & Ea)|(va & ra & -> & Wa & Ua & Va & Ea)];
        destruct (Hhead u2 r2 H2) as [(Lb & Tb & Rb & Wb & Eb)|(vb & rb & -> & Wb & Ub & Vb & Eb)];
        rewrite Ea, Eb in Heq; injection Heq as Hcp Hrest.
      + subst u2. f_equal. apply (IH r1 r2); [lia|assumption..].
      + exfalso. lia.
      + exfalso. lia.
      + assert (u1 = u2 /\ va = vb) as [-> ->] by lia.
        do 2 f_equal. apply (IH ra rb); [cbn [length] in Hn; lia|assumption..]. }
  intros H1 H2 Heq. apply (H (length str1) str1 str2); [lia|assumption..].
Qed.

Lemma utf8Bytes_bytes (cp : Z) :
  (0 <= cp < 0x110000)%Z -> Forall (fun b => 0 <= b < 256)%Z (utf8Bytes cp).
Proof.
  intros H. unfold utf8Bytes.
  destruct (Z.ltb_spec cp 0x80); [|destruct (Z.ltb_spec cp 0x800);
                                    [|destruct (Z.ltb_spec cp 0x10000)]];
    repeat constructor; Z.to_euclidean_division_equations; lia.
Qed.

(** UTF-8 is a prefix code: the bytes of a code point, followed by any
    bytes, tell the code point. *)
Lemma utf8Bytes_prefix (cp1 cp2 : Z) (rest1 rest2 : list Z) :
  (0 <= cp1 < 0x110000)%Z -> (0 <= cp2 < 0x110000)%Z ->
  utf8Bytes cp1 ++ rest1 = utf8Bytes cp2 ++ rest2 -> cp1 = cp2 /\ rest1 = rest2.
Proof.
  intros H1 H2. unfold utf8Bytes.
  assert (D1 : (cp1 / 4096 = cp1 / 64 / 64)%Z) by (rewrite Z.div_div by lia; reflexivity).
  assert (D2 : (cp2 / 4096 = cp2 / 64 / 64)%Z) by (rewrite Z.div_div by lia; reflexivity).
  assert (E1 : (cp1 / 262144 = cp1 / 64 / 64 / 64)%Z)
    by (rewrite !Z.div_div by lia; reflexivity).
  assert (E2 : (cp2 / 262144 = cp2 / 64 / 64 / 64)%Z)
    by (rewrite !Z.div_div by lia; reflexivity).
  rewrite D1, D2, E1, E2.
  destruct (Z.ltb_spec cp1 0x80); [|destruct (Z.ltb_spec cp1 0x800);
                                     [|destruct (Z.ltb_spec cp1 0x10000)]];
    (destruct (Z.ltb_spec cp2 0x80); [|destruct (Z.ltb_spec cp2 0x800);
                                        [|destruct (Z.ltb_spec cp2 0x10000)]]);
    cbn [app]; intros Heq; injection Heq as Heq;
    clear D1 D2 E1 E2; subst;
    try (split; [Z.to_euclidean_division_equations; lia|reflexivity]);
    exfalso; Z.to_euclidean_division_equations; lia.
Qed.

Lemma utf8Bytes_inj (cps1 cps2 : list Z) :
  Forall (fun cp => 0 <= cp < 0x110000)%Z cps1 ->
  Forall (fun cp => 0 <= cp < 0x110000)%Z cps2 ->
  flat_map utf8Bytes cps1 = flat_map utf8Bytes cps2 -> cps1 = cps2.
Proof.
  assert (Hne : forall cp rest, utf8Bytes cp ++ rest <> []).
  { intros cp rest. unfold utf8Bytes.
    destruct (cp <? 0x80)%Z; [|destruct (cp <? 0x800)%Z; [|destruct (cp <? 0x10000)%Z]];
      discriminate. }
  intros H1. revert cps2. induction H1 as [|c1 l1 Hc1 _ IH]; intros cps2 H2 Heq.
  - destruct cps2 as [|c2 l2]; [reflexivity|]. cbn [flat_map] in Heq.
    symmetry in Heq. destruct (Hne _ _ Heq).
  - destruct H2 as [|c2 l2 Hc2 H2]; cbn [flat_map] in Heq; [destruct (Hne _ _ Heq)|].
    apply utf8Bytes_prefix in Heq as [-> Heq]; [|assumption..].
    f_equal. apply (IH l2 H2 Heq).
Qed.

(** [Buffer.from] is one-to-one on the well-formed strings. *)
Lemma Buffer_from_inj (str1 str2 : list Z) :
  isWellFormed str1 = true -> isWellFormed str2 = true ->
  Buffer_from str1 = Buffer_from str2 -> str1 = str2.
Proof.
  intros H1 H2 H. apply codePoints_inj; [assumption..|].
  apply utf8Bytes_inj; [apply codePoints_range, isWellFormed_units, H1
                       |apply codePoints_range, isWellFormed_units, H2|exact H].
Qed.

Lemma Buffer_from_bytes (str : list Z) :
  Forall (fun u => isCodeUnit u = true) str ->
  Forall (fun b => 0 <= b < 256)%Z (Buffer_from str).
Proof.
  intros H. apply codePoints_range in H. unfold Buffer_from.
  induction H as [|cp l Hcp _ IH]; [constructor|].
  cbn [flat_map]. apply Forall_app. split; [apply utf8Bytes_bytes, Hcp|exact IH].
Qed.

(** The part of a key that comes from the question. *)
Lemma answerCacheKeyOf_question (room1 room2 question1 question2 : list Z)
    (enabled1 enabled2 : bool) :
  Forall (fun u => isCodeUnit u = true) question1 ->
  Forall (fun u => isCodeUnit u = true) question2 ->
  answerCacheKeyOf room1 question1 enabled1 = answerCacheKeyOf room2 question2 enabled2 ->
  room1 = room2 /\ enabled1 = enabled2
  /\ substring0 50 (base64 (Buffer_from question1))
     = substring0 50 (base64 (Buffer_from question2)).
Proof.
  intros H1 H2 H. unfold answerCacheKeyOf in H.
  apply app_inv_head in H.
  set (b1 := units (substring0 50 (base64 (Buffer_from question1)))) in *.
  set (b2 := units (substring0 50 (base64 (Buffer_from question2)))) in *.
  change (room1 ++ 58%Z :: b1 ++ 58%Z :: units ("ws" +:+ JSON_bool enabled1)
          = room2 ++ 58%Z :: b2 ++ 58%Z :: units ("ws" +:+ JSON_bool enabled2)) in H.
  change (room1 ++ 58%Z :: b1 ++ 58%Z :: units ("ws" +:+ JSON_bool enabled1))
    with (room1 ++ (58%Z :: b1) ++ 58%Z :: units ("ws" +:+ JSON_bool enabled1)) in H.
  change (room2 ++ 58%Z :: b2 ++ 58%Z :: units ("ws" +:+ JSON_bool enabled2))
    with (room2 ++ (58%Z :: b2) ++ 58%Z :: units ("ws" +:+ JSON_bool enabled2)) in H.
  rewrite !app_assoc in H.
  apply last_colon_split_units in H as [H Hflag];
    [|apply units_colonFree; destruct enabled1; reflexivity
     |apply units_colonFree; destruct enabled2; reflexivity].
  assert (Hb : forall q, Forall (fun u => isCodeUnit u = true) q ->
                 ~ In 58%Z (units (substring0 50 (base64 (Buffer_from q))))).
  { intros q Hq. apply units_colonFree, colonFree_substring, colonFree_base64,
      Buffer_from_bytes, Hq. }
  apply last_colon_split_units in H as [Hroom Hq]; [|apply Hb, H1|apply Hb, H2].
  split; [exact Hroom|]. split; [|apply units_inj, Hq].
  destruct enabled1, enabled2; try reflexivity; discriminate Hflag.
Qed.

(** X28. Short questions have keys of their own. A question is a
    string of JavaScript in full, a list of UTF-16 code units, and so is
    a room id. A well-formed question of at most 36 bytes in UTF-8
    shares its Answer Cache key with no other well-formed question,
    whatever the rooms and the settings; so an answer cached for it is
    not returned for another well-formed question. (Strings with lone
    surrogates are left out: [Buffer.from] writes each lone surrogate as
    the bytes of U+FFFD.) *)
Theorem short_question_key_is_its_own (question1 question2 : list Z) :
  isWellFormed question1 = true -> isWellFormed question2 = true ->
  (length (Buffer_from question1) <= 36)%nat ->
  question1 <> question2 ->
  forall (room1 room2 : list Z) (enabled1 enabled2 : bool),
    answerCacheKeyOf room1 question1 enabled1 <> answerCacheKeyOf room2 question2 enabled2.
Proof.
  intros W1 W2 Hlen Hne room1 room2 enabled1 enabled2 H. apply Hne.
  pose proof (isWellFormed_units _ W1) as U1. pose proof (isWellFormed_units _ W2) as U2.
  apply answerCacheKeyOf_question in H as (_ & _ & Hq); [|assumption..].
  assert (H1 : (String.length (base64 (Buffer_from question1)) <= 48)%nat)
    by (apply (base64_length 12); exact Hlen).
  rewrite (substring0_short 50 (base64 (Buffer_from question1))) in Hq by lia.
  assert (H2 : (String.length (base64 (Buffer_from question2)) <= 48)%nat).
  { pose proof (substring0_length 50 (base64 (Buffer_from question2))) as Hl.
    rewrite <- Hq in Hl. lia. }
  rewrite (substring0_short 50 (base64 (Buffer_from question2))) in Hq by lia.
  apply Buffer_from_inj; [assumption..|].
  apply (base64_inj _ _ (Buffer_from_bytes _ U1) (Buffer_from_bytes _ U2)), Hq.
Qed.

(* ================================================================== *)
(** ** The order of the retrieved passages *)
(* ================================================================== *)

(** A number that is not [NaN] is below 0, 0 or above 0, and one of
    the three only. *)
Lemma float_sign_cases (v : float) :
  PrimFloat.is_nan v = false -> PrimFloat.ltb v 0 = false -> PrimFloat.ltb 0 v = false ->
  PrimFloat.eqb v 0 = true.
Proof.
  unfold PrimFloat.is_nan.
  rewrite !FloatAxioms.ltb_spec, !FloatAxioms.eqb_spec.
  change (Prim2SF 0) with (S754_zero false).
  destruct (Prim2SF v) as [s|s| |s m e]; cbn; try destruct s; intros; congruence.
Qed.

Lemma float_sign_exclusive (v : float) :
  (PrimFloat.ltb v 0 = true -> PrimFloat.eqb v 0 = false /\ PrimFloat.ltb 0 v = false)
  /\ (PrimFloat.ltb 0 v = true -> PrimFloat.eqb v 0 = false).
Proof.
  rewrite !FloatAxioms.ltb_spec, !FloatAxioms.eqb_spec.
  change (Prim2SF 0) with (S754_zero false).
  destruct (Prim2SF v) as [s|s| |s m e]; cbn; try destruct s; repeat split; congruence.
Qed.

(** A passage whose score is [NaN] is not tied with itself. *)
Lemma tiedWith_no_nan (c : Candidate) :
  tiedWith c c = true -> PrimFloat.is_nan (c_similarity c) = false.
Proof.
  unfold tiedWith, comparefn, PrimFloat.is_nan.
  rewrite !FloatAxioms.eqb_spec, FloatAxioms.sub_spec.
  change (Prim2SF 0) with (S754_zero false).
  destruct (Prim2SF (c_similarity c)) as [s|s| |s m e] eqn:E.
  - intros _. reflexivity.
  - intros _. destruct s; reflexivity.
  - intros H. cbn in H. discriminate H.
  - intros _. cbn. destruct s; rewrite Z.compare_refl, Pos.compare_cont_refl; reflexivity.
Qed.

(** What a consistent comparator gives on the passages of the list. *)
Lemma consistentComparator_spec (l : list Candidate) :
  consistentComparator l = true ->
  forall a, In a l ->
    tiedWith a a = true
    /\ forall b, In b l ->
         PrimFloat.is_nan (comparefn a b) = false
         /\ (tiedWith a b = true -> tiedWith b a = true)
         /\ forall c, In c l ->
              (tiedWith a b = true -> tiedWith b c = true -> tiedWith a c = true)
              /\ (goesBefore a b = true -> goesBefore b c = true -> goesBefore a c = true)
              /\ (goesAfter a b = true -> goesAfter b c = true -> goesAfter a c = true).
Proof.
  unfold consistentComparator. intros H a Ha.
  rewrite forallb_forall in H. specialize (H a Ha).
  apply andb_true_iff in H as [Hrefl H]. split; [exact Hrefl|].
  intros b Hb. rewrite forallb_forall in H. specialize (H b Hb).
  apply andb_true_iff in H as [H Htrans]. apply andb_true_iff in H as [Hnan Hsym].
  split; [apply negb_true_iff, Hnan|]. split.
  - intros Hab. rewrite Hab in Hsym. exact Hsym.
  - intros c Hc. rewrite forallb_forall in Htrans. specialize (Htrans c Hc).
    apply andb_true_iff in Htrans as [Htrans H3].
    apply andb_true_iff in Htrans as [H1 H2].
    repeat split; intros Hab Hbc; rewrite Hab, Hbc in *; assumption.
Qed.

Section ConsistentComparator.

Variable l : list Candidate.
Hypothesis consistent : consistentComparator l = true.

Lemma goesBefore_not_tied (a b : Candidate) :
  goesBefore a b = true -> tiedWith a b = false.
Proof.
  intros H. destruct (float_sign_exclusive (comparefn a b)) as [H1 _].
  apply (H1 H).
Qed.

Lemma goesAfter_not_tied (a b : Candidate) :
  goesAfter a b = true -> tiedWith a b = false.
Proof.
  intros H. destruct (float_sign_exclusive (comparefn a b)) as [_ H2].
  apply (H2 H).
Qed.

Lemma comparator_cases (a b : Candidate) :
  In a l -> In b l -> goesBefore a b = true \/ tiedWith a b = true \/ goesAfter a b = true.
Proof.
  intros Ha Hb.
  destruct (consistentComparator_spec l consistent a Ha) as (_ & H).
  destruct (H b Hb) as (Hnan & _).
  destruct (goesBefore a b) eqn:Hlt; [left; reflexivity|].
  destruct (goesAfter a b) eqn:Hgt; [right; right; reflexivity|].
  right; left. apply float_sign_cases; assumption.
Qed.

Lemma goesBefore_asym (a b : Candidate) :
  In a l -> In b l -> goesBefore a b = true -> goesBefore b a = false.
Proof.
  intros Ha Hb Hab. destruct (goesBefore b a) eqn:Hba; [|reflexivity].
  destruct (consistentComparator_spec l consistent a Ha) as (Hrefl & H).
  destruct (H b Hb) as (_ & _ & H3). destruct (H3 a Ha) as (_ & Hlt & _).
  apply goesBefore_not_tied in Hlt; [congruence|assumption..].
Qed.

Lemma goesAfter_asym (a b : Candidate) :
  In a l -> In b l -> goesAfter a b = true -> goesAfter b a = false.
Proof.
  intros Ha Hb Hab. destruct (goesAfter b a) eqn:Hba; [|reflexivity].
  destruct (consistentComparator_spec l consistent a Ha) as (Hrefl & H).
  destruct (H b Hb) as (_ & _ & H3). destruct (H3 a Ha) as (_ & _ & Hgt).
  apply goesAfter_not_tied in Hgt; [congruence|assumption..].
Qed.

Lemma tiedWith_sym (a b : Candidate) :
  In a l -> In b l -> tiedWith a b = true -> tiedWith b a = true.
Proof.
  intros Ha Hb. destruct (consistentComparator_spec l consistent a Ha) as (_ & H).
  apply (H b Hb).
Qed.

Lemma tiedWith_trans (a b c : Candidate) :
  In a l -> In b l -> In c l ->
  tiedWith a b = true -> tiedWith b c = true -> tiedWith a c = true.
Proof.
  intros Ha Hb Hc. destruct (consistentComparator_spec l consistent a Ha) as (_ & H).
  destruct (H b Hb) as (_ & _ & H3). apply (H3 c Hc).
Qed.

Lemma goesBefore_trans (a b c : Candidate) :
  In a l -> In b l -> In c l ->
  goesBefore a b = true -> goesBefore b c = true -> goesBefore a c = true.
Proof.
  intros Ha Hb Hc. destruct (consistentComparator_spec l consistent a Ha) as (_ & H).
  destruct (H b Hb) as (_ & _ & H3). apply (H3 c Hc).
Qed.

(** [a <CF b] exactly when [b >CF a]. *)
Lemma goesBefore_goesAfter (a b : Candidate) :
  In a l -> In b l -> goesBefore a b = true -> goesAfter b a = true.
Proof.
  intros Ha Hb Hab.
  destruct (comparator_cases b a Hb Ha) as [H|[H|H]]; [| |exact H].
  - rewrite (goesBefore_asym a b Ha Hb Hab) in H. discriminate H.
  - apply (tiedWith_sym b a Hb Ha) in H.
    rewrite (goesBefore_not_tied a b Hab) in H. discriminate H.
Qed.

Lemma goesAfter_goesBefore (a b : Candidate) :
  In a l -> In b l -> goesAfter a b = true -> goesBefore b a = true.
Proof.
  intros Ha Hb Hab.
  destruct (comparator_cases b a Hb Ha) as [H|[H|H]]; [exact H| |].
  - apply (tiedWith_sym b a Hb Ha) in H.
    rewrite (goesAfter_not_tied a b Hab) in H. discriminate H.
  - rewrite (goesAfter_asym a b Ha Hb Hab) in H. discriminate H.
Qed.

(** A passage that goes before [z] goes before every passage that does
    not go before [z]. *)
Lemma goesBefore_carried (y z w : Candidate) :
  In y l -> In z l -> In w l ->
  goesBefore y z = true -> goesBefore w z = false -> goesBefore y w = true.
Proof.
  intros Hy Hz Hw Hyz Hwz.
  destruct (comparator_cases w z Hw Hz) as [H|[H|H]]; [congruence| |].
  - destruct (comparator_cases y w Hy Hw) as [H'|[H'|H']]; [exact H'| |].
    + pose proof (tiedWith_trans y w z Hy Hw Hz H' H) as E.
      rewrite (goesBefore_not_tied y z Hyz) in E. discriminate E.
    + apply (goesAfter_goesBefore y w Hy Hw) in H'.
      pose proof (goesBefore_trans w y z Hw Hy Hz H' Hyz). congruence.
  - apply (goesAfter_goesBefore w z Hw Hz) in H.
    apply (goesBefore_trans y z w Hy Hz Hw Hyz H).
Qed.

End ConsistentComparator.

Lemma In_insertSorted (x z : Candidate) (l : list Candidate) :
  In z (insertSorted x l) <-> z = x \/ In z l.
Proof.
  induction l as [|y l IH]; cbn [insertSorted].
  - split; [intros [<-|[]]; left; reflexivity|intros [->|[]]; left; reflexivity].
  - destruct (goesBefore x y).
    + split; [intros [<-|H]; [left; reflexivity|right; exact H]
             |intros [->|H]; [left; reflexivity|right; exact H]].
    + split.
      * intros [<-|H]; [right; left; reflexivity|].
        apply IH in H as [->|H]; [left; reflexivity|right; right; exact H].
      * intros [->|[<-|H]]; [right; apply IH; left; reflexivity|left; reflexivity|].
        right. apply IH. right. exact H.
Qed.

Lemma Permutation_insertSorted (x : Candidate) (l : list Candidate) :
  Permutation (insertSorted x l) (x :: l).
Proof.
  induction l as [|y l IH]; cbn [insertSorted]; [reflexivity|].
  destruct (goesBefore x y); [reflexivity|].
  etransitivity; [apply perm_skip, IH|apply perm_swap].
Qed.

Lemma Permutation_sortBySimilarity (l : list Candidate) :
  Permutation (sortBySimilarity l) l.
Proof.
  unfold sortBySimilarity.
  assert (H : forall sorted,
            Permutation (fold_left (fun sorted x => insertSorted x sorted) l sorted)
              (sorted ++ l)).
  { induction l as [|x l IH]; intros sorted; cbn [fold_left].
    - rewrite app_nil_r. reflexivity.
    - etransitivity; [apply IH|].
      etransitivity; [apply Permutation_app_tail, Permutation_insertSorted|].
      apply Permutation_middle. }
  apply (H []).
Qed.

(** Inserting a passage keeps a list in order, when the comparator is
    consistent on the passages at hand. *)
Lemma insertSorted_ordered (all : list Candidate) (x : Candidate) (l : list Candidate) :
  consistentComparator all = true -> In x all -> (forall z, In z l -> In z all) ->
  ForallOrdPairs (fun a b => goesBefore b a = false) l ->
  ForallOrdPairs (fun a b => goesBefore b a = false) (insertSorted x l).
Proof.
  intros Hc Hx. induction l as [|y l IH]; intros Hall Hord; cbn [insertSorted].
  - constructor; constructor.
  - inversion Hord as [|? ? Hy Hl]; subst.
    assert (Hyall : In y all) by (apply Hall; left; reflexivity).
    destruct (goesBefore x y) eqn:Hxy.
    + constructor; [|exact Hord].
      constructor; [apply (goesBefore_asym all Hc x y Hx Hyall Hxy)|].
      apply List.Forall_forall. intros z Hz.
      assert (Hzall : In z all) by (apply Hall; right; exact Hz).
      rewrite List.Forall_forall in Hy. specialize (Hy z Hz).
      apply (goesBefore_asym all Hc x z Hx Hzall).
      apply (goesBefore_carried all Hc x y z Hx Hyall Hzall Hxy Hy).
    + constructor.
      * apply List.Forall_forall. intros z Hz. apply In_insertSorted in Hz as [->|Hz];
          [exact Hxy|]. rewrite List.Forall_forall in Hy. apply Hy, Hz.
      * apply IH; [|exact Hl]. intros z Hz. apply Hall. right. exact Hz.
Qed.

(** Inserting a passage into a list in order puts it after the passages
    it is tied with. *)
Lemma insertSorted_stable (all : list Candidate) (x y : Candidate) (l : list Candidate) :
  consistentComparator all = true -> In x all -> In y all ->
  (forall z, In z l -> In z all) ->
  ForallOrdPairs (fun a b => goesBefore b a = false) l ->
  List.filter (tiedWith x) (insertSorted y l)
  = List.filter (tiedWith x) l ++ List.filter (tiedWith x) [y].
Proof.
  intros Hc Hx Hy. induction l as [|z l IH]; intros Hall Hord; cbn [insertSorted].
  - reflexivity.
  - inversion Hord as [|? ? Hz Hl]; subst.
    assert (Hzall : In z all) by (apply Hall; left; reflexivity).
    destruct (goesBefore y z) eqn:Hyz.
    + cbn [List.filter app]. destruct (tiedWith x y) eqn:Hxy.
      2:{ rewrite app_nil_r. reflexivity. }
      assert (Hnone : forall w, In w (z :: l) -> tiedWith x w = false).
      { intros w Hw. assert (Hwall : In w all) by (apply Hall, Hw).
        assert (Hyw : goesBefore y w = true).
        { destruct Hw as [<-|Hw]; [exact Hyz|].
          rewrite List.Forall_forall in Hz.
          apply (goesBefore_carried all Hc y z w Hy Hzall Hwall Hyz (Hz w Hw)). }
        destruct (tiedWith x w) eqn:Hxw; [|reflexivity].
        pose proof (tiedWith_trans all Hc y x w Hy Hx Hwall
                      (tiedWith_sym all Hc x y Hx Hy Hxy) Hxw) as E.
        rewrite (goesBefore_not_tied y w Hyw) in E. discriminate E. }
      assert (Hempty : List.filter (tiedWith x) (z :: l) = []).
      { clear -Hnone. induction (z :: l) as [|w r IHr]; [reflexivity|].
        cbn [List.filter]. rewrite (Hnone w (or_introl eq_refl)).
        apply IHr. intros v Hv. apply Hnone. right. exact Hv. }
      cbn [List.filter] in Hempty. rewrite Hempty. reflexivity.
    + cbn [List.filter]. rewrite IH; [|intros w Hw; apply Hall; right; exact Hw|exact Hl].
      destruct (tiedWith x z); reflexivity.
Qed.

(** X29. The order of the retrieved passages. The sort of line 307
    loses and adds no passage. When the comparator [b.similarity -
    a.similarity] is a consistent comparison function for the passages
    of the list, in the words of ECMA-262, which fixes the order that
    [sort] leaves in this case only, then no passage of the sorted list
    goes before a passage that precedes it; the passages that the
    comparator ties keep the order they had; and so no passage left out
    by [slice(0, topK)] goes before a passage that is returned. A list
    with a score that is [NaN] does not meet the condition. *)
Theorem sortBySimilarity_ordered (l : list Candidate) (topK : nat) :
  consistentComparator l = true ->
  Permutation (sortBySimilarity l) l
  /\ ForallOrdPairs (fun a b => goesBefore b a = false) (sortBySimilarity l)
  /\ (forall x, In x l ->
        List.filter (tiedWith x) (sortBySimilarity l) = List.filter (tiedWith x) l)
  /\ (forall kept left,
        In kept (firstn topK (sortBySimilarity l)) ->
        In left (skipn topK (sortBySimilarity l)) ->
        goesBefore left kept = false)
  /\ Forall (fun c => PrimFloat.is_nan (c_similarity c) = false) l.
Proof.
  intros Hc.
  assert (Hfold : forall rest sorted,
            (forall z, In z rest -> In z l) -> (forall z, In z sorted -> In z l) ->
            ForallOrdPairs (fun a b => goesBefore b a = false) sorted ->
            ForallOrdPairs (fun a b => goesBefore b a = false)
              (fold_left (fun sorted x => insertSorted x sorted) rest sorted)
            /\ forall x, In x l ->
                 List.filter (tiedWith x)
                   (fold_left (fun sorted x => insertSorted x sorted) rest sorted)
                 = List.filter (tiedWith x) sorted ++ List.filter (tiedWith x) rest).
  { induction rest as [|y rest IH]; intros sorted Hrest Hsorted Hord.
    - split; [exact Hord|]. intros x _. cbn [fold_left List.filter].
      rewrite app_nil_r. reflexivity.
    - cbn [fold_left].
      assert (Hy : In y l) by (apply Hrest; left; reflexivity).
      destruct (IH (insertSorted y sorted)) as [Ho Hs].
      + intros z Hz. apply Hrest. right. exact Hz.
      + intros z Hz. apply In_insertSorted in Hz as [->|Hz]; [exact Hy|apply Hsorted, Hz].
      + apply (insertSorted_ordered l); assumption.
      + split; [exact Ho|]. intros x Hx. rewrite (Hs x Hx).
        rewrite (insertSorted_stable l x y sorted Hc Hx Hy Hsorted Hord).
        rewrite <- app_assoc. f_equal. cbn [List.filter].
        destruct (tiedWith x y); reflexivity. }
  destruct (Hfold l []) as [Hord Hstable]; [auto|intros z []|constructor|].
  fold (sortBySimilarity l) in Hord, Hstable.
  split; [apply Permutation_sortBySimilarity|]. split; [exact Hord|].
  split; [exact Hstable|]. split.
  - intros kept left Hk Hl.
    rewrite <- (firstn_skipn topK (sortBySimilarity l)) in Hord.
    revert Hk Hl Hord. generalize (firstn topK (sortBySimilarity l)) as front.
    generalize (skipn topK (sortBySimilarity l)) as back.
    intros back front. induction front as [|a front IH]; intros Hk Hl Hord; [destruct Hk|].
    cbn [app] in Hord. inversion Hord as [|? ? Ha Hrest]; subst.
    destruct Hk as [<-|Hk]; [|apply (IH Hk Hl Hrest)].
    rewrite List.Forall_forall in Ha. apply Ha, in_or_app. right. exact Hl.
  - apply List.Forall_forall. intros c Hin.
    destruct (consistentComparator_spec l Hc c Hin) as (Hrefl & _).
    apply (tiedWith_no_nan c Hrefl).
Qed.

(* ================================================================== *)
(** ** Worked runs of the properties above *)
(* ================================================================== *)

Import Demo2.

Lemma generateAnswer_caches_built_witness :
  ask llm_ok question world0 = (Ok (Built expected), w_answered0)
  /\ error expected = None
  /\ redis w_answered0 !! answerCacheKey "room1" question false
     = Some {| value := RString (JSON_stringify expected); ttl := Some 3600%Z |}.
Proof.
  assert (H : ask llm_ok question world0 = (Ok (Built expected), w_answered0))
    by (vm_compute; reflexivity).
  split; [exact H|]. split; [reflexivity|].
  exact (generateAnswer_caches_built noFault llm_ok false noSearch hostname parse
           linear linear question "room1" false world0 w_answered0 expected H eq_refl).
Defined.

Lemma generateAnswer_error_not_cached_witness :
  ask llm_flaky question world0 = (Ok (Built apology), snd (ask llm_flaky question world0))
  /\ error apology <> None
  /\ redis (snd (ask llm_flaky question world0)) = redis world0.
Proof.
  assert (H : ask llm_flaky question world0
              = (Ok (Built apology), snd (ask llm_flaky question world0)))
    by (vm_compute; reflexivity).
  assert (He : error apology <> None) by discriminate.
  split; [exact H|]. split; [exact He|].
  apply (generateAnswer_error_not_cached noFault llm_flaky false noSearch hostname parse
           linear linear question "room1" false world0 _ apology H He).
Defined.

Lemma generateAnswer_citations_witness :
  let w := world_with [handbook] in
  ask llm_ok "How are invoices paid?" w
  = (Ok (Built expected_handbook), snd (ask llm_ok "How are invoices paid?" w))
  /\ (length (sources expected_handbook) <= 3)%nat
  /\ (length (webResults expected_handbook) <= 4)%nat
  /\ Forall (fun s => exists d, In d (documents w) /\ status d = completed
                                /\ src_filename s = originalName d
                                /\ src_fileType s = fileType d)
       (sources expected_handbook).
Proof.
  cbv zeta.
  assert (H : ask llm_ok "How are invoices paid?" (world_with [handbook])
              = (Ok (Built expected_handbook),
                 snd (ask llm_ok "How are invoices paid?" (world_with [handbook]))))
    by (vm_compute; reflexivity).
  split; [exact H|].
  exact (generateAnswer_citations noFault llm_ok false noSearch hostname parse
           linear linear "How are invoices paid?" "room1" false (world_with [handbook]) _
           expected_handbook H).
Defined.

Lemma generateAnswer_search_gate_witness :
  let q := "Please google the invoice total" in
  isWebSearchRequest q = true
  /\ searches (snd (ask llm_ok q world0)) = searches world0
  /\ forall a, fst (ask llm_ok q world0) = Ok (Built a) -> webResults a = [].
Proof.
  cbv zeta. split; [reflexivity|].
  apply (generateAnswer_search_gate noFault llm_ok false noSearch hostname parse
           linear linear "Please google the invoice total" "room1" false world0).
  reflexivity.
Defined.

Lemma generateAnswer_canned_or_generated_witness :
  ask llm_ok question world0 = (Ok (Built expected), w_answered0)
  /\ ((sources expected = [] /\ webResults expected = []
       /\ prompts w_answered0 = prompts world0
       /\ expected = noContentResponse false (isWebSearchRequest question)
                       (Z.of_nat (length (List.filter isCompleted (documents world0)))))
      \/ ((sources expected <> [] \/ webResults expected <> [])
          /\ exists prompt t, prompts w_answered0 = prompt :: prompts world0
                              /\ llm_ok t prompt = Some (answer expected))).
Proof.
  assert (H : ask llm_ok question world0 = (Ok (Built expected), w_answered0))
    by (vm_compute; reflexivity).
  split; [exact H|].
  exact (generateAnswer_canned_or_generated noFault llm_ok false noSearch hostname parse
           linear linear question "room1" false world0 w_answered0 expected H eq_refl).
Defined.

Lemma deleteDocumentFromCache_evicts_witness :
  redis w_answered !! chunkKey invoiceId 0 <> None
  /\ redis (snd (deleteDocumentFromCache noFault invoiceId w_answered))
       !! chunkKey invoiceId 0 = None.
Proof.
  split; [vm_compute; discriminate|].
  destruct (deleteDocumentFromCache_evicts noFault invoiceId w_answered eq_refl eq_refl)
    as [_ H].
  apply H. reflexivity.
Defined.

Lemma deleteDocumentFromCache_spares_witness :
  let key := answerCacheKey "room1" question false in
  let entry := {| value := RString (JSON_stringify expected_cached); ttl := Some 3600%Z |} in
  redis w_answered !! key = Some entry
  /\ includes (JSON_stringify expected_cached) "invoice.txt" = true
  /\ redis (snd (deleteDocumentFromCache noFault invoiceId w_answered)) !! key = Some entry.
Proof.
  cbv zeta.
  assert (H : redis w_answered !! answerCacheKey "room1" question false
              = Some {| value := RString (JSON_stringify expected_cached); ttl := Some 3600%Z |})
    by (vm_compute; reflexivity).
  split; [exact H|]. split; [vm_compute; reflexivity|].
  apply (deleteDocumentFromCache_spares noFault invoiceId _ _ w_answered H);
    vm_compute; reflexivity.
Defined.

Lemma deleteDocumentFromCache_other_documents_witness :
  redis w_both !! chunkKey invoiceId 0 <> None
  /\ redis (snd (deleteDocumentFromCache noFault invoiceId w_both)) !! chunkKey invoiceId 0
     = None
  /\ redis (snd (deleteDocumentFromCache noFault invoiceId w_both)) !! chunkKey handbookId 1
     = Some {| value := RHash handbookPassage; ttl := Some 86400%Z |}.
Proof.
  split; [vm_compute; discriminate|]. split; [vm_compute; reflexivity|].
  apply (deleteDocumentFromCache_other_documents noFault invoiceId handbookId 1
           handbookPassage (Some 86400%Z) w_both);
    [reflexivity|reflexivity|discriminate|vm_compute; reflexivity].
Defined.

Lemma deleteDocument_replies_witness :
  deleteDocument noFault handbookId w_answered = (Ok 404%Z, ticked w_answered)
  /\ exists w',
       deleteDocument noFault invoiceId w_answered = (Ok 200%Z, w')
       /\ documents w' = []
       /\ (forall k e, redis w' !! k = Some e -> redis w_answered !! k = Some e)
       /\ prompts w' = prompts w_answered /\ searches w' = searches w_answered.
Proof.
  split.
  - destruct (deleteDocument_replies noFault handbookId w_answered eq_refl eq_refl)
      as [H _].
    apply H. reflexivity.
  - destruct (deleteDocument_replies noFault invoiceId w_answered eq_refl eq_refl)
      as [_ H].
    apply (H eq_refl invoice). reflexivity.
Defined.

Lemma deleted_document_not_retrieved_witness :
  deleteDocument noFault invoiceId w_answered = (Ok 200%Z, w_deleted)
  /\ exists chunks w'',
       retrieveRelevantChunks noFault linear linear question 3 w_deleted = (Ok chunks, w'')
       /\ Forall (fun c => c_docId c <> invoiceId) chunks.
Proof.
  assert (H : deleteDocument noFault invoiceId w_answered = (Ok 200%Z, w_deleted))
    by (vm_compute; reflexivity).
  split; [exact H|].
  exact (deleted_document_not_retrieved noFault linear linear invoiceId question 3
           w_answered w_deleted H).
Defined.

Lemma chunkKey_separates_witness :
  chunkKey invoiceId 0 <> chunkKey handbookId 0
  /\ chunkKey invoiceId 0 <> chunkKey invoiceId 1.
Proof.
  split.
  - apply (chunkKey_separates invoiceId handbookId 0 0); [reflexivity|reflexivity|].
    left. discriminate.
  - apply (chunkKey_separates invoiceId invoiceId 0 1); [reflexivity|reflexivity|].
    right. discriminate.
Defined.

Lemma generateAndCacheEmbeddings_round_trip_witness :
  exists w',
    generateAndCacheEmbeddings noFault linear linear handbookId (chunks handbook)
      "handbook.txt" (world_with [handbook]) = (Ok tt, w')
    /\ redis w' !! chunkKey handbookId 1
       = Some {| value := RHash handbookPassage; ttl := Some 86400%Z |}
    /\ redis w' !! chunkKey invoiceId 0 = None
    /\ exists h,
         cachedPassage noFault handbook 1 w' = (Ok (Some h), ticked w')
         /\ ph_text h = "Late invoices carry a fee."
         /\ ph_embedding h = generateEmbedding linear linear "Late invoices carry a fee.".
Proof.
  destruct (generateAndCacheEmbeddings_round_trip noFault linear linear handbookId
              "handbook.txt" (chunks handbook) (world_with [handbook]))
    as (w' & Hrun & Hin & Hout & Hread).
  - intros t. reflexivity.
  - apply NoDup_cons. split; [|apply NoDup_singleton].
    intros H. apply list_elem_of_In in H. destruct H as [H|[]]. discriminate H.
  - intros c s t _ H. discriminate H.
  - exists w'. split; [exact Hrun|]. split.
    + apply (Hin {| chunk_text := "Late invoices carry a fee."; chunk_index := 1 |}).
      right. left. reflexivity.
    + split.
      * rewrite Hout; [reflexivity|]. intros c [<-|[<-|[]]]; discriminate.
      * apply (Hread handbook 1%nat
                 {| chunk_text := "Late invoices carry a fee."; chunk_index := 1 |});
          [reflexivity|discriminate|right; left; reflexivity|reflexivity|discriminate].
Defined.

Lemma processDocument_long_text_hangs_witness :
  (DEFAULT_CHUNK_SIZE < len (repeatS "x" 801))%Z
  /\ forall fuel : nat,
       processDocument noFault linear linear (nextId invoiceId) fuel "1700000003-long.txt"
         "long.txt"
         (repeatS "x" 801) ".txt" 801 = None.
Proof.
  assert (H : (DEFAULT_CHUNK_SIZE < len (repeatS "x" 801))%Z) by (vm_compute; reflexivity).
  split; [exact H|].
  apply (processDocument_long_text_hangs noFault linear linear (nextId invoiceId)
           "1700000003-long.txt"
           "long.txt" (repeatS "x" 801) ".txt" 801); [discriminate|exact H].
Defined.

Lemma processDocument_outcome_witness :
  exists run,
    processDocument noFault linear linear (nextId reportId) 0 "1700000001-report.pdf"
      "report.pdf"
      "Quarterly figures." ".pdf" 18 = Some run
    /\ fst (run (world_with [])) = Ok report
    /\ exists chunk,
         chunk_index chunk = 0%Z
         /\ (".pdf" = ".pdf" /\ chunk_text chunk = "Quarterly figures."
             \/ ".pdf" <> ".pdf" /\ chunk_text chunk = trim "Quarterly figures."
                /\ (len "Quarterly figures." <= DEFAULT_CHUNK_SIZE)%Z)
         /\ let document := newDocument (nextId reportId (clock (world_with [])))
                              "1700000001-report.pdf" "report.pdf" "Quarterly figures."
                              [chunk] ".pdf" 18 in
            match run (world_with []) with
            | (Ok d, w') =>
                d = set_status completed document
                /\ isValidDocument d = true
                /\ documents w' = documents (world_with []) ++ [d]
                /\ prompts w' = prompts (world_with [])
                /\ searches w' = searches (world_with [])
                /\ (".pdf" = ".pdf" -> redis w' = redis (world_with []))
            | (Throw _, w') =>
                documents w' = documents (world_with [])
                \/ documents w' = documents (world_with []) ++ [document]
            end.
Proof.
  eexists. split; [reflexivity|]. split; [vm_compute; reflexivity|].
  apply (processDocument_outcome noFault linear linear (nextId reportId) 0
           "1700000001-report.pdf"
           "report.pdf" "Quarterly figures." ".pdf" 18 _ (world_with []) eq_refl).
Defined.

Lemma processDocument_text_retrievable_witness :
  let chunk := {| chunk_text := "The invoice total is $450."; chunk_index := 0 |} in
  exists run w',
    processDocument noFault linear linear (nextId invoiceId) 0 "1700000000-invoice.txt"
      "invoice.txt" "  The invoice total is $450. " ".txt" 26 = Some run
    /\ run (world_with []) = (Ok (set_status completed
                                    (newDocument invoiceId "1700000000-invoice.txt"
                                       "invoice.txt" "  The invoice total is $450. " [chunk]
                                       ".txt" 26)), w')
    /\ redis w' !! chunkKey invoiceId 0
       = Some (passageEntry linear linear invoiceId "invoice.txt" chunk)
    /\ exists d,
         documents w' = [d]
         /\ searchChunk noFault linear linear "What is due?" d (0%nat, chunk) [] w'
            = (Ok [candidate "The invoice total is $450."
                     (cosineSimilarity (generateEmbedding linear linear "What is due?")
                        (generateEmbedding linear linear "The invoice total is $450."))
                     d],
               ticked w').
Proof.
  cbv zeta.
  destruct (processDocument_text_retrievable noFault linear linear (nextId invoiceId) 0
              "1700000000-invoice.txt" "invoice.txt" "  The invoice total is $450. "
              ".txt" 26 (world_with []))
    as (run & d & w' & Hrun & Hok & Hd & Hdocs & Hredis & Hsearch).
  - intros t. reflexivity.
  - discriminate.
  - vm_compute. discriminate.
  - vm_compute. reflexivity.
  - reflexivity.
  - reflexivity.
  - exists run, w'. split; [exact Hrun|]. split; [rewrite Hok, Hd; reflexivity|].
    split; [rewrite Hredis; apply lookup_insert_eq|].
    exists d. split; [exact Hdocs|]. exact (Hsearch "What is due?" []).
Defined.

Lemma rateLimiter_sliding_window_witness :
  let answers := fst (rateLimiter_run 1000 2 requestsOfAnn ∅) in
  inTimeOrder requestsOfAnn = true
  /\ answers = [true; true; false; true; true]
  /\ (false = true
      <-> (Z.of_nat (allowedSince (200 - 1000) "ann" (firstn 2 (combine requestsOfAnn answers)))
           < 2)%Z)
  /\ (true = true
      <-> (Z.of_nat (allowedSince (1050 - 1000) "ann"
                       (firstn 4 (combine requestsOfAnn answers)))
           < 2)%Z).
Proof.
  cbv zeta.
  destruct (rateLimiter_sliding_window 1000 2 requestsOfAnn eq_refl) as [_ H].
  split; [reflexivity|]. split; [vm_compute; reflexivity|]. split.
  - apply (H 2%nat 200%Z "ann" false); vm_compute; reflexivity.
  - apply (H 4%nat 1050%Z "ann" true); vm_compute; reflexivity.
Defined.

Lemma short_question_key_is_its_own_witness :
  let smile := [0xD83D; 0xDE00; 63]%Z in
  let euro := [0x20AC; 63]%Z in
  isWellFormed smile = true /\ isWellFormed euro = true
  /\ (length (Buffer_from smile) <= 36)%nat
  /\ answerCacheKeyOf (units "room1") smile true <> answerCacheKeyOf (units "room1") euro true
  /\ answerCacheKeyOf (units "room1") smile true <> answerCacheKeyOf (units "room2") euro false.
Proof.
  cbv zeta.
  assert (W1 : isWellFormed [0xD83D; 0xDE00; 63]%Z = true) by reflexivity.
  assert (W2 : isWellFormed [0x20AC; 63]%Z = true) by reflexivity.
  assert (H : (length (Buffer_from [0xD83D; 0xDE00; 63]%Z) <= 36)%nat) by (vm_compute; lia).
  split; [exact W1|]. split; [exact W2|]. split; [exact H|]. split.
  - apply (short_question_key_is_its_own _ _ W1 W2 H); discriminate.
  - apply (short_question_key_is_its_own _ _ W1 W2 H); discriminate.
Defined.

Lemma sortBySimilarity_ordered_witness :
  consistentComparator scored = true
  /\ map c_text (sortBySimilarity scored) = ["b"; "a"; "d"; "c"]
  /\ Permutation (sortBySimilarity scored) scored
  /\ (forall x, In x scored ->
        List.filter (tiedWith x) (sortBySimilarity scored) = List.filter (tiedWith x) scored)
  /\ forall kept left,
       In kept (firstn 2 (sortBySimilarity scored)) ->
       In left (skipn 2 (sortBySimilarity scored)) ->
       goesBefore left kept = false.
Proof.
  assert (H : consistentComparator scored = true) by (vm_compute; reflexivity).
  destruct (sortBySimilarity_ordered scored 2 H) as (Hperm & _ & Hstable & Htop & _).
  split; [exact H|]. split; [vm_compute; reflexivity|]. split; [exact Hperm|].
  split; [exact Hstable|exact Htop].
Defined.
Example slice_ex1 : slice "hello world" 2 5 = "llo".
Proof. reflexivity. Qed.

Example slice_ex2 : slice "hello world" (-5) 100 = "world".
Proof. reflexivity. Qed.

Example slice_ex3 : slice "hello world" 7 3 = "".
Proof. reflexivity. Qed.

Example trim_ex : trim "  a b  " = "a b".
Proof. reflexivity. Qed.

Example lastIndexOf_ex1 : lastIndexOf "a. b. c" ". " = 4%Z.
Proof. reflexivity. Qed.

Example lastIndexOf_ex2 : lastIndexOf "abc" ". " = (-1)%Z.
Proof. reflexivity. Qed.

Example split_ex : split " " "a  bc " = ["a"; ""; "bc"; ""].
Proof. reflexivity. Qed.

Example includes_ex : includes "hello" "ell" = true /\ includes "hello" "" = true
                      /\ includes "hello" "elo" = false.
Proof. repeat split; reflexivity. Qed.

Example glob_ex : glob "doc:ab:*" "doc:ab:chunk:0" = true
                  /\ glob "doc:ab:*" "doc:abc:chunk:0" = false
                  /\ glob "answer:*" "answer:" = true.
Proof. repeat split; reflexivity. Qed.

Example replaceFirst_ex : replaceFirst ".pdf" "" "a.pdf.pdf" = "a.pdf".
Proof. reflexivity. Qed.

Example simpleHash_ex : simpleHash "ab" = 3105%Z /\ simpleHash "" = 0%Z.
Proof. split; reflexivity. Qed.

Example round_ex : Math_round 2.5 = 3%float /\ Math_round (-2.5) = (-2)%float
  /\ Math_round 0.49999999999999994 = 0%float /\ Math_round 34.99999 = 35%float.
Proof. repeat split; vm_compute; reflexivity. Qed.

Example JSON_number_ex :
  JSON_number 0.9 = "0.9" /\ JSON_number 0.35 = "0.35" /\ JSON_number 1 = "1"
  /\ JSON_number (-0.07) = "-0.07" /\ JSON_number 12.5 = "12.5"
  /\ JSON_number PrimFloat.nan = "null" /\ JSON_number 0.1 = "0.1".
Proof. repeat split; vm_compute; reflexivity. Qed.

Example chunk_short : chunkDocument_fuel 0 "  hello " 800 150
  = Some [{| chunk_text := "hello"; chunk_index := 0 |}].
Proof. reflexivity. Qed.

Example extractSearchTerms_ex :
  extractSearchTerms "The invoice total is $450. Pay the invoice." "What is the invoice total?"
  = "what the invoice total".
Proof. reflexivity. Qed.

Example directSearchTerms_ex :
  directSearchTerms "Search  the web. search For current weather?" = "Search  the web  current weather"
  /\ directSearchTerms "please SEARCH web cats!" = "please  cats".
Proof. split; reflexivity. Qed.

Example isWebSearchRequest_ex :
  isWebSearchRequest "Please Google it" = true /\ isWebSearchRequest "what is x?" = false.
Proof. split; reflexivity. Qed.

Example base64_ex : base64 (utf8 "What is X?") = "V2hhdCBpcyBYPw=="
  /\ base64 (utf8 "ab") = "YWI=" /\ base64 (utf8 "abc") = "YWJj".
Proof. repeat split; reflexivity. Qed.

Example answerCacheKey_ex :
  answerCacheKey "room1" "What is X?" true = "answer:room1:V2hhdCBpcyBYPw==:wstrue".
Proof. reflexivity. Qed.

Example chunkKey_ex : chunkKey "64b7f0" 12 = "doc:64b7f0:chunk:12".
Proof. reflexivity. Qed.


(** The ranking of the design document's test: against "alpha beta", the
    chunk with both words comes first, the chunk with one word second,
    and the chunk with neither is left out. *)
Example retrieval_ranking :
  let doc :=
    {| doc_id := "64b7f0c2a1d3e4f5a6b7c8db"; filename := "1700000002-words.txt";
       originalName := "words.txt"; content := "";
       chunks := [ {| chunk_text := "gamma delta"; chunk_index := 0 |};
                   {| chunk_text := "alpha gamma"; chunk_index := 1 |};
                   {| chunk_text := "beta alpha beta"; chunk_index := 2 |} ];
       fileType := ".txt"; fileSize := 0; status := completed |} in
  let w := {| redis := ∅; documents := [doc]; clock := 0; prompts := []; searches := [] |} in
  map (fun c => (c_text c, c_similarity c))
      (match fst (retrieveRelevantChunks Demo.noFault Demo.linear Demo.linear "alpha beta" 3 w) with
       | Ok l => l
       | Throw _ => []
       end)
  = [("beta alpha beta", 0.9%float); ("alpha gamma", 0.35%float)].
Proof. vm_compute. reflexivity. Qed.

(** A document that is still processing is not searched. *)
Example retrieval_skips_processing :
  let doc :=
    {| doc_id := "64b7f0c2a1d3e4f5a6b7c8dc"; filename := "f"; originalName := "f.txt";
       content := ""; chunks := [ {| chunk_text := "alpha beta"; chunk_index := 0 |} ];
       fileType := ".txt"; fileSize := 0; status := processing |} in
  let w := {| redis := ∅; documents := [doc]; clock := 0; prompts := []; searches := [] |} in
  fst (retrieveRelevantChunks Demo.noFault Demo.linear Demo.linear "alpha beta" 3 w) = Ok [].
Proof. vm_compute. reflexivity. Qed.

(** A failure of the document store empties the retrieval. *)
Example retrieval_survives_store_failure :
  fst (retrieveRelevantChunks (fun _ => true) Demo.linear Demo.linear "alpha" 3 Demo.world0)
  = Ok [].
Proof. vm_compute. reflexivity. Qed.

Example round2_ex :
  round2 0.175 = 0.18%float /\ round2 0.9 = 0.9%float /\ round2 (-0.004) = (-0)%float
  /\ round2 PrimFloat.nan = PrimFloat.nan.
Proof. repeat split; vm_compute; reflexivity. Qed.

Example cosineSimilarity_ex :
  cosineSimilarity [1; 2; 3]%float [1; 2; 3]%float = 1%float
  /\ cosineSimilarity [1; 2; 3]%float [0; 0; 0]%float = 0%float
  /\ cosineSimilarity [1; 2]%float [1; 2; 3]%float = 0%float.
Proof. repeat split; vm_compute; reflexivity. Qed.

(** The design document's first scenario: one source above 0.1, no web
    result, and the document-only prompt. *)
Example scenario_invoice :
  let '(reply, w) := Demo.ask Demo.llm_ok Demo.question Demo.world0 in
  reply = Ok (Built Demo.expected)
  /\ prompts w
     = [documentOnlyPrompt
          (documentContextOf
             [candidate "The invoice total is $450." 0.35 Demo.invoice])
          Demo.question false].
Proof. vm_compute. split; reflexivity. Qed.

(** A web-only answer: no document, at most four web results, and the
    web-only prompt. *)
Example scenario_web_only :
  let question := "Please search for the current weather" in
  let result :=
    {| wr_title := "Weather today"; wr_link := "https://www.weather.example/today";
       wr_snippet := "Sunny."; wr_source := "weather.example" |} in
  let '(reply, w) := Demo.askWeb question (Demo.world_with []) in
  match reply with
  | Ok (Built a) =>
      sources a = [] /\ length (webResults a) = 4%nat
      /\ searches w = ["Please  the current weather"]
      /\ prompts w
         = [webOnlyPrompt (webContextOf [result; result; result; result]) question]
  | _ => False
  end.
Proof. vm_compute. repeat split. Qed.

(** The phrase must be one of the keywords: "search the web" is not. *)
Example isWebSearchRequest_phrase :
  isWebSearchRequest "search the web for current weather" = false
  /\ isWebSearchRequest "search web for current weather" = true.
Proof. split; reflexivity. Qed.

(** The answer when the web search is requested and disabled, with no
    passage to answer from. *)
Example scenario_search_disabled :
  match fst (Demo.ask Demo.llm_ok "Please google the weather" (Demo.world_with [])) with
  | Ok (Built a) =>
      substring0 36 (answer a) = "Web search is currently disabled. I "
      /\ sources a = [] /\ webResults a = []
  | _ => False
  end.
Proof. vm_compute. repeat split. Qed.

Example sanitizeFilename_ex :
  sanitizeFilename "My Report (v2).PDF" = "my_report__v2_.pdf"
  /\ sanitizeFilename "../etc/passwd" = ".._etc_passwd".
Proof. split; reflexivity. Qed.

Example cleanText_ex :
  cleanText ("  The  total" +:+ nl +:+ nl +:+ Demo.tab +:+ "is due. ") = "The total is due.".
Proof. reflexivity. Qed.

Example retryWithBackoff_ex :
  retryWithBackoff Demo2.flaky 3 1000 = (Ok (Some "done"), [2000; 1000]%Z)
  /\ retryWithBackoff Demo2.flaky 2 1000 = (Throw "ECONNRESET", [1000]%Z)
  /\ retryWithBackoff Demo2.flaky 0 1000 = (Ok None, []).
Proof. repeat split; reflexivity. Qed.

Example rateLimiter_ex :
  fst (rateLimiter_run 1000 2 Demo2.requestsOfAnn ∅) = [true; true; false; true; true].
Proof. vm_compute. reflexivity. Qed.

(** Reprocessing the invoice: the answer is 500, the document is marked
    failed, its passage is gone from the cache, and the question that
    found it before finds nothing. *)
Example reprocessDocument_ex :
  let '(reply, w) :=
    reprocessDocument Demo.noFault Demo.linear Demo.linear (Demo2.nextId Demo2.reportId) 0
      Demo.invoiceId Demo.w_cached in
  reply = Ok (Some 500%Z)
  /\ map status (documents w) = [failed]
  /\ redis w !! chunkKey Demo.invoiceId 0 = None
  /\ fst (retrieveRelevantChunks Demo.noFault Demo.linear Demo.linear Demo.question 3 w)
     = Ok [].
Proof. vm_compute. repeat split. Qed.

(** An upload of the invoice as a text file: the document is stored and
    completed, and its passage is cached. *)
Example processDocument_ex :
  match
    processDocument Demo.noFault Demo.linear Demo.linear (Demo2.nextId Demo.invoiceId) 0
      "1700000000-invoice.txt" "invoice.txt" "The invoice total is $450." ".txt" 26
  with
  | Some run =>
      let '(reply, w) := run (Demo.world_with []) in
      reply = Ok Demo.invoice /\ documents w = [Demo.invoice]
      /\ redis w = redis Demo.w_cached
  | None => False
  end.
Proof. vm_compute. repeat split. Qed.

(** A score that is not a number makes the comparator inconsistent: the
    order that [sort] leaves is then the engine's choice. *)
Example consistentComparator_ex :
  consistentComparator scored = true /\ consistentComparator scoredNaN = false
  /\ consistentComparator [candidate "a" PrimFloat.nan invoice] = false
  /\ consistentComparator [candidate "a" PrimFloat.infinity invoice] = false.
Proof. repeat split; vm_compute; reflexivity. Qed.

(** [Buffer.from] on the euro sign, on a character above U+FFFF, on a
    letter below 256, and on a lone surrogate. *)
Example Buffer_from_ex :
  Buffer_from [0x20AC]%Z = [0xE2; 0x82; 0xAC]%Z
  /\ Buffer_from [0xD83D; 0xDE00]%Z = [0xF0; 0x9F; 0x98; 0x80]%Z
  /\ Buffer_from [0xE9]%Z = [0xC3; 0xA9]%Z
  /\ Buffer_from [0xD800; 63]%Z = [0xEF; 0xBF; 0xBD; 63]%Z
  /\ Buffer_from [0xFFFD; 63]%Z = [0xEF; 0xBF; 0xBD; 63]%Z.
Proof. repeat split; reflexivity. Qed.

(** Two questions of four bytes that share their keys: one has a lone
    surrogate where the other has U+FFFD. *)
Example lone_surrogate_shares_key (room : list Z) (enabled : bool) :
  isWellFormed [0xD800; 63]%Z = false
  /\ [0xD800; 63]%Z <> [0xFFFD; 63]%Z
  /\ answerCacheKeyOf room [0xD800; 63]%Z enabled
     = answerCacheKeyOf room [0xFFFD; 63]%Z enabled.
Proof. split; [reflexivity|]. split; [discriminate|reflexivity]. Qed.
